(** * desktop-companion: the software 3D renderer, its mesh builders and the
    OBJ loader, embedded from [render3d.c], [ssd1306.c] and [obj_loader.c].

    Conventions of the embedding.
    - C [float] is IEEE-754 binary32, given by the Standard Library's
      executable specification [SpecFloat] at precision 24 and maximal
      exponent 128, rounding to nearest even.  Every value the operations
      below produce is in canonical form, which is what [SFcompare] expects.
    - C [int] is [Z].  Signed overflow is undefined in C.  Where a function
      takes arbitrary [int] arguments and computes with them
      ([render3d_draw_line], [ssd1306_fill_rect], [ssd1306_fill_circle]) the
      model gives every [int] operation the result of the 32-bit target,
      reduced modulo 2^32 ([int_add], [int_sub], ...); elsewhere it covers
      the executions in which no [int] operation overflows.  [uint8_t] and
      [uint16_t] stores are written with their reduction modulo 2^8 / 2^16.
    - C arrays are lists read with [!!] and written with [<[ i := v ]>].
      An access outside the allocation is undefined in C; the model reads a
      default there and ignores the write.
    - [cosf], [sinf] and [tanf] come from libm and are parameters of the
      section that needs them. *)

From Stdlib Require Import ZArith Lia Bool Ascii String DecimalString.
From Stdlib Require Import Floats.SpecFloat.
From stdpp Require Import base list.

Local Open Scope Z_scope.

(** ** binary32 arithmetic *)

Definition float : Type := spec_float.

Definition prec : Z := 24.
Definition emax : Z := 128.

Definition fadd : float -> float -> float := SFadd prec emax.
Definition fsub : float -> float -> float := SFsub prec emax.
Definition fmul : float -> float -> float := SFmul prec emax.
Definition fdiv : float -> float -> float := SFdiv prec emax.
Definition sqrtf : float -> float := SFsqrt prec emax.
Definition fneg : float -> float := SFopp.
Definition fabsf : float -> float := SFabs.

(** C's [a < b], [a <= b], [a > b], [a >= b]: all false when an operand is
    NaN. *)
Definition flt (a b : float) : bool := SFltb a b.
Definition fle (a b : float) : bool := SFleb a b.
Definition fgt (a b : float) : bool := SFltb b a.
Definition fge (a b : float) : bool := SFleb b a.

(** [(float)n] for an [int] n: the nearest binary32 value. *)
Definition of_int (n : Z) : float := binary_normalize prec emax n 0 false.

(** A decimal literal [n / d] with [n] and [d] exactly representable is the
    correctly rounded quotient, which is what the compiler stores. *)
Definition lit_frac (n d : Z) : float := fdiv (of_int n) (of_int d).

Declare Scope f32_scope.
Delimit Scope f32_scope with f32.
Notation "a + b" := (fadd a b) : f32_scope.
Notation "a - b" := (fsub a b) : f32_scope.
Notation "a * b" := (fmul a b) : f32_scope.
Notation "a / b" := (fdiv a b) : f32_scope.
Notation "- a" := (fneg a) : f32_scope.
Notation "a <? b" := (flt a b) : f32_scope.
Notation "a <=? b" := (fle a b) : f32_scope.
Notation "a >? b" := (fgt a b) : f32_scope.
Notation "a >=? b" := (fge a b) : f32_scope.

Definition f0 : float := S754_zero false.
Definition f1 : float := of_int 1.
Definition f2 : float := of_int 2.
Definition f16 : float := of_int 16.
Definition f180 : float := of_int 180.
Definition f1000 : float := of_int 1000.
Definition f0_5 : float := lit_frac 1 2.
Definition f0_001 : float := lit_frac 1 1000.
Definition f0_0001 : float := lit_frac 1 10000.

(** The integer part and the fractional remainder of a finite magnitude
    [m * 2^e]. *)
Definition mag_split (m : positive) (e : Z) : Z * Z :=
  if 0 <=? e then (Z.shiftl (Zpos m) e, 0)
  else (Z.shiftr (Zpos m) (- e), Z.land (Zpos m) (Z.ones (- e))).

(** [(int)x]: truncation toward zero.  The conversion of an infinity, of a
    NaN or of a value outside the range of [int] is undefined in C; the model
    gives 0 for the first two and does not reduce the third. *)
Definition to_int (x : float) : Z :=
  match x with
  | S754_finite s m e => let q := fst (mag_split m e) in if s then - q else q
  | _ => 0
  end.

Definition floorf (x : float) : float :=
  match x with
  | S754_finite s m e =>
      if 0 <=? e then x
      else let '(q, r) := mag_split m e in
           if s then of_int (- (if r =? 0 then q else q + 1))
           else binary_normalize prec emax q 0 false
  | _ => x
  end.

Definition ceilf (x : float) : float :=
  match x with
  | S754_finite s m e =>
      if 0 <=? e then x
      else let '(q, r) := mag_split m e in
           if s then binary_normalize prec emax (- q) 0 true
           else of_int (if r =? 0 then q else q + 1)
  | _ => x
  end.

(** ** The display driver's frame buffer ([ssd1306.c]) *)

Definition SSD1306_WIDTH : Z := 128.
Definition SSD1306_HEIGHT : Z := 64.

(** [static uint8_t frame_buffer[SSD1306_WIDTH * SSD1306_HEIGHT / 8]]. *)
Definition frame_buffer_size : nat := Z.to_nat (SSD1306_WIDTH * SSD1306_HEIGHT / 8).

Definition byte_at (fb : list Z) (idx : Z) : Z := default 0 (fb !! Z.to_nat idx).

Definition ssd1306_clear (fb : list Z) : list Z := replicate frame_buffer_size 0.

Definition ssd1306_set_pixel (x y : Z) (on : bool) (fb : list Z) : list Z :=
  if (x <? 0) || (x >=? SSD1306_WIDTH) || (y <? 0) || (y >=? SSD1306_HEIGHT) then fb
  else
    let page := Z.quot y 8 in
    let bit := Z.rem y 8 in
    let idx := page * SSD1306_WIDTH + x in
    if on then <[Z.to_nat idx := Z.lor (byte_at fb idx) (Z.shiftl 1 bit) mod 256]> fb
    else <[Z.to_nat idx := Z.land (byte_at fb idx) (Z.lnot (Z.shiftl 1 bit)) mod 256]> fb.

Definition ssd1306_get_pixel (x y : Z) (fb : list Z) : bool :=
  if (x <? 0) || (x >=? SSD1306_WIDTH) || (y <? 0) || (y >=? SSD1306_HEIGHT) then false
  else
    let page := Z.quot y 8 in
    let bit := Z.rem y 8 in
    let idx := page * SSD1306_WIDTH + x in
    negb (Z.land (byte_at fb idx) (Z.shiftl 1 bit) =? 0).

(** ** Ordered dithering *)

Definition DITHER_BAYER4 : list (list Z) :=
  [ [  0;  8;  2; 10 ];
    [ 12;  4; 14;  6 ];
    [  3; 11;  1;  9 ];
    [ 15;  7; 13;  5 ] ].

Definition bayer_at (row col : Z) : Z :=
  default 0 (default [] (DITHER_BAYER4 !! Z.to_nat row) !! Z.to_nat col).

Definition dither_pixel (x y : Z) (brightness : float) : bool :=
  if (brightness <=? f0)%f32 then false
  else if (brightness >=? f1)%f32 then true
  else
    let threshold := bayer_at (Z.land y 3) (Z.land x 3) in
    (brightness * f16 >? of_int threshold)%f32.

(** ** [int] arithmetic

    [int] has 32 bits on the target.  An operation whose mathematical result
    leaves the range of [int] is undefined in C; the instructions of the
    target give the result reduced modulo 2^32 into [-2^31, 2^31), and so do
    the operations below. *)

Definition wrap32 (z : Z) : Z := (z + 2147483648) mod 4294967296 - 2147483648.

Definition int_add (a b : Z) : Z := wrap32 (a + b).
Definition int_sub (a b : Z) : Z := wrap32 (a - b).
Definition int_mul (a b : Z) : Z := wrap32 (a * b).
Definition int_neg (a : Z) : Z := wrap32 (- a).

(** [abs] of [<stdlib.h>]. *)
Definition int_abs (a : Z) : Z := wrap32 (Z.abs a).

(** ** Bresenham lines for the wireframe mode *)

(** The body of [while (1)] in [render3d_draw_line]; [None] when the fuel
    runs out before the loop breaks. *)
Fixpoint draw_line_loop (fuel : nat) (x1 y1 dx dy sx sy : Z) (on : bool)
    (x0 y0 err : Z) (fb : list Z) : option (list Z) :=
  match fuel with
  | O => None
  | S fuel' =>
      let fb :=
        if (0 <=? x0) && (x0 <? SSD1306_WIDTH) && (0 <=? y0) && (y0 <? SSD1306_HEIGHT)
        then ssd1306_set_pixel x0 y0 on fb else fb in
      if (x0 =? x1) && (y0 =? y1) then Some fb
      else
        let e2 := int_mul 2 err in
        let '(err, x0) :=
          if e2 >? int_neg dy then (int_sub err dy, int_add x0 sx) else (err, x0) in
        let '(err, y0) :=
          if e2 <? dx then (int_add err dx, int_add y0 sy) else (err, y0) in
        draw_line_loop fuel' x1 y1 dx dy sx sy on x0 y0 err fb
  end.

(** [render3d_draw_line].  [fuel] bounds the number of iterations of
    [while (1)]; the result is [None] when the loop has not reached its
    [break] within them. *)
Definition render3d_draw_line (fuel : nat) (x0 y0 x1 y1 : Z) (on : bool) (fb : list Z)
  : option (list Z) :=
  let dx := int_abs (int_sub x1 x0) in
  let dy := int_abs (int_sub y1 y0) in
  let sx := if x0 <? x1 then 1 else -1 in
  let sy := if y0 <? y1 then 1 else -1 in
  let err := int_sub dx dy in
  draw_line_loop fuel x1 y1 dx dy sx sy on x0 y0 err fb.

(** ** Vectors, matrices and colours ([render3d.h]) *)

Record vec3_t : Type := mk_vec3 { vx : float; vy : float; vz : float }.

(** [float m[4][4]], row major. *)
Definition mat4_t : Type := list (list float).

Record color_t : Type := mk_color { cr : Z; cg : Z; cb : Z }.

Record face_t : Type := mk_face {
  face_v : list Z;      (* uint16_t v[3] *)
  face_n : list Z;      (* uint16_t n[3] *)
  face_color : color_t
}.

Record mesh_t : Type := mk_mesh {
  vertices : list vec3_t;
  normals : list vec3_t;
  faces : list face_t;
  vertex_count : Z;
  normal_count : Z;
  face_count : Z;
  position : vec3_t;
  rotation : vec3_t;
  scale : vec3_t
}.

Record camera_t : Type := mk_camera {
  cam_position : vec3_t;
  cam_target : vec3_t;
  cam_up : vec3_t;
  fov : float;
  near_plane : float;
  far_plane : float
}.

Record light_t : Type := mk_light {
  direction : vec3_t;
  intensity : float;
  ambient : float
}.

(** The monochrome build keeps [framebuffer] and [colorbuffer] null; the
    pixels live in the display driver's [frame_buffer]. *)
Record render_ctx_t : Type := mk_ctx {
  camera : camera_t;
  light : light_t;
  view_matrix : mat4_t;
  proj_matrix : mat4_t;
  zbuffer : list float;
  width : Z;
  height : Z
}.

Definition vec3_create (x y z : float) : vec3_t := mk_vec3 x y z.

Definition vec3_add (a b : vec3_t) : vec3_t :=
  mk_vec3 (vx a + vx b)%f32 (vy a + vy b)%f32 (vz a + vz b)%f32.

Definition vec3_sub (a b : vec3_t) : vec3_t :=
  mk_vec3 (vx a - vx b)%f32 (vy a - vy b)%f32 (vz a - vz b)%f32.

Definition vec3_mul (v : vec3_t) (s : float) : vec3_t :=
  mk_vec3 (vx v * s)%f32 (vy v * s)%f32 (vz v * s)%f32.

Definition vec3_cross (a b : vec3_t) : vec3_t :=
  mk_vec3 (vy a * vz b - vz a * vy b)%f32
          (vz a * vx b - vx a * vz b)%f32
          (vx a * vy b - vy a * vx b)%f32.

Definition vec3_dot (a b : vec3_t) : float :=
  (vx a * vx b + vy a * vy b + vz a * vz b)%f32.

Definition vec3_length (v : vec3_t) : float :=
  sqrtf (vx v * vx v + vy v * vy v + vz v * vz v)%f32.

Definition vec3_normalize (v : vec3_t) : vec3_t :=
  let len := vec3_length v in
  if (len <? f0_0001)%f32 then mk_vec3 f0 f0 f0
  else vec3_mul v (f1 / len)%f32.

Definition mat_get (m : mat4_t) (i j : nat) : float :=
  default f0 (default [] (m !! i) !! j).

Definition mat_set (m : mat4_t) (i j : nat) (v : float) : mat4_t :=
  <[i := <[j := v]> (default [] (m !! i))]> m.

(** [mat4_t m = {{{0}}}]. *)
Definition mat4_zero : mat4_t := replicate 4 (replicate 4 f0).

Definition mat4_identity : mat4_t :=
  mat_set (mat_set (mat_set (mat_set mat4_zero 3 3 f1) 2 2 f1) 1 1 f1) 0 0 f1.

(** [for (k = 0; k < 4; k++) result.m[i][j] += a.m[i][k] * b.m[k][j]]. *)
Definition mat4_multiply (a b : mat4_t) : mat4_t :=
  foldl (fun r i =>
    foldl (fun r j =>
      foldl (fun r k =>
        mat_set r i j (mat_get r i j + mat_get a i k * mat_get b k j)%f32)
        r [0; 1; 2; 3]%nat)
      r [0; 1; 2; 3]%nat)
    mat4_zero [0; 1; 2; 3]%nat.

Definition mat4_translate (x y z : float) : mat4_t :=
  mat_set (mat_set (mat_set mat4_identity 0 3 x) 1 3 y) 2 3 z.

Definition mat4_scale (x y z : float) : mat4_t :=
  mat_set (mat_set (mat_set mat4_identity 0 0 x) 1 1 y) 2 2 z.

Definition mat4_look_at (eye target up : vec3_t) : mat4_t :=
  let f := vec3_normalize (vec3_sub target eye) in
  let r := vec3_normalize (vec3_cross f up) in
  let u := vec3_cross r f in
  let m := mat4_identity in
  let m := mat_set (mat_set (mat_set m 0 0 (vx r)) 0 1 (vy r)) 0 2 (vz r) in
  let m := mat_set (mat_set (mat_set m 1 0 (vx u)) 1 1 (vy u)) 1 2 (vz u) in
  let m := mat_set (mat_set (mat_set m 2 0 (- vx f)%f32) 2 1 (- vy f)%f32) 2 2 (- vz f)%f32 in
  let m := mat_set m 0 3 (- vec3_dot r eye)%f32 in
  let m := mat_set m 1 3 (- vec3_dot u eye)%f32 in
  mat_set m 2 3 (vec3_dot f eye).

Definition mat4_transform_point (m : mat4_t) (p : vec3_t) : vec3_t :=
  let w := (mat_get m 3 0 * vx p + mat_get m 3 1 * vy p + mat_get m 3 2 * vz p
            + mat_get m 3 3)%f32 in
  let w := if (fabsf w <? f0_0001)%f32 then f0_0001 else w in
  mk_vec3
    ((mat_get m 0 0 * vx p + mat_get m 0 1 * vy p + mat_get m 0 2 * vz p + mat_get m 0 3) / w)%f32
    ((mat_get m 1 0 * vx p + mat_get m 1 1 * vy p + mat_get m 1 2 * vz p + mat_get m 1 3) / w)%f32
    ((mat_get m 2 0 * vx p + mat_get m 2 1 * vy p + mat_get m 2 2 * vz p + mat_get m 2 3) / w)%f32.

Definition mat4_transform_direction (m : mat4_t) (d : vec3_t) : vec3_t :=
  mk_vec3
    (mat_get m 0 0 * vx d + mat_get m 0 1 * vy d + mat_get m 0 2 * vz d)%f32
    (mat_get m 1 0 * vx d + mat_get m 1 1 * vy d + mat_get m 1 2 * vz d)%f32
    (mat_get m 2 0 * vx d + mat_get m 2 1 * vy d + mat_get m 2 2 * vz d)%f32.

(** ** Rendering core *)

(** [for (i = i0; i < i0 + n; i++) body]. *)
Fixpoint for_range {S : Type} (n : nat) (i : Z) (body : Z -> S -> S) (s : S) : S :=
  match n with
  | O => s
  | Datatypes.S n' => for_range n' (i + 1) body (body i s)
  end.

(** The renderer's state: the context and the driver's frame buffer. *)
Definition world : Type := render_ctx_t * list Z.

Definition with_zbuffer (ctx : render_ctx_t) (zb : list float) : render_ctx_t :=
  mk_ctx (camera ctx) (light ctx) (view_matrix ctx) (proj_matrix ctx) zb
         (width ctx) (height ctx).

Definition zbuf_at (zb : list float) (idx : Z) : float := default f0 (zb !! Z.to_nat idx).

Definition render3d_clear (w : world) : world :=
  let '(ctx, fb) := w in
  let zb :=
    for_range (Z.to_nat (width ctx * height ctx)) 0
      (fun i zb => <[Z.to_nat i := f1000]> zb) (zbuffer ctx) in
  (with_zbuffer ctx zb, ssd1306_clear fb).

Definition render3d_set_light (ctx : render_ctx_t) (l : light_t) : render_ctx_t :=
  mk_ctx (camera ctx)
         (mk_light (vec3_normalize (direction l)) (intensity l) (ambient l))
         (view_matrix ctx) (proj_matrix ctx) (zbuffer ctx) (width ctx) (height ctx).

Definition project_point (ctx : render_ctx_t) (p : vec3_t) (mvp : mat4_t) : vec3_t :=
  let clip := mat4_transform_point mvp p in
  let x := ((vx clip + f1) * f0_5 * of_int (width ctx))%f32 in
  let y := ((f1 - vy clip) * f0_5 * of_int (height ctx))%f32 in
  vec3_create x y (vz clip).

Definition calculate_face_normal (v0 v1 v2 : vec3_t) : vec3_t :=
  let edge1 := vec3_sub v1 v0 in
  let edge2 := vec3_sub v2 v0 in
  vec3_normalize (vec3_cross edge1 edge2).

(** [SHADING_MODE] as [render3d.h] sets it: 1, ordered dithering. *)
Definition SHADING_MODE : Z := 1.

Definition shade_pixel (x y : Z) (brightness : float) : bool :=
  if SHADING_MODE =? 1 then dither_pixel x y brightness
  else (brightness >? f0_5)%f32.

(** The z-buffer test and the two stores it guards, at one pixel. *)
Definition plot (w : world) (x y : Z) (z brightness : float) : world :=
  let '(ctx, fb) := w in
  let idx := y * width ctx + x in
  if (z <? zbuf_at (zbuffer ctx) idx)%f32
  then (with_zbuffer ctx (<[Z.to_nat idx := z]> (zbuffer ctx)),
        ssd1306_set_pixel x y (shade_pixel x y brightness) fb)
  else w.

(** What [draw_scanline] computes before its loop: the first and last column,
    the depth at the first column and the depth increment; [None] when the
    span is rejected. *)
Definition span_setup (ctx : render_ctx_t) (y : Z) (x1 x2 z1 z2 : float)
  : option (Z * Z * float * float) :=
  if (y <? 0) || (y >=? height ctx) then None
  else
    let '(x1, x2, z1, z2) :=
      if (x1 >? x2)%f32 then (x2, x1, z2, z1) else (x1, x2, z1, z2) in
    let ix1 := to_int x1 in
    let ix2 := to_int x2 in
    if (ix2 <? 0) || (ix1 >=? width ctx) then None
    else
      let dx := (x2 - x1)%f32 in
      let dz := if (dx >? f0_001)%f32 then ((z2 - z1) / dx)%f32 else f0 in
      let z := z1 in
      let '(z, ix1) := if ix1 <? 0 then ((z + dz * (f0 - x1))%f32, 0) else (z, ix1) in
      let ix2 := if ix2 >=? width ctx then width ctx - 1 else ix2 in
      Some (ix1, ix2, z, dz).

Definition draw_scanline (w : world) (y : Z) (x1 x2 z1 z2 brightness : float)
    (base_color : color_t) : world :=
  match span_setup (fst w) y x1 x2 z1 z2 with
  | None => w
  | Some (ix1, ix2, z, dz) =>
      fst (for_range (Z.to_nat (ix2 - ix1 + 1)) ix1
             (fun x '(w, z) => (plot w x y z brightness, (z + dz)%f32))
             (w, z))
  end.

(** The three conditional swaps that order the vertices by [y]. *)
Definition sort_by_y (p0 p1 p2 : vec3_t) : vec3_t * vec3_t * vec3_t :=
  let '(p0, p1) := if (vy p0 >? vy p1)%f32 then (p1, p0) else (p0, p1) in
  let '(p0, p2) := if (vy p0 >? vy p2)%f32 then (p2, p0) else (p0, p2) in
  let '(p1, p2) := if (vy p1 >? vy p2)%f32 then (p2, p1) else (p1, p2) in
  (p0, p1, p2).

(** The first and last scanline after rejection and clamping. *)
Definition triangle_rows (ctx : render_ctx_t) (p0 p2 : vec3_t) : option (Z * Z) :=
  let iy0 := to_int (ceilf (vy p0)) in
  let iy2 := to_int (floorf (vy p2)) in
  if (iy2 <? 0) || (iy0 >=? height ctx) then None
  else if iy0 >? iy2 then None
  else
    let iy0 := if iy0 <? 0 then 0 else iy0 in
    let iy2 := if iy2 >=? height ctx then height ctx - 1 else iy2 in
    Some (iy0, iy2).

(** The two edge samples of scanline [y]: [(x_long, x_short, z_long, z_short)]. *)
Definition triangle_edges (p0 p1 p2 : vec3_t) (y : Z) : float * float * float * float :=
  let dy_total := (vy p2 - vy p0)%f32 in
  let dy_upper := (vy p1 - vy p0)%f32 in
  let dy_lower := (vy p2 - vy p1)%f32 in
  let inv_dy_total := if (dy_total >? f0_001)%f32 then (f1 / dy_total)%f32 else f0 in
  let inv_dy_upper := if (dy_upper >? f0_001)%f32 then (f1 / dy_upper)%f32 else f0 in
  let inv_dy_lower := if (dy_lower >? f0_001)%f32 then (f1 / dy_lower)%f32 else f0 in
  let fy := (of_int y + f0_5)%f32 in
  let t_long := ((fy - vy p0) * inv_dy_total)%f32 in
  let x_long := (vx p0 + (vx p2 - vx p0) * t_long)%f32 in
  let z_long := (vz p0 + (vz p2 - vz p0) * t_long)%f32 in
  if (fy <? vy p1)%f32 then
    let t_short := ((fy - vy p0) * inv_dy_upper)%f32 in
    (x_long, (vx p0 + (vx p1 - vx p0) * t_short)%f32,
     z_long, (vz p0 + (vz p1 - vz p0) * t_short)%f32)
  else
    let t_short := ((fy - vy p1) * inv_dy_lower)%f32 in
    (x_long, (vx p1 + (vx p2 - vx p1) * t_short)%f32,
     z_long, (vz p1 + (vz p2 - vz p1) * t_short)%f32).

Definition draw_triangle_flat (w : world) (p0 p1 p2 : vec3_t) (brightness : float)
    (base_color : color_t) : world :=
  let '(p0, p1, p2) := sort_by_y p0 p1 p2 in
  match triangle_rows (fst w) p0 p2 with
  | None => w
  | Some (iy0, iy2) =>
      for_range (Z.to_nat (iy2 - iy0 + 1)) iy0
        (fun y w =>
           let '(x_long, x_short, z_long, z_short) := triangle_edges p0 p1 p2 y in
           draw_scanline w y x_long x_short z_long z_short brightness base_color)
        w
  end.

Definition vec3_zero : vec3_t := mk_vec3 f0 f0 f0.
Definition face_zero : face_t := mk_face [0; 0; 0] [0; 0; 0] (mk_color 0 0 0).

Definition vertex_at (mesh : mesh_t) (i : Z) : vec3_t :=
  default vec3_zero (vertices mesh !! Z.to_nat i).

Definition face_at (mesh : mesh_t) (i : Z) : face_t :=
  default face_zero (faces mesh !! Z.to_nat i).

(** [face->v[k]]. *)
Definition fv (face : face_t) (k : nat) : Z := default 0 (face_v face !! k).

(** The body of the face loop of [render3d_draw_mesh]. *)
Definition draw_mesh_face (w : world) (mesh : mesh_t) (model mvp : mat4_t)
    (face : face_t) : world :=
  let ctx := fst w in
  let v0 := mat4_transform_point model (vertex_at mesh (fv face 0)) in
  let v1 := mat4_transform_point model (vertex_at mesh (fv face 1)) in
  let v2 := mat4_transform_point model (vertex_at mesh (fv face 2)) in
  let normal := calculate_face_normal v0 v1 v2 in
  let view_dir := vec3_normalize (vec3_sub (cam_position (camera ctx)) v0) in
  if (vec3_dot normal view_dir <? f0)%f32 then w
  else
    let diffuse := (- vec3_dot normal (direction (light ctx)))%f32 in
    let diffuse := if (diffuse <? f0)%f32 then f0 else diffuse in
    let brightness := (ambient (light ctx) + diffuse * intensity (light ctx))%f32 in
    let brightness := if (brightness >? f1)%f32 then f1 else brightness in
    let p0 := project_point ctx (vertex_at mesh (fv face 0)) mvp in
    let p1 := project_point ctx (vertex_at mesh (fv face 1)) mvp in
    let p2 := project_point ctx (vertex_at mesh (fv face 2)) mvp in
    if (vz p0 <? f0)%f32 || (vz p1 <? f0)%f32 || (vz p2 <? f0)%f32 then w
    else draw_triangle_flat w p0 p1 p2 brightness (face_color face).

(** The body of the face loop of [render3d_draw_mesh_wireframe].  Each of
    the three calls of [render3d_draw_line] gets [fuel] iterations; [None]
    when one of them does not return within them. *)
Definition draw_wireframe_face (fuel : nat) (w : world) (mesh : mesh_t) (mvp : mat4_t)
    (face : face_t) : option world :=
  let '(ctx, fb) := w in
  let p0 := project_point ctx (vertex_at mesh (fv face 0)) mvp in
  let p1 := project_point ctx (vertex_at mesh (fv face 1)) mvp in
  let p2 := project_point ctx (vertex_at mesh (fv face 2)) mvp in
  if (vz p0 <? f0)%f32 || (vz p1 <? f0)%f32 || (vz p2 <? f0)%f32 then Some w
  else
    fb ← render3d_draw_line fuel (to_int (vx p0)) (to_int (vy p0))
                                 (to_int (vx p1)) (to_int (vy p1)) true fb;
    fb ← render3d_draw_line fuel (to_int (vx p1)) (to_int (vy p1))
                                 (to_int (vx p2)) (to_int (vy p2)) true fb;
    fb ← render3d_draw_line fuel (to_int (vx p2)) (to_int (vy p2))
                                 (to_int (vx p0)) (to_int (vy p0)) true fb;
    Some (ctx, fb).

(** ** Meshes *)

(** [mesh_create]: [alloc] tells whether every [malloc] succeeds.  The
    arrays come back uninitialised; the model fills them with zeroes. *)
Definition mesh_create (alloc : bool) (max_verts max_faces : Z) : option mesh_t :=
  if alloc then
    Some (mk_mesh (replicate (Z.to_nat (max_verts mod 65536)) vec3_zero)
                  (replicate (Z.to_nat (max_verts mod 65536)) vec3_zero)
                  (replicate (Z.to_nat (max_faces mod 65536)) face_zero)
                  0 0 0 vec3_zero vec3_zero (vec3_create f1 f1 f1))
  else None.

Definition normal_at (ns : list vec3_t) (i : Z) : vec3_t :=
  default vec3_zero (ns !! Z.to_nat i).

Definition mesh_calculate_normals (mesh : mesh_t) : mesh_t :=
  let ns :=
    for_range (Z.to_nat (vertex_count mesh)) 0
      (fun i ns => <[Z.to_nat i := vec3_create f0 f0 f0]> ns) (normals mesh) in
  let ns :=
    for_range (Z.to_nat (face_count mesh)) 0
      (fun i ns =>
         let f := face_at mesh i in
         let normal :=
           calculate_face_normal (vertex_at mesh (fv f 0)) (vertex_at mesh (fv f 1))
                                 (vertex_at mesh (fv f 2)) in
         let ns := <[Z.to_nat (fv f 0) := vec3_add (normal_at ns (fv f 0)) normal]> ns in
         let ns := <[Z.to_nat (fv f 1) := vec3_add (normal_at ns (fv f 1)) normal]> ns in
         <[Z.to_nat (fv f 2) := vec3_add (normal_at ns (fv f 2)) normal]> ns)
      ns in
  let ns :=
    for_range (Z.to_nat (vertex_count mesh)) 0
      (fun i ns => <[Z.to_nat i := vec3_normalize (normal_at ns i)]> ns) ns in
  mk_mesh (vertices mesh) ns (faces mesh) (vertex_count mesh)
          (vertex_count mesh) (face_count mesh)
          (position mesh) (rotation mesh) (scale mesh).

(** The four stores [faces[fi].v[0..2] = a, b, c; faces[fi].color = col]. *)
Definition face_store (fs : list face_t) (fi a b c : Z) (col : color_t) : list face_t :=
  let old := default face_zero (fs !! Z.to_nat fi) in
  <[Z.to_nat fi := mk_face [a mod 65536; b mod 65536; c mod 65536] (face_n old) col]> fs.

(** ** The parts that call libm *)

(** [#define M_PI 3.14159265358979323846f], the file's own fallback. *)
Definition M_PI : float := S754_finite false 13176795 (-22).

Definition DEG_TO_RAD (d : float) : float := (d * M_PI / f180)%f32.

Section Libm.

Variables cosf sinf tanf : float -> float.

Definition mat4_rotate_x (angle_deg : float) : mat4_t :=
  let rad := DEG_TO_RAD angle_deg in
  let c := cosf rad in
  let s := sinf rad in
  let m := mat4_identity in
  let m := mat_set (mat_set m 1 1 c) 1 2 (- s)%f32 in
  mat_set (mat_set m 2 1 s) 2 2 c.

Definition mat4_rotate_y (angle_deg : float) : mat4_t :=
  let rad := DEG_TO_RAD angle_deg in
  let c := cosf rad in
  let s := sinf rad in
  let m := mat4_identity in
  let m := mat_set (mat_set m 0 0 c) 0 2 s in
  mat_set (mat_set m 2 0 (- s)%f32) 2 2 c.

Definition mat4_rotate_z (angle_deg : float) : mat4_t :=
  let rad := DEG_TO_RAD angle_deg in
  let c := cosf rad in
  let s := sinf rad in
  let m := mat4_identity in
  let m := mat_set (mat_set m 0 0 c) 0 1 (- s)%f32 in
  mat_set (mat_set m 1 0 s) 1 1 c.

Definition mat4_perspective (fov_deg aspect near far : float) : mat4_t :=
  let m := mat4_zero in
  let tan_half_fov := tanf (DEG_TO_RAD fov_deg / f2)%f32 in
  let m := mat_set m 0 0 (f1 / (aspect * tan_half_fov))%f32 in
  let m := mat_set m 1 1 (f1 / tan_half_fov)%f32 in
  let m := mat_set m 2 2 (- (far + near) / (far - near))%f32 in
  let m := mat_set m 2 3 (- (f2 * far * near) / (far - near))%f32 in
  mat_set m 3 2 (- f1)%f32.

Definition render3d_set_camera (ctx : render_ctx_t) (cam : camera_t) : render_ctx_t :=
  let view := mat4_look_at (cam_position cam) (cam_target cam) (cam_up cam) in
  let aspect := (of_int (width ctx) / of_int (height ctx))%f32 in
  let proj := mat4_perspective (fov cam) aspect (near_plane cam) (far_plane cam) in
  mk_ctx cam (light ctx) view proj (zbuffer ctx) (width ctx) (height ctx).

(** [Model = Trans * RotY * RotX * RotZ * Scale]. *)
Definition model_matrix (mesh : mesh_t) : mat4_t :=
  let scale_m := mat4_scale (vx (scale mesh)) (vy (scale mesh)) (vz (scale mesh)) in
  let rot_z := mat4_rotate_z (vz (rotation mesh)) in
  let rot_x := mat4_rotate_x (vx (rotation mesh)) in
  let rot_y := mat4_rotate_y (vy (rotation mesh)) in
  let trans_m := mat4_translate (vx (position mesh)) (vy (position mesh)) (vz (position mesh)) in
  mat4_multiply trans_m (mat4_multiply rot_y (mat4_multiply rot_x (mat4_multiply rot_z scale_m))).

(** A null [mesh] is [None]. *)
Definition render3d_draw_mesh (w : world) (mesh : option mesh_t) : world :=
  match mesh with
  | None => w
  | Some mesh =>
      if face_count mesh =? 0 then w
      else
        let model := model_matrix mesh in
        let mv := mat4_multiply (view_matrix (fst w)) model in
        let mvp := mat4_multiply (proj_matrix (fst w)) mv in
        for_range (Z.to_nat (face_count mesh)) 0
          (fun i w => draw_mesh_face w mesh model mvp (face_at mesh i)) w
  end.

(** [fuel] is the bound on the iterations of each line; [None] when a line
    does not return within it. *)
Definition render3d_draw_mesh_wireframe (fuel : nat) (w : world) (mesh : option mesh_t)
  : option world :=
  match mesh with
  | None => Some w
  | Some mesh =>
      if face_count mesh =? 0 then Some w
      else
        let model := model_matrix mesh in
        let mv := mat4_multiply (view_matrix (fst w)) model in
        let mvp := mat4_multiply (proj_matrix (fst w)) mv in
        for_range (Z.to_nat (face_count mesh)) 0
          (fun i r => w ← r; draw_wireframe_face fuel w mesh mvp (face_at mesh i))
          (Some w)
  end.

Definition mesh_create_sphere (alloc : bool) (radius : float) (segments : Z)
  : option mesh_t :=
  let segments := if segments <? 4 then 4 else segments in
  let segments := if segments >? 16 then 16 else segments in
  let rings := segments in
  let slices := segments * 2 in
  let vert_count := (rings - 1) * slices + 2 in
  let face_count := (rings - 2) * slices * 2 + slices * 2 in
  match mesh_create alloc vert_count face_count with
  | None => None
  | Some mesh =>
      (* Top vertex *)
      let vs := <[0%nat := vec3_create f0 radius f0]> (vertices mesh) in
      let vi := 1 in
      (* Middle rings *)
      let '(vs, vi) :=
        for_range (Z.to_nat (rings - 1)) 1
          (fun r '(vs, vi) =>
             let phi := (M_PI * of_int r / of_int rings)%f32 in
             let y := (radius * cosf phi)%f32 in
             let ring_r := (radius * sinf phi)%f32 in
             for_range (Z.to_nat slices) 0
               (fun s '(vs, vi) =>
                  let theta := (f2 * M_PI * of_int s / of_int slices)%f32 in
                  (<[Z.to_nat vi :=
                       vec3_create (ring_r * cosf theta)%f32 y (ring_r * sinf theta)%f32]> vs,
                   vi + 1))
               (vs, vi))
          (vs, vi) in
      (* Bottom vertex *)
      let vs := <[Z.to_nat vi := vec3_create f0 (- radius)%f32 f0]> vs in
      let vertex_count := (vi + 1) mod 65536 in
      (* Faces *)
      let fi := 0 in
      let sphere_color := mk_color 255 220 180 in
      (* Top cap *)
      let '(fs, fi) :=
        for_range (Z.to_nat slices) 0
          (fun s '(fs, fi) =>
             (face_store fs fi 0 (1 + s) (1 + Z.rem (s + 1) slices) sphere_color, fi + 1))
          (faces mesh, fi) in
      (* Middle *)
      let '(fs, fi) :=
        for_range (Z.to_nat (rings - 2)) 0
          (fun r '(fs, fi) =>
             let ring_start := 1 + r * slices in
             let next_ring := 1 + (r + 1) * slices in
             for_range (Z.to_nat slices) 0
               (fun s '(fs, fi) =>
                  let s_next := Z.rem (s + 1) slices in
                  let fs := face_store fs fi (ring_start + s) (next_ring + s)
                                       (next_ring + s_next) sphere_color in
                  let fi := fi + 1 in
                  let fs := face_store fs fi (ring_start + s) (next_ring + s_next)
                                       (ring_start + s_next) sphere_color in
                  let fi := fi + 1 in
                  (fs, fi))
               (fs, fi))
          (fs, fi) in
      (* Bottom cap *)
      let last_ring := 1 + (rings - 2) * slices in
      let bottom := vertex_count - 1 in
      let '(fs, fi) :=
        for_range (Z.to_nat slices) 0
          (fun s '(fs, fi) =>
             (face_store fs fi bottom (last_ring + Z.rem (s + 1) slices) (last_ring + s)
                         sphere_color, fi + 1))
          (fs, fi) in
      Some (mesh_calculate_normals
              (mk_mesh vs (normals mesh) fs vertex_count (normal_count mesh)
                       (fi mod 65536) (position mesh) (rotation mesh) (scale mesh)))
  end.

End Libm.

(** [render3d_init]: [zb] is the block [malloc] returns for the z-buffer,
    [None] when it fails.  [memset] leaves both cached matrices zero until
    [render3d_set_camera] runs. *)
Definition render3d_init (zb : option (list float)) (width height : Z)
  : render_ctx_t * bool :=
  let zero_cam := mk_camera vec3_zero vec3_zero vec3_zero f0 f0 f0 in
  let zero_light := mk_light vec3_zero f0 f0 in
  match zb with
  | None => (mk_ctx zero_cam zero_light mat4_zero mat4_zero [] width height, false)
  | Some zb =>
      let cam :=
        mk_camera (vec3_create f0 f0 (of_int 5)) (vec3_create f0 f0 f0)
                  (vec3_create f0 f1 f0) (of_int 60) (lit_frac 1 10) (of_int 100) in
      let l :=
        mk_light (vec3_normalize (vec3_create (- f0_5)%f32 (- f1)%f32 (- lit_frac 7 10)%f32))
                 f1 (lit_frac 1 5) in
      (mk_ctx cam l mat4_zero mat4_zero zb width height, true)
  end.

(** ** The OBJ loader ([obj_loader.c]) *)

(** [MAX_VERTICES] and [MAX_FACES] of [render3d.h]. *)
Definition MAX_VERTICES : Z := 128.
Definition MAX_FACES : Z := 256.

Local Open Scope char_scope.

(** A pointer into the NUL-terminated input is the text that remains from
    it; what it points at is the first character, NUL at the end. *)
Definition newline : ascii := "010".

(** [isspace] in the C locale. *)
Definition isspace (c : ascii) : bool :=
  let n := N_of_ascii c in ((n =? 32) || ((9 <=? n) && (n <=? 13)))%N.

Definition isdigit (c : ascii) : bool :=
  let n := N_of_ascii c in ((48 <=? n) && (n <=? 57))%N.

Definition digit_value (c : ascii) : Z := Z.of_N (N_of_ascii c) - 48.

(** At the terminating NUL or at a newline: where the line loops stop. *)
Definition at_eol (p : string) : bool :=
  match p with
  | EmptyString => true
  | String c _ => Ascii.eqb c newline
  end.

(** The record test: the character [c] followed by one space. *)
Definition starts_record (c : ascii) (p : string) : bool :=
  match p with
  | String a (String b _) => Ascii.eqb a c && Ascii.eqb b " "
  | _ => false
  end.

Fixpoint skip_ws (p : string) : string :=
  match p with
  | String c rest => if isspace c && negb (Ascii.eqb c newline) then skip_ws rest else p
  | EmptyString => p
  end.

(** [p += n], within the text. *)
Fixpoint advance (n : nat) (p : string) : string :=
  match n, p with
  | S n', String _ rest => advance n' rest
  | _, _ => p
  end.

(** Skip to the next line: to the end of the text, or past the newline. *)
Fixpoint skip_line (p : string) : string :=
  match p with
  | String c rest => if Ascii.eqb c newline then rest else skip_line rest
  | EmptyString => p
  end.

(** *** libc: [strtol] in base 10 and the decimal syntax of [strtof] *)

Fixpoint skip_space (p : string) : string :=
  match p with
  | String c rest => if isspace c then skip_space rest else p
  | EmptyString => p
  end.

(** The longest run of decimal digits at the front of [p], read into [acc]:
    its value, how many digits it had, and what follows. *)
Fixpoint read_digits (p : string) (acc : Z) (count : nat) : Z * nat * string :=
  match p with
  | String c rest =>
      if isdigit c then read_digits rest (10 * acc + digit_value c) (S count)
      else (acc, count, p)
  | EmptyString => (acc, count, p)
  end.

Definition read_sign (p : string) : bool * string :=
  match p with
  | String "-" rest => (true, rest)
  | String "+" rest => (false, rest)
  | _ => (false, p)
  end.

(** [strtol(p, &end, 10)], with [long] of 32 bits as on the target: the value
    (saturated on overflow) and [end]; without digits the value is 0 and
    [end] is [p] itself. *)
Definition strtol (p : string) : Z * string :=
  let '(neg, q) := read_sign (skip_space p) in
  let '(n, count, rest) := read_digits q 0 0 in
  match count with
  | O => (0, p)
  | _ =>
      let v := if neg then - n else n in
      (Z.max (- 2147483648) (Z.min 2147483647 v), rest)
  end.

(** The decimal forms [strtof] accepts: digits with an optional fraction
    and an optional exponent, rounded to the nearest binary32 value.  Hex
    floats, infinities and NaNs are not modelled (no conversion). *)
Definition strtof_decimal (p : string) : float * string :=
  let '(neg, q) := read_sign (skip_space p) in
  let '(n, icount, q1) := read_digits q 0 0 in
  let '(n, fcount, q2) :=
    match q1 with
    | String "." r => let '(n', c, r') := read_digits r n 0 in (n', c, r')
    | _ => (n, O, q1)
    end in
  match (icount + fcount)%nat with
  | O => (f0, p)
  | _ =>
      let '(e10, rest) :=
        match q2 with
        | String c r =>
            if Ascii.eqb c "e" || Ascii.eqb c "E" then
              let '(eneg, r1) := read_sign r in
              let '(e, ecount, r2) := read_digits r1 0 0 in
              match ecount with
              | O => (0, q2)
              | _ => (if eneg then - e else e, r2)
              end
            else (0, q2)
        | EmptyString => (0, q2)
        end in
      let e10 := e10 - Z.of_nat fcount in
      let mag :=
        if (n =? 0)%Z then S754_zero false
        else if (0 <=? e10)%Z then of_int (n * 10 ^ e10)
        else SFdiv prec emax (S754_finite false (Z.to_pos n) 0)
                             (S754_finite false (Z.to_pos (10 ^ (- e10))) 0) in
      (if neg then fneg mag else mag, rest)
  end.

(** [snprintf] into [char error_msg[128]] keeps at most 127 characters. *)
Definition snprintf_128 (s : string) : string := String.substring 0 127 s.

Definition string_of_int (n : Z) : string := NilZero.string_of_int (Z.to_int n).

Definition obj_get_error (error_msg : string) : string := error_msg.

Local Close Scope char_scope.

(** *** The parsers *)

Section Loader.

(** [strtof] of libc. *)
Variable strtof : string -> float * string.

Definition parse_float (p : string) : float * string := strtof (skip_ws p).

Definition parse_int (p : string) : Z * string := strtol (skip_ws p).

(** [parse_face_index]: the vertex index of [v], [v/vt], [v/vt/vn] or
    [v//vn], and the text after the whole group. *)
Definition parse_face_index (p : string) : Z * string :=
  let '(idx, p) := parse_int p in
  let p :=
    match p with
    | String "/"%char p1 =>
        let p2 :=
          match p1 with
          | String "/"%char _ => p1
          | _ => snd (strtol p1)
          end in
        match p2 with
        | String "/"%char p3 => snd (strtol p3)
        | _ => p2
        end
    | _ => p
    end in
  (idx, p).

(** The inner loop of [count_elements]: the number of index groups on a
    face line.  [None] when the fuel runs out; the loop does not advance on
    a token that [strtol] cannot read. *)
Fixpoint count_face_verts (fuel : nat) (line : string) (face_verts : Z) : option Z :=
  match fuel with
  | O => None
  | S fuel' =>
      if at_eol line then Some face_verts
      else
        let line := skip_ws line in
        if negb (at_eol line) then
          count_face_verts fuel' (snd (parse_face_index line)) (face_verts + 1)
        else count_face_verts fuel' line face_verts
  end.

(** The outer loop of [count_elements]. *)
Fixpoint count_loop (fuel : nat) (p : string) (verts faces : Z) : option (Z * Z) :=
  match fuel with
  | O => None
  | S fuel' =>
      match p with
      | EmptyString => Some (verts, faces)
      | _ =>
          let p := skip_ws p in
          let counted :=
            if starts_record "v" p then Some (verts + 1, faces)
            else if starts_record "f" p then
              match count_face_verts fuel' (advance 2 p) 0 with
              | Some face_verts =>
                  Some (verts, if face_verts >=? 3 then faces + (face_verts - 2) else faces)
              | None => None
              end
            else Some (verts, faces) in
          match counted with
          | Some (verts, faces) => count_loop fuel' (skip_line p) verts faces
          | None => None
          end
      end
  end.

Definition count_elements (fuel : nat) (data : string) : option (Z * Z) :=
  count_loop fuel data 0 0.

(** [int face_indices[16]]. *)
Definition index_at (face_indices : list Z) (i : Z) : Z :=
  default 0 (face_indices !! Z.to_nat i).

(** The index loop of a face line in [obj_load_from_string]: the text after
    the line's groups, the indices kept and their number. *)
Fixpoint face_index_loop (fuel : nat) (p : string) (vi : Z) (face_indices : list Z)
    (nv : Z) : option (string * list Z * Z) :=
  match fuel with
  | O => None
  | S fuel' =>
      if at_eol p || negb (nv <? 16) then Some (p, face_indices, nv)
      else
        let p := skip_ws p in
        if negb (at_eol p) && negb (match p with String c _ => isspace c | _ => false end)
        then
          let '(idx, p) := parse_face_index p in
          (* OBJ indices are 1-based; negative ones count back from [vi] *)
          let idx := if idx <? 0 then vi + idx else idx - 1 in
          if (idx >=? 0) && (idx <? vi)
          then face_index_loop fuel' p vi (<[Z.to_nat nv := idx]> face_indices) (nv + 1)
          else face_index_loop fuel' p vi face_indices nv
        else face_index_loop fuel' p vi face_indices nv
  end.

(** Fan triangulation: [for (i = 1; i < nv - 1 && fi < face_count; i++)]. *)
Fixpoint fan_loop (n : nat) (i : Z) (face_indices : list Z) (face_count : Z)
    (default_color : color_t) (fs : list face_t) (fi : Z) : list face_t * Z :=
  match n with
  | O => (fs, fi)
  | S n' =>
      if fi <? face_count then
        fan_loop n' (i + 1) face_indices face_count default_color
          (face_store fs fi (index_at face_indices 0) (index_at face_indices i)
                      (index_at face_indices (i + 1)) default_color)
          (fi + 1)
      else (fs, fi)
  end.

(** The record loop of [obj_load_from_string]. *)
Fixpoint parse_loop (fuel : nat) (p : string) (face_count : Z) (default_color : color_t)
    (vs : list vec3_t) (fs : list face_t) (vi fi : Z)
  : option (list vec3_t * list face_t * Z * Z) :=
  match fuel with
  | O => None
  | S fuel' =>
      match p with
      | EmptyString => Some (vs, fs, vi, fi)
      | _ =>
          let p := skip_ws p in
          if starts_record "v" p then
            let p := advance 2 p in
            let '(x, p) := parse_float p in
            let '(y, p) := parse_float p in
            let '(z, p) := parse_float p in
            parse_loop fuel' (skip_line p) face_count default_color
              (<[Z.to_nat vi := vec3_create x y z]> vs) fs (vi + 1) fi
          else if starts_record "f" p then
            let p := advance 2 p in
            match face_index_loop fuel' p vi (replicate 16 0) 0 with
            | Some (p, face_indices, nv) =>
                let '(fs, fi) :=
                  fan_loop (Z.to_nat (nv - 2)) 1 face_indices face_count default_color fs fi in
                parse_loop fuel' (skip_line p) face_count default_color vs fs vi fi
            | None => None
            end
          else parse_loop fuel' (skip_line p) face_count default_color vs fs vi fi
      end
  end.

(** [obj_load_from_string]: the mesh, null as [None], and the new contents
    of [error_msg].  The outer [None] is a run that has not finished within
    [fuel] loop iterations; [alloc] tells whether [mesh_create] succeeds. *)
Definition obj_load_from_string (fuel : nat) (alloc : bool) (obj_data : option string)
    (default_color : color_t) (error_msg : string) : option (option mesh_t * string) :=
  match obj_data with
  | None => Some (None, snprintf_128 "Null data pointer")
  | Some data =>
      match count_elements fuel data with
      | None => None
      | Some (vert_count, face_count) =>
          if vert_count =? 0 then Some (None, snprintf_128 "No vertices found")
          else if (vert_count >? MAX_VERTICES) || (face_count >? MAX_FACES) then
            Some (None,
                  snprintf_128
                    ("Model too large: " ++ string_of_int vert_count ++ " verts, "
                     ++ string_of_int face_count ++ " faces (max "
                     ++ string_of_int MAX_VERTICES ++ "/" ++ string_of_int MAX_FACES ++ ")"))
          else
            match mesh_create alloc (vert_count + 1) (face_count + 1) with
            | None => Some (None, snprintf_128 "Failed to allocate mesh")
            | Some mesh =>
                match parse_loop fuel data face_count default_color
                        (vertices mesh) (faces mesh) 0 0 with
                | None => None
                | Some (vs, fs, vi, fi) =>
                    let mesh :=
                      mesh_calculate_normals
                        (mk_mesh vs (normals mesh) fs (vi mod 65536) (normal_count mesh)
                                 (fi mod 65536) (position mesh) (rotation mesh)
                                 (scale mesh)) in
                    Some (Some mesh,
                          snprintf_128
                            ("OK: " ++ string_of_int vi ++ " verts, "
                             ++ string_of_int fi ++ " faces"))
                end
            end
      end
  end.

End Loader.

(** ** The rest of the display driver's drawing interface ([ssd1306.c]) *)

Definition ssd1306_fill (fb : list Z) : list Z := replicate frame_buffer_size 255.

(** [for (int j = y; j < y + h; j++)]: the bound is the sum as the target
    computes it, and the counter, which stays below it, runs from [y] up to
    it without leaving the range of [int]; likewise for the columns. *)
Definition ssd1306_fill_rect (x y w h : Z) (on : bool) (fb : list Z) : list Z :=
  for_range (Z.to_nat (int_add y h - y)) y
    (fun j fb =>
       for_range (Z.to_nat (int_add x w - x)) x (fun i fb => ssd1306_set_pixel i j on fb) fb)
    fb.

(** [for (y = -r; y <= r; y++) for (x = -r; x <= r; x++)].  With [r] equal
    to [INT_MAX] the test [y <= r] holds for every [int], the counter wraps
    and the loops never exit: [None].  Otherwise the counter runs from [-r]
    (as the target computes it) up to [r] without leaving the range of
    [int]. *)
Definition ssd1306_fill_circle (cx cy r : Z) (on : bool) (fb : list Z) : option (list Z) :=
  if r =? 2147483647 then None
  else
    Some
      (for_range (Z.to_nat (r - int_neg r + 1)) (int_neg r)
         (fun y fb =>
            for_range (Z.to_nat (r - int_neg r + 1)) (int_neg r)
              (fun x fb =>
                 if int_add (int_mul x x) (int_mul y y) <=? int_mul r r
                 then ssd1306_set_pixel (int_add cx x) (int_add cy y) on fb
                 else fb)
              fb)
         fb).

(** ** Colour utilities *)

Definition color_create (r g b : Z) : color_t := mk_color r g b.

(** [(uint8_t)x] for a [float] x: truncation toward zero.  The conversion of
    a value whose integer part does not fit is undefined in C; the model
    reduces it modulo 2^8. *)
Definition to_uint8 (x : float) : Z := to_int x mod 256.

Definition color_scale (c : color_t) (factor : float) : color_t :=
  let factor := if (factor <? of_int 0)%f32 then of_int 0 else factor in
  let factor := if (factor >? of_int 1)%f32 then of_int 1 else factor in
  mk_color (to_uint8 (of_int (cr c) * factor)%f32)
           (to_uint8 (of_int (cg c) * factor)%f32)
           (to_uint8 (of_int (cb c) * factor)%f32).

Definition color_to_rgb565 (c : color_t) : Z :=
  Z.lor (Z.lor (Z.shiftl (Z.shiftr (cr c) 3) 11) (Z.shiftl (Z.shiftr (cg c) 2) 5))
        (Z.shiftr (cb c) 3) mod 65536.

Definition color_to_gray (c : color_t) : Z :=
  Z.shiftr (cr c * 77 + cg c * 150 + cb c * 29) 8 mod 256.

(** ** The fixed primitives *)

(** [t[i][k]] of a local [int t[][3]]. *)
Definition tri_at (t : list (list Z)) (i : Z) (k : nat) : Z :=
  default 0 (default [] (t !! Z.to_nat i) !! k).

Definition color_at (cs : list color_t) (i : Z) : color_t :=
  default (mk_color 0 0 0) (cs !! Z.to_nat i).

Definition mesh_create_cube (alloc : bool) (size : float) : option mesh_t :=
  match mesh_create alloc 8 12 with
  | None => None
  | Some mesh =>
      let h := (size / of_int 2)%f32 in
      let vs := vertices mesh in
      let vs := <[0%nat := vec3_create (- h)%f32 (- h)%f32 (- h)%f32]> vs in
      let vs := <[1%nat := vec3_create h (- h)%f32 (- h)%f32]> vs in
      let vs := <[2%nat := vec3_create h h (- h)%f32]> vs in
      let vs := <[3%nat := vec3_create (- h)%f32 h (- h)%f32]> vs in
      let vs := <[4%nat := vec3_create (- h)%f32 (- h)%f32 h]> vs in
      let vs := <[5%nat := vec3_create h (- h)%f32 h]> vs in
      let vs := <[6%nat := vec3_create h h h]> vs in
      let vs := <[7%nat := vec3_create (- h)%f32 h h]> vs in
      let faces_tab :=
        [ [0; 1; 2]; [0; 2; 3];      (* Front *)
          [5; 4; 7]; [5; 7; 6];      (* Back *)
          [4; 0; 3]; [4; 3; 7];      (* Left *)
          [1; 5; 6]; [1; 6; 2];      (* Right *)
          [3; 2; 6]; [3; 6; 7];      (* Top *)
          [4; 5; 1]; [4; 1; 0] ] in  (* Bottom *)
      let colors :=
        [ mk_color 255 200 200; mk_color 255 200 200;
          mk_color 200 200 255; mk_color 200 200 255;
          mk_color 200 255 200; mk_color 200 255 200;
          mk_color 255 255 200; mk_color 255 255 200;
          mk_color 255 200 255; mk_color 255 200 255;
          mk_color 200 255 255; mk_color 200 255 255 ] in
      let fs :=
        for_range 12 0
          (fun i fs =>
             face_store fs i (tri_at faces_tab i 0) (tri_at faces_tab i 1)
                        (tri_at faces_tab i 2) (color_at colors i))
          (faces mesh) in
      Some (mesh_calculate_normals
              (mk_mesh vs (normals mesh) fs 8 (normal_count mesh) 12
                       (position mesh) (rotation mesh) (scale mesh)))
  end.

Definition mesh_create_face (alloc : bool) : option mesh_t :=
  match mesh_create alloc 32 40 with
  | None => None
  | Some mesh =>
      let skin := mk_color 255 220 190 in
      let eye_white := mk_color 255 255 255 in
      let mouth := mk_color 200 100 100 in
      let face_w := f1 in
      let face_h := lit_frac 12 10 in
      let face_d := f0_5 in
      let z := of_int 0 in
      let l (n d : Z) := lit_frac n d in
      let vs := vertices mesh in
      let vs := <[0%nat := (vec3_create z (face_h * f0_5) (face_d * f0_5))%f32]> vs in
      let vs := <[1%nat := (vec3_create (- face_w * l 4 10) (face_h * l 3 10) face_d)%f32]> vs in
      let vs := <[2%nat := (vec3_create (face_w * l 4 10) (face_h * l 3 10) face_d)%f32]> vs in
      let vs := <[3%nat := (vec3_create (- face_w * f0_5) z face_d)%f32]> vs in
      let vs := <[4%nat := (vec3_create (face_w * f0_5) z face_d)%f32]> vs in
      let vs := <[5%nat := (vec3_create (- face_w * l 3 10) (- face_h * l 4 10)
                                       (face_d * l 8 10))%f32]> vs in
      let vs := <[6%nat := (vec3_create (face_w * l 3 10) (- face_h * l 4 10)
                                       (face_d * l 8 10))%f32]> vs in
      let vs := <[7%nat := (vec3_create z (- face_h * f0_5) (face_d * l 6 10))%f32]> vs in
      let vs := <[8%nat := (vec3_create z z (face_d * l 11 10))%f32]> vs in
      (* Left eye *)
      let vs := <[9%nat := (vec3_create (- l 35 100) (l 15 100) (face_d + l 5 100))%f32]> vs in
      let vs := <[10%nat := (vec3_create (- f0_5) (l 15 100) (face_d + l 2 100))%f32]> vs in
      let vs := <[11%nat := (vec3_create (- l 2 10) (l 15 100) (face_d + l 2 100))%f32]> vs in
      let vs := <[12%nat := (vec3_create (- l 35 100) (l 25 100) (face_d + l 2 100))%f32]> vs in
      let vs := <[13%nat := (vec3_create (- l 35 100) (l 5 100) (face_d + l 2 100))%f32]> vs in
      (* Right eye *)
      let vs := <[14%nat := (vec3_create (l 35 100) (l 15 100) (face_d + l 5 100))%f32]> vs in
      let vs := <[15%nat := (vec3_create (l 2 10) (l 15 100) (face_d + l 2 100))%f32]> vs in
      let vs := <[16%nat := (vec3_create f0_5 (l 15 100) (face_d + l 2 100))%f32]> vs in
      let vs := <[17%nat := (vec3_create (l 35 100) (l 25 100) (face_d + l 2 100))%f32]> vs in
      let vs := <[18%nat := (vec3_create (l 35 100) (l 5 100) (face_d + l 2 100))%f32]> vs in
      (* Mouth *)
      let vs := <[19%nat := (vec3_create (- l 15 100) (- l 25 100) (face_d + l 2 100))%f32]> vs in
      let vs := <[20%nat := (vec3_create (l 15 100) (- l 25 100) (face_d + l 2 100))%f32]> vs in
      let vs := <[21%nat := (vec3_create z (- l 2 10) (face_d + l 3 100))%f32]> vs in
      let vs := <[22%nat := (vec3_create z (- l 3 10) (face_d + l 2 100))%f32]> vs in
      let fi := 0 in
      let face_tris :=
        [ [0; 1; 2];
          [1; 3; 4]; [1; 4; 2];
          [3; 5; 6]; [3; 6; 4];
          [5; 7; 6];
          [1; 8; 3]; [3; 8; 5];
          [2; 4; 8]; [4; 6; 8] ] in
      let '(fs, fi) :=
        for_range 10 0
          (fun i '(fs, fi) =>
             (face_store fs fi (tri_at face_tris i 0) (tri_at face_tris i 1)
                         (tri_at face_tris i 2) skin, fi + 1))
          (faces mesh, fi) in
      (* Left eye *)
      let fs := face_store fs fi 10 12 9 eye_white in let fi := fi + 1 in
      let fs := face_store fs fi 9 12 11 eye_white in let fi := fi + 1 in
      let fs := face_store fs fi 10 9 13 eye_white in let fi := fi + 1 in
      let fs := face_store fs fi 9 11 13 eye_white in let fi := fi + 1 in
      (* Right eye *)
      let fs := face_store fs fi 15 17 14 eye_white in let fi := fi + 1 in
      let fs := face_store fs fi 14 17 16 eye_white in let fi := fi + 1 in
      let fs := face_store fs fi 15 14 18 eye_white in let fi := fi + 1 in
      let fs := face_store fs fi 14 16 18 eye_white in let fi := fi + 1 in
      (* Mouth *)
      let fs := face_store fs fi 19 21 20 mouth in let fi := fi + 1 in
      let fs := face_store fs fi 19 20 22 mouth in let fi := fi + 1 in
      Some (mesh_calculate_normals
              (mk_mesh vs (normals mesh) fs 23 (normal_count mesh) (fi mod 65536)
                       (position mesh) (rotation mesh) (scale mesh)))
  end.

Section Cake.

Variables cosf sinf : float -> float.

Definition mesh_create_cake (alloc : bool) (size : float) : option mesh_t :=
  match mesh_create alloc 36 56 with
  | None => None
  | Some mesh =>
      let r := (size * f0_5)%f32 in
      let h := (size * lit_frac 35 100)%f32 in
      let frost_h := (size * lit_frac 8 100)%f32 in
      let candle_r := (size * lit_frac 8 100)%f32 in
      let candle_h := (size * lit_frac 35 100)%f32 in
      let cake_color := mk_color 255 180 140 in
      let frosting := mk_color 255 200 210 in
      let candle_color := mk_color 255 255 200 in
      let flame_color := mk_color 255 200 80 in
      let z := of_int 0 in
      let vi := 0 in
      let segments := 8 in
      let ring (radius y : float) '(vs, vi) :=
        for_range (Z.to_nat segments) 0
          (fun i '(vs, vi) =>
             let angle := (f2 * M_PI * of_int i / of_int segments)%f32 in
             (<[Z.to_nat vi := vec3_create (radius * cosf angle)%f32 y
                                           (radius * sinf angle)%f32]> vs,
              vi + 1))
          (vs, vi) in
      (* Bottom ring, top ring, frosting ring *)
      let '(vs, vi) := ring r (- h / of_int 2)%f32 (vertices mesh, vi) in
      let '(vs, vi) := ring r (h / of_int 2)%f32 (vs, vi) in
      let frost_r := (r * lit_frac 92 100)%f32 in
      let '(vs, vi) := ring frost_r (h / of_int 2 + frost_h)%f32 (vs, vi) in
      (* Frosting centre *)
      let vs := <[Z.to_nat vi := vec3_create z (h / of_int 2 + frost_h)%f32 z]> vs in
      let vi := vi + 1 in
      (* Candle *)
      let candle_base := (h / of_int 2 + frost_h)%f32 in
      let vs := <[Z.to_nat vi := (vec3_create (- candle_r) candle_base (- candle_r))%f32]> vs in
      let vi := vi + 1 in
      let vs := <[Z.to_nat vi := (vec3_create candle_r candle_base (- candle_r))%f32]> vs in
      let vi := vi + 1 in
      let vs := <[Z.to_nat vi := vec3_create candle_r candle_base candle_r]> vs in
      let vi := vi + 1 in
      let vs := <[Z.to_nat vi := (vec3_create (- candle_r) candle_base candle_r)%f32]> vs in
      let vi := vi + 1 in
      let vs := <[Z.to_nat vi := (vec3_create (- candle_r) (candle_base + candle_h)
                                             (- candle_r))%f32]> vs in
      let vi := vi + 1 in
      let vs := <[Z.to_nat vi := (vec3_create candle_r (candle_base + candle_h)
                                             (- candle_r))%f32]> vs in
      let vi := vi + 1 in
      let vs := <[Z.to_nat vi := (vec3_create candle_r (candle_base + candle_h)
                                             candle_r)%f32]> vs in
      let vi := vi + 1 in
      let vs := <[Z.to_nat vi := (vec3_create (- candle_r) (candle_base + candle_h)
                                             candle_r)%f32]> vs in
      let vi := vi + 1 in
      (* Flame *)
      let flame_base := (candle_base + candle_h)%f32 in
      let flame_h := (size * lit_frac 2 10)%f32 in
      let vs := <[Z.to_nat vi := vec3_create z flame_base z]> vs in
      let vi := vi + 1 in
      let vs := <[Z.to_nat vi := vec3_create z (flame_base + flame_h)%f32 z]> vs in
      let vi := vi + 1 in
      let vertex_count := vi mod 65536 in
      let fi := 0 in
      (* Cake sides *)
      let '(fs, fi) :=
        for_range (Z.to_nat segments) 0
          (fun i '(fs, fi) =>
             let next := Z.rem (i + 1) segments in
             let fs := face_store fs fi i next (segments + i) cake_color in
             let fi := fi + 1 in
             let fs := face_store fs fi next (segments + next) (segments + i) cake_color in
             let fi := fi + 1 in
             (fs, fi))
          (faces mesh, fi) in
      (* Frosting sides *)
      let '(fs, fi) :=
        for_range (Z.to_nat segments) 0
          (fun i '(fs, fi) =>
             let next := Z.rem (i + 1) segments in
             let fs := face_store fs fi (segments + i) (segments + next) (2 * segments + i)
                                  frosting in
             let fi := fi + 1 in
             let fs := face_store fs fi (segments + next) (2 * segments + next)
                                  (2 * segments + i) frosting in
             let fi := fi + 1 in
             (fs, fi))
          (fs, fi) in
      (* Frosting top *)
      let frost_center := 3 * segments in
      let '(fs, fi) :=
        for_range (Z.to_nat segments) 0
          (fun i '(fs, fi) =>
             let next := Z.rem (i + 1) segments in
             (face_store fs fi frost_center (2 * segments + i) (2 * segments + next) frosting,
              fi + 1))
          (fs, fi) in
      (* Candle sides *)
      let cv := frost_center + 1 in
      let fs := face_store fs fi (cv + 0) (cv + 1) (cv + 4) candle_color in let fi := fi + 1 in
      let fs := face_store fs fi (cv + 1) (cv + 5) (cv + 4) candle_color in let fi := fi + 1 in
      let fs := face_store fs fi (cv + 1) (cv + 2) (cv + 5) candle_color in let fi := fi + 1 in
      let fs := face_store fs fi (cv + 2) (cv + 6) (cv + 5) candle_color in let fi := fi + 1 in
      let fs := face_store fs fi (cv + 2) (cv + 3) (cv + 6) candle_color in let fi := fi + 1 in
      let fs := face_store fs fi (cv + 3) (cv + 7) (cv + 6) candle_color in let fi := fi + 1 in
      let fs := face_store fs fi (cv + 3) (cv + 0) (cv + 7) candle_color in let fi := fi + 1 in
      let fs := face_store fs fi (cv + 0) (cv + 4) (cv + 7) candle_color in let fi := fi + 1 in
      (* Candle top *)
      let fs := face_store fs fi (cv + 4) (cv + 5) (cv + 6) candle_color in let fi := fi + 1 in
      let fs := face_store fs fi (cv + 4) (cv + 6) (cv + 7) candle_color in let fi := fi + 1 in
      (* Flame *)
      let fv := cv + 8 in
      let fs := face_store fs fi (cv + 4) (cv + 5) (fv + 1) flame_color in let fi := fi + 1 in
      let fs := face_store fs fi (cv + 5) (cv + 6) (fv + 1) flame_color in let fi := fi + 1 in
      let fs := face_store fs fi (cv + 6) (cv + 7) (fv + 1) flame_color in let fi := fi + 1 in
      let fs := face_store fs fi (cv + 7) (cv + 4) (fv + 1) flame_color in let fi := fi + 1 in
      Some (mesh_calculate_normals
              (mk_mesh vs (normals mesh) fs vertex_count (normal_count mesh)
                       (fi mod 65536) (position mesh) (rotation mesh) (scale mesh)))
  end.

End Cake.

(** * The vocabulary of the statements *)

(** ** The invariant of the Bresenham loop *)

(** What the loop of [render3d_draw_line] keeps true: [rx] and [ry] are the
    steps still to take on each axis, [err] is determined by them and stays
    within three times the larger extent. *)
Definition line_inv (x1 y1 dx dy sx sy x y err rx ry : Z) : Prop :=
  0 <= rx <= dx /\ 0 <= ry <= dy /\
  (sx = 1 \/ sx = -1) /\ (sy = 1 \/ sy = -1) /\
  x1 - x = sx * rx /\ y1 - y = sy * ry /\
  err = dx - dy - (dx - rx) * dy + (dy - ry) * dx /\
  - 3 * dy <= 2 * err <= 3 * dx.

(** The number of iterations that suffices for a line in range. *)
Definition line_steps (x0 y0 x1 y1 : Z) : nat :=
  Z.to_nat (Z.abs (x1 - x0) + Z.abs (y1 - y0) + 1).

(** The end points and the extents for which no operation of
    [render3d_draw_line] leaves the range of [int]. *)
Definition line_in_range (x0 y0 x1 y1 : Z) : Prop :=
  (- 2 ^ 31 <= x0 < 2 ^ 31 /\ - 2 ^ 31 <= y0 < 2 ^ 31) /\
  (- 2 ^ 31 <= x1 < 2 ^ 31 /\ - 2 ^ 31 <= y1 < 2 ^ 31) /\
  3 * Z.abs (x1 - x0) < 2 ^ 31 /\ 3 * Z.abs (y1 - y0) < 2 ^ 31.

(** The loop's own bounds: the extents, and the columns and rows between
    the current point and the end point. *)
Definition loop_in_range (x1 y1 dx dy sx sy : Z) : Prop :=
  3 * dx < 2 ^ 31 /\ 3 * dy < 2 ^ 31 /\
  (forall r, 0 <= r <= dx -> - 2 ^ 31 <= x1 - sx * r < 2 ^ 31) /\
  (forall r, 0 <= r <= dy -> - 2 ^ 31 <= y1 - sy * r < 2 ^ 31).

(** ** Signs of binary32 values *)

(** [x < 0] is false: [x] is a zero, positive, or NaN. *)
Definition not_negative (x : float) : Prop := (x <? f0)%f32 = false.

Definition is_zero (x : float) : bool :=
  match x with S754_zero _ => true | _ => false end.

(** Equal, or both a zero of either sign. *)
Definition sim (x y : float) : Prop := x = y \/ (is_zero x = true /\ is_zero y = true).

(** ** What the face loops compute for one face *)

(** The quantities the loop body computes for one face, named so that the
    statements below can speak about them. *)
Definition face_world (mesh : mesh_t) (model : mat4_t) (face : face_t) (k : nat) : vec3_t :=
  mat4_transform_point model (vertex_at mesh (fv face k)).

Definition face_normal_world (mesh : mesh_t) (model : mat4_t) (face : face_t) : vec3_t :=
  calculate_face_normal (face_world mesh model face 0) (face_world mesh model face 1)
                        (face_world mesh model face 2).

(** The direction the code tests against: from the first vertex to the
    camera. *)
Definition view_dir_to_camera (ctx : render_ctx_t) (mesh : mesh_t) (model : mat4_t)
    (face : face_t) : vec3_t :=
  vec3_normalize (vec3_sub (cam_position (camera ctx)) (face_world mesh model face 0)).

(** The direction as the specification words it: from the camera position
    to the first vertex. *)
Definition view_dir_from_camera (ctx : render_ctx_t) (mesh : mesh_t) (model : mat4_t)
    (face : face_t) : vec3_t :=
  vec3_normalize (vec3_sub (face_world mesh model face 0) (cam_position (camera ctx))).

Definition face_projected (ctx : render_ctx_t) (mesh : mesh_t) (mvp : mat4_t)
    (face : face_t) (k : nat) : vec3_t :=
  project_point ctx (vertex_at mesh (fv face k)) mvp.

Definition has_negative_depth (p0 p1 p2 : vec3_t) : bool :=
  (vz p0 <? f0)%f32 || (vz p1 <? f0)%f32 || (vz p2 <? f0)%f32.

Definition face_diffuse (l : light_t) (normal : vec3_t) : float :=
  let d := (- vec3_dot normal (direction l))%f32 in
  if (d <? f0)%f32 then f0 else d.

Definition face_brightness (l : light_t) (normal : vec3_t) : float :=
  let b := (ambient l + face_diffuse l normal * intensity l)%f32 in
  if (b >? f1)%f32 then f1 else b.

(** What happens to a face that survives the back-face test. *)
Definition lit_and_filled (w : world) (mesh : mesh_t) (model mvp : mat4_t)
    (face : face_t) : world :=
  let p0 := face_projected (fst w) mesh mvp face 0 in
  let p1 := face_projected (fst w) mesh mvp face 1 in
  let p2 := face_projected (fst w) mesh mvp face 2 in
  if has_negative_depth p0 p1 p2 then w
  else draw_triangle_flat w p0 p1 p2
         (face_brightness (light (fst w)) (face_normal_world mesh model face))
         (face_color face).

(** The three edges the wireframe path draws for a face it keeps, each with
    [fuel] iterations. *)
Definition wire_edges (fuel : nat) (p0 p1 p2 : vec3_t) (fb : list Z) : option (list Z) :=
  fb ← render3d_draw_line fuel (to_int (vx p0)) (to_int (vy p0))
                               (to_int (vx p1)) (to_int (vy p1)) true fb;
  fb ← render3d_draw_line fuel (to_int (vx p1)) (to_int (vy p1))
                               (to_int (vx p2)) (to_int (vy p2)) true fb;
  render3d_draw_line fuel (to_int (vx p2)) (to_int (vy p2))
                          (to_int (vx p0)) (to_int (vy p0)) true fb.

(** [v'] is [v] negated, component by component, up to the sign of zero. *)
Definition vopp (v v' : vec3_t) : Prop :=
  sim (- vx v)%f32 (vx v') /\ sim (- vy v)%f32 (vy v') /\ sim (- vz v)%f32 (vz v').

(** The face with the same first vertex and the other two exchanged. *)
Definition reversed_winding (face face' : face_t) : Prop :=
  fv face' 0 = fv face 0 /\ fv face' 1 = fv face 2 /\ fv face' 2 = fv face 1.

(** ** What can be observed at a pixel *)

Definition in_display (x y : Z) : bool :=
  (0 <=? x) && (x <? SSD1306_WIDTH) && (0 <=? y) && (y <? SSD1306_HEIGHT).

(** The context owns a z-buffer of [width * height] cells and the driver a
    frame buffer of its fixed size. *)
Definition wf_world (w : world) : Prop :=
  0 <= width (fst w) /\ 0 <= height (fst w) /\
  Z.of_nat (length (zbuffer (fst w))) = width (fst w) * height (fst w) /\
  length (snd w) = frame_buffer_size.

(** Everything of the context but the depth cells is the same. *)
Definition same_frame (w w' : world) : Prop :=
  fst w' = with_zbuffer (fst w) (zbuffer (fst w')).

(** What can be observed at a pixel: the stored depth and the displayed bit. *)
Definition pixel_state (w : world) (x y : Z) : float * bool :=
  (zbuf_at (zbuffer (fst w)) (y * width (fst w) + x), ssd1306_get_pixel x y (snd w)).

(** The depth test at one pixel: a fragment of depth [z] and value [v]
    replaces what is stored exactly when [z] is less than the stored depth. *)
Definition depth_write (z : float) (v : bool) (old : float * bool) : float * bool :=
  if (z <? fst old)%f32 then (z, v) else old.

Definition write_opt (d : option float) (v : bool) (old : float * bool) : float * bool :=
  match d with Some z => depth_write z v old | None => old end.

(** The bit the display shows for a fragment of brightness [b] at [(x, y)]. *)
Definition shown (x y : Z) (b : float) : bool := in_display x y && shade_pixel x y b.

(** The depth at the [k]-th column of a span: [k] additions of [dz]. *)
Definition span_depth (z dz : float) (k : nat) : float :=
  Nat.iter k (fun z => (z + dz)%f32) z.

(** The depth [draw_scanline] tests at column [x'], if the span covers it. *)
Definition scanline_depth (ctx : render_ctx_t) (y : Z) (x1 x2 z1 z2 : float) (x' : Z)
  : option float :=
  match span_setup ctx y x1 x2 z1 z2 with
  | Some (ix1, ix2, z, dz) =>
      if (ix1 <=? x') && (x' <=? ix2) then Some (span_depth z dz (Z.to_nat (x' - ix1)))
      else None
  | None => None
  end.

(** The depth the fill tests at [(x', y')] on scanline [y'] of a sorted
    triangle. *)
Definition row_depth (ctx : render_ctx_t) (p0 p1 p2 : vec3_t) (x' y' : Z) : option float :=
  let '(x_long, x_short, z_long, z_short) := triangle_edges p0 p1 p2 y' in
  scanline_depth ctx y' x_long x_short z_long z_short x'.

(** The depth of the fragment [draw_triangle_flat] produces at [(x', y')],
    if the triangle covers that pixel.  It depends on the triangle and on the
    size of the context, not on what has been drawn before. *)
Definition triangle_depth (ctx : render_ctx_t) (p0 p1 p2 : vec3_t) (x' y' : Z)
  : option float :=
  let '(q0, q1, q2) := sort_by_y p0 p1 p2 in
  match triangle_rows ctx q0 q2 with
  | Some (iy0, iy2) =>
      if (iy0 <=? y') && (y' <=? iy2) then row_depth ctx q0 q1 q2 x' y' else None
  | None => None
  end.

(** A pixel keeps its state or gets a strictly smaller depth. *)
Definition settles (old new : float * bool) : Prop :=
  new = old \/ (fst new <? fst old)%f32 = true.

(** A step that keeps the frame and settles every pixel, iterated. *)
Definition settling (f : world -> world) : Prop :=
  forall w, wf_world w ->
    wf_world (f w) /\ same_frame w (f w) /\
    forall x y, 0 <= x < width (fst w) -> 0 <= y < height (fst w) ->
      settles (pixel_state w x y) (pixel_state (f w) x y).

(** A step on the world that, when it returns, has left the context alone,
    kept the size of the frame buffer and cleared no pixel. *)
Definition only_lights (f : world -> option world) : Prop :=
  forall w w', length (snd w) = frame_buffer_size -> f w = Some w' ->
    fst w' = fst w /\ length (snd w') = frame_buffer_size /\
    forall x y, ssd1306_get_pixel x y (snd w) = true ->
                ssd1306_get_pixel x y (snd w') = true.

(** ** Dithered tiles *)

(** The sixteen offsets of a 4x4 tile. *)
Definition tile_offsets : list (Z * Z) :=
  let r := [0; 1; 2; 3] in
  flat_map (fun dy => map (fun dx => (dx, dy)) r) r.

(** The number of pixels [dither_pixel] lights in the 4x4 tile whose first
    pixel is [(x, y)]. *)
Definition tile_lit (x y : Z) (b : float) : Z :=
  foldr Z.add 0
    (map (fun d => if dither_pixel (x + fst d) (y + snd d) b then 1 else 0) tile_offsets).

Definition sixteenths_table_ok : bool :=
  forallb (fun k =>
    forallb (fun r =>
      forallb (fun c =>
        Bool.eqb (dither_pixel c r (lit_frac k 16)) (bayer_at r c <? k))
        [0; 1; 2; 3])
      [0; 1; 2; 3])
    (seqZ 0 17).

Definition tile_count_ok : bool :=
  forallb (fun k =>
    forallb (fun ym =>
      forallb (fun xm =>
        foldr Z.add 0
          (map (fun d => if bayer_at ((ym + snd d) mod 4) ((xm + fst d) mod 4) <? k
                         then 1 else 0) tile_offsets) =? k)
        [0; 1; 2; 3])
      [0; 1; 2; 3])
    (seqZ 0 17).

(** ** Colours of eight bits a channel *)

(** The channels are [uint8_t]. *)
Definition color_valid (c : color_t) : Prop :=
  0 <= cr c <= 255 /\ 0 <= cg c <= 255 /\ 0 <= cb c <= 255.

Definition channel_scale_ok : bool :=
  forallb (fun r =>
    (to_uint8 (of_int r * f1)%f32 =? r)
    && (to_uint8 (of_int r * S754_zero false)%f32 =? 0)
    && (to_uint8 (of_int r * S754_zero true)%f32 =? 0))
    (seqZ 0 256).

(** ** Well-formed meshes *)

(** The first [n] face records index vertices below [vc]. *)
Definition faces_indexed (vc : Z) (fs : list face_t) (n : Z) : Prop :=
  forall i k, 0 <= i < n -> (k < 3)%nat ->
    0 <= fv (default face_zero (fs !! Z.to_nat i)) k < vc.

(** The counts fit the arrays, the normals are as many as the vertices, and
    every face in use indexes vertices in use. *)
Definition mesh_well_formed (m : mesh_t) : Prop :=
  0 <= vertex_count m <= Z.of_nat (length (vertices m)) /\
  length (normals m) = length (vertices m) /\
  normal_count m = vertex_count m /\
  0 <= face_count m <= Z.of_nat (length (faces m)) /\
  faces_indexed (vertex_count m) (faces m) (face_count m).

Definition faces_indexed_b (vc : Z) (fs : list face_t) : bool :=
  forallb (fun f => forallb (fun k => (0 <=? fv f k) && (fv f k <? vc)) [0; 1; 2]%nat) fs.

(** What remains to check of a mesh built from literal tables. *)
Definition mesh_tables_ok (m : mesh_t) : bool :=
  (0 <=? vertex_count m) && (vertex_count m <=? Z.of_nat (length (vertices m)))
  && (Z.of_nat (length (normals m)) =? Z.of_nat (length (vertices m)))
  && (0 <=? face_count m) && (face_count m <=? Z.of_nat (length (faces m)))
  && faces_indexed_b (vertex_count m) (take (Z.to_nat (face_count m)) (faces m)).

(** ** The sphere builder and the loader *)

(** The segment count after the two clamping tests. *)
Definition clamp_segments (segments : Z) : Z :=
  let segments := if segments <? 4 then 4 else segments in
  if segments >? 16 then 16 else segments.


(** ** Positions in the text and its lines *)

(** [q] is what remains of [p] after some characters. *)
Inductive suffix_of (q : string) : string -> Prop :=
  | suffix_here : suffix_of q q
  | suffix_next (c : ascii) (p : string) : suffix_of q p -> suffix_of q (String c p).

(** The number of vertex records on the lines of [p], of which there are at
    most [n]. *)
Fixpoint vertex_records (n : nat) (p : string) : Z :=
  match n with
  | O => 0
  | S n' =>
      match p with
      | EmptyString => 0
      | _ => (if starts_record "v" (skip_ws p) then 1 else 0)
             + vertex_records n' (skip_line p)
      end
  end.

Definition lines_vertices (p : string) : Z := vertex_records (String.length p) p.

(** A token that [strtol] cannot read and that is not a slash group. *)
Definition unreadable (c : ascii) : bool :=
  negb (isdigit c) && negb (isspace c)
  && negb (Ascii.eqb c "+") && negb (Ascii.eqb c "-") && negb (Ascii.eqb c "/").

(** Lines of text, each closed by a newline. *)
Fixpoint has_newline (s : string) : bool :=
  match s with
  | EmptyString => false
  | String c r => Ascii.eqb c newline || has_newline r
  end.

Fixpoint unlines (ls : list string) : string :=
  match ls with
  | [] => EmptyString
  | l :: ls' => (l ++ String newline (unlines ls'))%string
  end.

(** A run of decimal digits, at least one. *)
Fixpoint all_digits (s : string) : bool :=
  match s with
  | EmptyString => false
  | String c EmptyString => isdigit c
  | String c r => isdigit c && all_digits r
  end.

(** What follows a number: not a digit, so that the number ends there. *)
Definition ends_number (rest : string) : bool :=
  match rest with
  | EmptyString => true
  | String c _ => negb (isdigit c)
  end.

(** What follows an index group: neither a digit nor a slash. *)
Definition ends_group (rest : string) : bool :=
  match rest with
  | EmptyString => true
  | String c _ => negb (isdigit c) && negb (Ascii.eqb c "/")
  end.

(** Whether a line of [p], of which there are at most [n], is a face
    record. *)
Fixpoint has_face_record (n : nat) (p : string) : bool :=
  match n with
  | O => false
  | S n' =>
      match p with
      | EmptyString => false
      | _ => starts_record "f" (skip_ws p) || has_face_record n' (skip_line p)
      end
  end.

Definition no_face_record (p : string) : Prop :=
  has_face_record (String.length p) p = false.

(** ** Sample inputs *)

(** A context as [render3d_init] leaves it on the 128x64 display, and the
    world after [render3d_clear]. *)
Definition ctx_init : render_ctx_t :=
  fst (render3d_init (Some (replicate (Z.to_nat (128 * 64)) f0)) 128 64).

Definition world_init : world :=
  (with_zbuffer ctx_init (replicate (Z.to_nat (128 * 64)) f1000),
   replicate frame_buffer_size 0).

(** The world before the first clear of a frame. *)
Definition world_fresh : world := (ctx_init, replicate frame_buffer_size 0).

Definition unit_mesh (vs : list vec3_t) (fs : list face_t) : mesh_t :=
  mk_mesh vs (replicate (length vs) vec3_zero) fs (Z.of_nat (length vs)) 0
          (Z.of_nat (length fs)) vec3_zero vec3_zero (vec3_create f1 f1 f1).

Definition white : color_t := mk_color 255 255 255.

Definition f1_16 : float := lit_frac 1 16.

Definition f4 : float := of_int 4.

Definition f0_25 : float := lit_frac 1 4.

Definition f2000 : float := of_int 2000.

Definition f3000 : float := of_int 3000.

(** A small triangle in the plane z = 0 whose normal is +z, towards the
    default camera at (0,0,5), and the same triangle with the winding
    reversed; a small triangle in the plane x = 0, seen exactly edge-on. *)
Definition facing_mesh : mesh_t :=
  unit_mesh [mk_vec3 f0 f0 f0; mk_vec3 f1_16 f0 f0; mk_vec3 f0 f1_16 f0]
            [mk_face [0; 1; 2] [0; 0; 0] white; mk_face [0; 2; 1] [0; 0; 0] white].

Definition edge_on_mesh : mesh_t :=
  unit_mesh [mk_vec3 f0 f0 f0; mk_vec3 f0 f0 f1; mk_vec3 f0 f1_16 f0]
            [mk_face [0; 1; 2] [0; 0; 0] white].

(** A face one of whose vertices lies behind the near plane. *)
Definition behind_mesh : mesh_t :=
  unit_mesh [mk_vec3 f0 f0 (- f1)%f32; mk_vec3 f1_16 f0 f0; mk_vec3 f0 f1_16 f0]
            [mk_face [0; 1; 2] [0; 0; 0] white].

(** The combined matrix the face loops use when the mesh transform is the
    identity and no camera has been set since [render3d_init]. *)
Definition mvp_init : mat4_t :=
  mat4_multiply (proj_matrix ctx_init) (mat4_multiply (view_matrix ctx_init) mat4_identity).

(** A light shining from behind the facing triangle, with a negative ambient
    level, set through [render3d_set_light]. *)
Definition dark_world : world :=
  (render3d_set_light (fst world_init)
     (mk_light (mk_vec3 f0 f0 f1) f1 (- f0_5)%f32),
   snd world_init).

Definition nl : string := String newline EmptyString.

(** The text ["v 0 0 0\nv 1 0 0\nv 0 1 0\nf 1 2 3\n"]. *)
Definition obj_triangle_text : string :=
  ("v 0 0 0" ++ nl ++ "v 1 0 0" ++ nl ++ "v 0 1 0" ++ nl ++ "f 1 2 3" ++ nl)%string.

(** The mesh the loader builds from it: capacity for 4 vertices and 2 faces,
    3 vertices and 1 face in use. *)
Definition obj_triangle_mesh (default_color : color_t) : mesh_t :=
  mk_mesh
    [mk_vec3 f0 f0 f0; mk_vec3 f1 f0 f0; mk_vec3 f0 f1 f0; vec3_zero]
    [mk_vec3 f0 f0 f1; mk_vec3 f0 f0 f1; mk_vec3 f0 f0 f1; vec3_zero]
    [mk_face [0; 1; 2] [0; 0; 0] default_color; face_zero]
    3 3 1 vec3_zero vec3_zero (vec3_create f1 f1 f1).

(** [n] vertex records, one per line. *)
Fixpoint vertex_lines (n : nat) : string :=
  match n with
  | O => EmptyString
  | S n' => ("v 0 0 0" ++ nl ++ vertex_lines n')%string
  end.

(** * Properties *)

(** The arithmetic primitives are unfolded last when two symbolic terms are
    compared; evaluation on concrete inputs is not affected. *)
Strategy 100 [fadd fsub fmul fdiv sqrtf fneg fabsf flt fle fgt fge of_int lit_frac
              to_int floorf ceilf f0 f1 f2 f16 f180 f1000 f0_5 f0_001 f0_0001].

(** *** The order of [SFcompare] *)

Lemma pos_cont_Eq (a b : positive) : Pos.compare_cont Eq a b = Pos.compare a b.
Proof. reflexivity. Qed.

Ltac cmp_cases :=
  repeat match goal with
  | |- context [Z.compare ?a ?b] =>
      let H := fresh in destruct (Z.compare_spec a b) as [H|H|H]; try subst
  | |- context [Pos.compare ?a ?b] =>
      let H := fresh in destruct (Pos.compare_spec a b) as [H|H|H]; try subst
  | H : context [Z.compare ?a ?b] |- _ =>
      let H' := fresh in destruct (Z.compare_spec a b) as [H'|H'|H']; try subst
  | H : context [Pos.compare ?a ?b] |- _ =>
      let H' := fresh in destruct (Pos.compare_spec a b) as [H'|H'|H']; try subst
  end.

Ltac cmp_solve :=
  simpl in *; rewrite ?pos_cont_Eq in *; try congruence;
  cmp_cases; simpl in *; try congruence; try lia.

Lemma SFcompare_antisym (x y : float) :
  SFcompare y x = option_map CompOpp (SFcompare x y).
Proof.
  destruct x as [[]|[]| |[] m e], y as [[]|[]| |[] m' e']; simpl; try reflexivity;
    rewrite ?pos_cont_Eq; f_equal;
    rewrite (Z.compare_antisym e e'), ?(Pos.compare_antisym m m');
    destruct (e ?= e'); simpl; try reflexivity;
    destruct (m ?= m')%positive; reflexivity.
Qed.

Lemma SFcompare_Lt_trans (x y z : float) :
  SFcompare x y = Some Lt -> SFcompare y z = Some Lt -> SFcompare x z = Some Lt.
Proof.
  destruct x as [[]|[]| |[] m e], y as [[]|[]| |[] m' e'], z as [[]|[]| |[] m'' e''];
    intros Hxy Hyz; cmp_solve.
Qed.

Lemma SFcompare_Eq_Lt (x y z : float) :
  SFcompare x y = Some Eq -> SFcompare y z = Some Lt -> SFcompare x z = Some Lt.
Proof.
  destruct x as [[]|[]| |[] m e], y as [[]|[]| |[] m' e'], z as [[]|[]| |[] m'' e''];
    intros Hxy Hyz; cmp_solve.
Qed.

Lemma SFcompare_Lt_Eq (x y z : float) :
  SFcompare x y = Some Lt -> SFcompare y z = Some Eq -> SFcompare x z = Some Lt.
Proof.
  destruct x as [[]|[]| |[] m e], y as [[]|[]| |[] m' e'], z as [[]|[]| |[] m'' e''];
    intros Hxy Hyz; cmp_solve.
Qed.

Lemma flt_irrefl (x : float) : flt x x = false.
Proof.
  unfold flt, SFltb. destruct x as [[]|[]| |[] m e]; simpl; try reflexivity;
    rewrite pos_cont_Eq, Z.compare_refl, Pos.compare_refl; reflexivity.
Qed.

Lemma flt_trans (x y z : float) : flt x y = true -> flt y z = true -> flt x z = true.
Proof.
  unfold flt, SFltb. intros Hxy Hyz.
  destruct (SFcompare x y) as [[]|] eqn:Exy; try discriminate.
  destruct (SFcompare y z) as [[]|] eqn:Eyz; try discriminate.
  now rewrite (SFcompare_Lt_trans x y z Exy Eyz).
Qed.

Lemma flt_asym (x y : float) : flt x y = true -> flt y x = false.
Proof.
  unfold flt, SFltb. rewrite (SFcompare_antisym x y).
  destruct (SFcompare x y) as [[]|]; simpl; congruence.
Qed.

Lemma fle_flt_trans (x y z : float) : fle x y = true -> flt y z = true -> flt x z = true.
Proof.
  unfold fle, flt, SFleb, SFltb. intros Hxy Hyz.
  destruct (SFcompare y z) as [[]|] eqn:Eyz; try discriminate.
  destruct (SFcompare x y) as [[]|] eqn:Exy; try discriminate.
  - now rewrite (SFcompare_Eq_Lt x y z Exy Eyz).
  - now rewrite (SFcompare_Lt_trans x y z Exy Eyz).
Qed.

(** Two comparable values that are not equal are ordered one way or the
    other. *)
Lemma flt_total (x y : float) :
  SFeqb x y = false -> (exists c, SFcompare x y = Some c) ->
  flt x y = false -> flt y x = true.
Proof.
  unfold flt, SFltb, SFeqb. rewrite (SFcompare_antisym x y).
  intros He [c Hc]. rewrite Hc in *. destruct c; simpl; congruence.
Qed.

Lemma flt_comparable_l (x y : float) : flt x y = true -> exists c, SFcompare x x = Some c.
Proof.
  unfold flt, SFltb. destruct x as [[]|[]| |[] m e]; simpl; eauto.
  destruct y; discriminate.
Qed.

Lemma SFcompare_defined (x y : float) :
  (exists c, SFcompare x x = Some c) -> (exists c, SFcompare y y = Some c) ->
  exists c, SFcompare x y = Some c.
Proof.
  destruct x as [[]|[]| |[] m e], y as [[]|[]| |[] m' e']; simpl;
    intros [c Hc] [c' Hc']; try discriminate; eauto.
Qed.

(** *** Values that are not below zero *)

Lemma binary_round_aux_sign (sx : bool) (mx ex : Z) (lx : location) :
  let r := binary_round_aux prec emax sx mx ex lx in
  r = S754_zero sx \/ (exists m e, r = S754_finite sx m e) \/
  r = S754_infinity sx \/ r = S754_nan.
Proof.
  unfold binary_round_aux.
  destruct (shr_fexp prec emax mx ex lx) as [mrs' e'].
  destruct (shr_fexp prec emax _ e' loc_Exact) as [mrs'' e''].
  destruct (shr_m mrs'') as [|m|m]; cbv zeta; auto.
  destruct (e'' <=? emax - prec); eauto 6.
Qed.

Lemma rounded_not_negative (mx ex : Z) (lx : location) :
  not_negative (binary_round_aux prec emax false mx ex lx).
Proof.
  destruct (binary_round_aux_sign false mx ex lx) as [H|[(m & e & H)|[H|H]]];
    cbv zeta in H; unfold not_negative; rewrite H; reflexivity.
Qed.

Lemma fmul_not_negative (x y : float) :
  not_negative x -> not_negative y -> not_negative (x * y)%f32.
Proof.
  unfold fmul.
  destruct x as [sx|[]| |[] mx ex], y as [sy|[]| |[] my ey];
    intros Hx Hy; try discriminate Hx; try discriminate Hy; cbn [SFmul xorb];
    try reflexivity; try (destruct sx; reflexivity); try (destruct sy; reflexivity);
    try (destruct sx, sy; reflexivity).
  apply rounded_not_negative.
Qed.

Lemma fadd_not_negative (x y : float) :
  not_negative x -> not_negative y -> not_negative (x + y)%f32.
Proof.
  unfold fadd.
  destruct x as [sx|[]| |[] mx ex], y as [sy|[]| |[] my ey];
    intros Hx Hy; try discriminate Hx; try discriminate Hy; cbn [SFadd];
    try reflexivity; try (destruct sx; reflexivity); try (destruct sy; reflexivity);
    try (destruct sx, sy; reflexivity).
  unfold binary_normalize, cond_Zopp.
  destruct (shl_align mx ex _) as [ma ea], (shl_align my ey _) as [mb eb]. cbn [fst].
  change (Z.pos ma + Z.pos mb) with (Z.pos (ma + mb)).
  unfold binary_round. destruct (shl_align (ma + mb) _ _) as [mz ez].
  apply rounded_not_negative.
Qed.

(** *** Negation up to the sign of zero *)

Lemma sim_refl (x : float) : sim x x.
Proof. now left. Qed.

Lemma sim_trans (x y z : float) : sim x y -> sim y z -> sim x z.
Proof.
  intros [->|[Hx Hy]] [->|[Hy' Hz]]; unfold sim; auto.
Qed.

Lemma sim_fneg (x y : float) : sim x y -> sim (- x)%f32 (- y)%f32.
Proof.
  intros [->|[Hx Hy]]; [now left|]. right.
  destruct x, y; try discriminate. now split.
Qed.

Lemma binary_round_aux_negb (sx : bool) (mx ex : Z) (lx : location) :
  binary_round_aux prec emax (negb sx) mx ex lx
  = SFopp (binary_round_aux prec emax sx mx ex lx).
Proof.
  unfold binary_round_aux.
  destruct (shr_fexp prec emax mx ex lx) as [mrs' e'].
  destruct (shr_fexp prec emax _ e' loc_Exact) as [mrs'' e''].
  destruct (shr_m mrs'') as [|m|m]; cbn [SFopp]; try reflexivity.
  destruct (e'' <=? emax - prec); reflexivity.
Qed.

Lemma fmul_comm (x y : float) : (x * y)%f32 = (y * x)%f32.
Proof.
  unfold fmul.
  destruct x as [sx|sx| |sx mx ex], y as [sy|sy| |sy my ey]; cbn [SFmul];
    rewrite ?(xorb_comm sx sy); try reflexivity.
  now rewrite (Pos.mul_comm mx my), (Z.add_comm ex ey).
Qed.

Lemma fmul_fneg_l (x y : float) : (- x * y)%f32 = (- (x * y))%f32.
Proof.
  unfold fmul, fneg.
  destruct x as [sx|sx| |sx mx ex], y as [sy|sy| |sy my ey]; cbn [SFmul SFopp];
    rewrite <- ?negb_xorb_l; try reflexivity.
  apply binary_round_aux_negb.
Qed.

Lemma fmul_sim_l (x x' y : float) : sim x x' -> sim (x * y)%f32 (x' * y)%f32.
Proof.
  intros [->|[Hx Hx']]; [now left|].
  destruct x as [sx| | |], x' as [sx'| | |]; try discriminate.
  unfold fmul. destruct y as [sy|sy| |sy my ey]; cbn [SFmul];
    try (now left); right; now split.
Qed.

Lemma fmul_sim_r (x y y' : float) : sim y y' -> sim (x * y)%f32 (x * y')%f32.
Proof. intros H. rewrite (fmul_comm x y), (fmul_comm x y'). now apply fmul_sim_l. Qed.

Lemma binary_normalize_opp (m e : Z) :
  sim (SFopp (binary_normalize prec emax m e false)) (binary_normalize prec emax (- m) e false).
Proof.
  destruct m as [|m|m].
  - right. now split.
  - change (- Z.pos m) with (Z.neg m). unfold binary_normalize, binary_round.
    destruct (shl_align _ _ _) as [mz ez].
    left. symmetry. apply (binary_round_aux_negb false).
  - change (- Z.neg m) with (Z.pos m). unfold binary_normalize, binary_round.
    destruct (shl_align _ _ _) as [mz ez].
    left. rewrite (binary_round_aux_negb false).
    now destruct (binary_round_aux _ _ _ _ _ _) as [[]|[]| |[] ? ?].
Qed.

Lemma cond_Zopp_negb (s : bool) (m : Z) : cond_Zopp (negb s) m = - cond_Zopp s m.
Proof. destruct s; cbn; lia. Qed.

Lemma fneg_fadd (x y : float) : sim (- (x + y))%f32 (- x + - y)%f32.
Proof.
  unfold fadd, fneg.
  destruct x as [sx|sx| |sx mx ex], y as [sy|sy| |sy my ey]; cbn [SFadd SFopp];
    try (now left); try (destruct sx, sy; (now left) || (right; now split)).
  rewrite !cond_Zopp_negb, <- Z.opp_add_distr. apply binary_normalize_opp.
Qed.

Lemma fadd_sim (x x' y y' : float) :
  sim x x' -> sim y y' -> sim (x + y)%f32 (x' + y')%f32.
Proof.
  intros [->|[Hx Hx']] [->|[Hy Hy']]; [now left| | |].
  - destruct y as [sy| | |], y' as [sy'| | |]; try discriminate.
    unfold fadd. destruct x' as [sx|sx| |sx mx ex]; cbn [SFadd]; try (now left).
    right. destruct sx, sy, sy'; now split.
  - destruct x as [sx| | |], x' as [sx'| | |]; try discriminate.
    unfold fadd. destruct y' as [sy|sy| |sy my ey]; cbn [SFadd]; try (now left).
    right. destruct sx, sx', sy; now split.
  - destruct x as [sx| | |], x' as [sx'| | |]; try discriminate.
    destruct y as [sy| | |], y' as [sy'| | |]; try discriminate.
    right. unfold fadd. cbn [SFadd]. destruct sx, sx', sy, sy'; now split.
Qed.

Lemma fsub_swap (x y : float) : sim (- (x - y))%f32 (y - x)%f32.
Proof.
  unfold fsub, fneg.
  destruct x as [sx|sx| |sx mx ex], y as [sy|sy| |sy my ey]; cbn [SFsub SFopp];
    try (now left); try (destruct sx, sy; (now left) || (right; now split));
    try (left; now rewrite negb_involutive).
  rewrite (Z.min_comm ey ex).
  replace (cond_Zopp sy (Z.pos (shl_align my ey (ex `min` ey)).1)
           - cond_Zopp sx (Z.pos (shl_align mx ex (ex `min` ey)).1))
    with (- (cond_Zopp sx (Z.pos (shl_align mx ex (ex `min` ey)).1)
             - cond_Zopp sy (Z.pos (shl_align my ey (ex `min` ey)).1))) by lia.
  apply binary_normalize_opp.
Qed.

Lemma flt_sim_l (x x' y : float) : sim x x' -> flt x y = flt x' y.
Proof.
  intros [->|[Hx Hx']]; [reflexivity|].
  destruct x as [sx| | |], x' as [sx'| | |]; try discriminate.
  unfold flt, SFltb. now destruct y.
Qed.

Lemma flt_sim_r (x y y' : float) : sim y y' -> flt x y = flt x y'.
Proof.
  intros [->|[Hy Hy']]; [reflexivity|].
  destruct y as [sy| | |], y' as [sy'| | |]; try discriminate.
  unfold flt, SFltb. now destruct x.
Qed.

(** A value and its negation, up to the sign of zero, have the same
    square. *)
Lemma fmul_square_opp (x x' : float) : sim (- x)%f32 x' -> (x' * x')%f32 = (x * x)%f32.
Proof.
  intros [<-|[Hx Hx']].
  - rewrite fmul_fneg_l, (fmul_comm x (- x)%f32), fmul_fneg_l.
    unfold fneg. now destruct (x * x)%f32 as [[]|[]| |[] ? ?].
  - destruct x as [sx| | |], x' as [sx'| | |]; try discriminate.
    unfold fmul. cbn [SFmul]. now destruct sx, sx'.
Qed.

Lemma flt_opp (x y : float) : sim (- x)%f32 y -> flt f0 x = true -> flt y f0 = true.
Proof.
  intros H Hx. rewrite <- (flt_sim_l _ _ f0 H).
  unfold flt, SFltb, fneg, f0 in *. destruct x as [[]|[]| |[] m e]; try discriminate; reflexivity.
Qed.

(** ** Dithering *)

Lemma land3_mod4 (n : Z) : Z.land n 3 = n mod 4.
Proof. change 3 with (Z.ones 2). now rewrite Z.land_ones by lia. Qed.

Lemma fge_f1_not_fle_f0 (b : float) : (b >=? f1)%f32 = true -> (b <=? f0)%f32 = false.
Proof.
  unfold fge, fle, SFleb, f1, f0.
  destruct b as [[]|[]| |[] m e]; simpl; try discriminate; reflexivity.
Qed.

(** C4: [dither_pixel] is a function of its three arguments alone; it is off
    for every brightness at or below 0, on for every brightness at or above
    1, and in between it is on exactly when [brightness * 16] exceeds the
    Bayer threshold of row [y mod 4] and column [x mod 4]. *)
Theorem dither_pixel_spec (x y : Z) (b : float) :
  (forall x' y' b', x' = x -> y' = y -> b' = b ->
     dither_pixel x' y' b' = dither_pixel x y b) /\
  ((b <=? f0)%f32 = true -> dither_pixel x y b = false) /\
  ((b >=? f1)%f32 = true -> dither_pixel x y b = true) /\
  ((b <=? f0)%f32 = false -> (b >=? f1)%f32 = false ->
     dither_pixel x y b = (b * f16 >? of_int (bayer_at (y mod 4) (x mod 4)))%f32).
Proof.
  split; [|split; [|split]].
  - intros x' y' b' -> -> ->. reflexivity.
  - intros H. unfold dither_pixel. now rewrite H.
  - intros H. unfold dither_pixel. now rewrite (fge_f1_not_fle_f0 b H), H.
  - intros H0 H1. unfold dither_pixel. now rewrite H0, H1, !land3_mod4.
Qed.

Lemma dither_pixel_spec_witness :
  dither_pixel 5 (-3) (fneg f0_5) = false /\
  dither_pixel 5 (-3) f2 = true /\
  dither_pixel 5 (-3) f0_5 = true /\
  dither_pixel 6 (-3) f0_5 = false.
Proof.
  destruct (dither_pixel_spec 5 (-3) (fneg f0_5)) as (_ & Hlo & _ & _).
  destruct (dither_pixel_spec 5 (-3) f2) as (_ & _ & Hhi & _).
  destruct (dither_pixel_spec 5 (-3) f0_5) as (_ & _ & _ & Hmid).
  destruct (dither_pixel_spec 6 (-3) f0_5) as (_ & _ & _ & Hmid').
  split; [|split; [|split]].
  - apply Hlo. reflexivity.
  - apply Hhi. reflexivity.
  - rewrite Hmid; reflexivity.
  - rewrite Hmid'; reflexivity.
Defined.

(** ** Bresenham termination *)

Lemma line_inv_init (x0 y0 x1 y1 : Z) :
  line_inv x1 y1 (Z.abs (x1 - x0)) (Z.abs (y1 - y0))
           (if x0 <? x1 then 1 else -1) (if y0 <? y1 then 1 else -1)
           x0 y0 (Z.abs (x1 - x0) - Z.abs (y1 - y0))
           (Z.abs (x1 - x0)) (Z.abs (y1 - y0)).
Proof.
  unfold line_inv. repeat split; try lia.
  - destruct (x0 <? x1); auto.
  - destruct (y0 <? y1); auto.
  - destruct (Z.ltb_spec x0 x1); lia.
  - destruct (Z.ltb_spec y0 y1); lia.
Qed.

(** One iteration away from the end point keeps the invariant and takes at
    least one step. *)
Lemma line_inv_step (x1 y1 dx dy sx sy x y err rx ry : Z) :
  line_inv x1 y1 dx dy sx sy x y err rx ry ->
  (x =? x1) && (y =? y1) = false ->
  let x_step := 2 * err >? - dy in
  let y_step := 2 * err <? dx in
  let err1 := if x_step then err - dy else err in
  let err2 := if y_step then err1 + dx else err1 in
  let rx' := if x_step then rx - 1 else rx in
  let ry' := if y_step then ry - 1 else ry in
  line_inv x1 y1 dx dy sx sy (if x_step then x + sx else x) (if y_step then y + sy else y)
           err2 rx' ry' /\
  rx' + ry' + 1 <= rx + ry.
Proof.
  intros (Hrx & Hry & Hsx & Hsy & Hx & Hy & Herr & Hb) Hend. cbv zeta.
  assert (Hpos : 1 <= rx + ry).
  { apply andb_false_iff in Hend. destruct Hend as [H|H]; apply Z.eqb_neq in H.
    - assert (rx <> 0) by (intros ->; lia). lia.
    - assert (ry <> 0) by (intros ->; lia). lia. }
  destruct (2 * err >? - dy) eqn:Hxs; destruct (2 * err <? dx) eqn:Hys;
    rewrite ?Z.gtb_ltb in Hxs;
    [ apply Z.ltb_lt in Hxs; apply Z.ltb_lt in Hys
    | apply Z.ltb_lt in Hxs; apply Z.ltb_ge in Hys
    | apply Z.ltb_ge in Hxs; apply Z.ltb_lt in Hys
    | apply Z.ltb_ge in Hxs; apply Z.ltb_ge in Hys ].
  - assert (1 <= rx) by (destruct (Z.eq_dec rx 0); [subst rx; nia | lia]).
    assert (1 <= ry) by (destruct (Z.eq_dec ry 0); [subst ry; nia | lia]).
    unfold line_inv. repeat split; try lia; try nia; auto.
  - assert (1 <= rx) by (destruct (Z.eq_dec rx 0); [subst rx; nia | lia]).
    unfold line_inv. repeat split; try lia; try nia; auto.
  - assert (1 <= ry) by (destruct (Z.eq_dec ry 0); [subst ry; nia | lia]).
    unfold line_inv. repeat split; try lia; try nia; auto.
  - exfalso. assert (dx = 0 /\ dy = 0) as [-> ->] by lia. lia.
Qed.

(** *** [int] operations whose result is in range *)

Lemma wrap32_small (z : Z) : - 2 ^ 31 <= z < 2 ^ 31 -> wrap32 z = z.
Proof. intros H. unfold wrap32. rewrite Z.mod_small by lia. lia. Qed.

Lemma wrap32_range (z : Z) : - 2 ^ 31 <= wrap32 z < 2 ^ 31.
Proof. unfold wrap32. pose proof (Z.mod_pos_bound (z + 2147483648) 4294967296). lia. Qed.

(** *** Lines whose extents are below a third of the range of [int] *)

(** Within these bounds an iteration away from the end point is the
    iteration of the integers: no result is reduced. *)
Lemma draw_line_loop_step (fuel : nat) (x1 y1 dx dy sx sy : Z) (on : bool)
    (x y err : Z) (fb : list Z) (rx ry : Z) :
  line_inv x1 y1 dx dy sx sy x y err rx ry ->
  loop_in_range x1 y1 dx dy sx sy ->
  (x =? x1) && (y =? y1) = false ->
  draw_line_loop (S fuel) x1 y1 dx dy sx sy on x y err fb =
  draw_line_loop fuel x1 y1 dx dy sx sy on
    (if 2 * err >? - dy then x + sx else x)
    (if 2 * err <? dx then y + sy else y)
    (if 2 * err <? dx then (if 2 * err >? - dy then err - dy else err) + dx
     else if 2 * err >? - dy then err - dy else err)
    (if in_display x y then ssd1306_set_pixel x y on fb else fb).
Proof.
  intros Hinv (Hdx & Hdy & Hbx & Hby) Hend.
  destruct (line_inv_step _ _ _ _ _ _ _ _ _ _ _ Hinv Hend) as [Hinv' _].
  cbv zeta in Hinv'.
  destruct Hinv as (Hrx & Hry & Hsx & Hsy & Hx & Hy & Herr & Hb).
  cbn [draw_line_loop]. rewrite Hend.
  unfold int_mul, int_neg, int_sub, int_add.
  rewrite (wrap32_small (2 * err)) by lia. rewrite (wrap32_small (- dy)) by lia.
  destruct Hinv' as (Hrx' & Hry' & _ & _ & Hx' & Hy' & _ & Hb').
  destruct (2 * err >? - dy) eqn:Hxs; destruct (2 * err <? dx) eqn:Hys;
    rewrite ?Z.gtb_ltb in Hxs;
    [ apply Z.ltb_lt in Hxs; apply Z.ltb_lt in Hys
    | apply Z.ltb_lt in Hxs; apply Z.ltb_ge in Hys
    | apply Z.ltb_ge in Hxs; apply Z.ltb_lt in Hys
    | apply Z.ltb_ge in Hxs; apply Z.ltb_ge in Hys ].
  - rewrite (wrap32_small (err - dy)) by lia.
    rewrite (wrap32_small (err - dy + dx)) by lia.
    rewrite (wrap32_small (x + sx)) by (specialize (Hbx _ Hrx'); lia).
    rewrite (wrap32_small (y + sy)) by (specialize (Hby _ Hry'); lia).
    reflexivity.
  - rewrite (wrap32_small (err - dy)) by lia.
    rewrite (wrap32_small (x + sx)) by (specialize (Hbx _ Hrx'); lia).
    reflexivity.
  - rewrite (wrap32_small (err + dx)) by lia.
    rewrite (wrap32_small (y + sy)) by (specialize (Hby _ Hry'); lia).
    reflexivity.
  - reflexivity.
Qed.

Lemma draw_line_loop_terminates (fuel : nat) :
  forall x1 y1 dx dy sx sy on x y err fb rx ry,
    line_inv x1 y1 dx dy sx sy x y err rx ry ->
    loop_in_range x1 y1 dx dy sx sy ->
    (Z.to_nat (rx + ry + 1) <= fuel)%nat ->
    exists fb', draw_line_loop fuel x1 y1 dx dy sx sy on x y err fb = Some fb'.
Proof.
  induction fuel as [|fuel IH];
    intros x1 y1 dx dy sx sy on x y err fb rx ry Hinv Hrange Hfuel.
  - destruct Hinv as (? & ? & _). lia.
  - destruct ((x =? x1) && (y =? y1)) eqn:Hend.
    + cbn [draw_line_loop]. rewrite Hend. eauto.
    + rewrite (draw_line_loop_step fuel _ _ _ _ _ _ on _ _ _ fb _ _ Hinv Hrange Hend).
      destruct (line_inv_step _ _ _ _ _ _ _ _ _ _ _ Hinv Hend) as [Hinv' Hless].
      cbv zeta in Hinv', Hless.
      destruct (2 * err >? - dy), (2 * err <? dx);
        (eapply IH; [exact Hinv' | exact Hrange | lia]).
Qed.

(** More fuel never changes the outcome of a run that has finished. *)
Lemma draw_line_loop_mono (fuel fuel' : nat) :
  forall x1 y1 dx dy sx sy on x y err fb fb',
    draw_line_loop fuel x1 y1 dx dy sx sy on x y err fb = Some fb' ->
    (fuel <= fuel')%nat ->
    draw_line_loop fuel' x1 y1 dx dy sx sy on x y err fb = Some fb'.
Proof.
  revert fuel'. induction fuel as [|fuel IH]; intros [|fuel'] *; try discriminate; try lia.
  cbn [draw_line_loop]. intros H Hle.
  destruct ((x =? x1) && (y =? y1)); [exact H|].
  destruct (int_mul 2 err >? int_neg dy), (int_mul 2 err <? dx);
    (eapply IH; [exact H | lia]).
Qed.

(** For end points in range the set-up of [render3d_draw_line] computes the
    extents and the first error term of the integers. *)
Lemma render3d_draw_line_setup (fuel : nat) (x0 y0 x1 y1 : Z) (on : bool) (fb : list Z) :
  line_in_range x0 y0 x1 y1 ->
  render3d_draw_line fuel x0 y0 x1 y1 on fb =
  draw_line_loop fuel x1 y1 (Z.abs (x1 - x0)) (Z.abs (y1 - y0))
    (if x0 <? x1 then 1 else -1) (if y0 <? y1 then 1 else -1) on x0 y0
    (Z.abs (x1 - x0) - Z.abs (y1 - y0)) fb.
Proof.
  intros ((Hx0 & Hy0) & (Hx1 & Hy1) & Hdx & Hdy).
  unfold render3d_draw_line, int_abs, int_sub.
  rewrite (wrap32_small (x1 - x0)) by lia. rewrite (wrap32_small (y1 - y0)) by lia.
  rewrite (wrap32_small (Z.abs (x1 - x0))) by lia.
  rewrite (wrap32_small (Z.abs (y1 - y0))) by lia.
  rewrite (wrap32_small (Z.abs (x1 - x0) - Z.abs (y1 - y0))) by lia.
  reflexivity.
Qed.

Lemma line_in_range_loop (x0 y0 x1 y1 : Z) :
  line_in_range x0 y0 x1 y1 ->
  loop_in_range x1 y1 (Z.abs (x1 - x0)) (Z.abs (y1 - y0))
    (if x0 <? x1 then 1 else -1) (if y0 <? y1 then 1 else -1).
Proof.
  intros ((Hx0 & Hy0) & (Hx1 & Hy1) & Hdx & Hdy).
  split; [exact Hdx|]. split; [exact Hdy|]. split; intros r Hr.
  - destruct (Z.ltb_spec x0 x1); lia.
  - destruct (Z.ltb_spec y0 y1); lia.
Qed.

Lemma render3d_draw_line_returns (x0 y0 x1 y1 : Z) (on : bool) (fb : list Z) (fuel : nat) :
  line_in_range x0 y0 x1 y1 ->
  (line_steps x0 y0 x1 y1 <= fuel)%nat ->
  exists fb', render3d_draw_line fuel x0 y0 x1 y1 on fb = Some fb'.
Proof.
  intros Hrange Hfuel. rewrite render3d_draw_line_setup by exact Hrange.
  apply (draw_line_loop_terminates _ _ _ _ _ _ _ _ _ _ _ _
           (Z.abs (x1 - x0)) (Z.abs (y1 - y0)));
    [apply line_inv_init | now apply line_in_range_loop | exact Hfuel].
Qed.

(** *** End points on which the loop does not exit *)

(** From (-2^30, 0) to (2^30, 0): [x1 - x0] is 2^31, which the target reduces
    to -2^31, and so is its [abs]; with [dx = -2^31], [dy = 0] and
    [e2 = 2 * err = 0] neither branch is taken and the state never changes. *)
Lemma draw_line_loop_fixed (on : bool) (fuel : nat) :
  forall fb,
    draw_line_loop fuel 1073741824 0 (-2147483648) 0 1 (-1) on (-1073741824) 0
      (-2147483648) fb = None.
Proof.
  induction fuel as [|fuel IH]; intros fb; [reflexivity|].
  cbn [draw_line_loop].
  change ((0 <=? -1073741824) && (-1073741824 <? SSD1306_WIDTH) && (0 <=? 0)
          && (0 <? SSD1306_HEIGHT)) with false.
  change ((-1073741824 =? 1073741824) && (0 =? 0)) with false.
  change (int_mul 2 (-2147483648)) with 0. change (int_neg 0) with 0.
  change (0 >? 0) with false. change (0 <? -2147483648) with false.
  cbn iota. apply IH.
Qed.

(** From (0, 0) to (2^30, 0), with no operation on the end points out of
    range: [err] starts as 2^30, [e2 = 2 * err] is reduced to -2^31, so that
    [e2 > -dy] fails and [e2 < dx] holds; the loop steps in [y] only, [err]
    cycles through 2^30, -2^31, -2^30 and 0, and [x0] stays at 0. *)
Lemma draw_line_loop_cycle (on : bool) (fuel : nat) :
  forall y err fb,
    err = 1073741824 \/ err = -2147483648 \/ err = -1073741824 \/ err = 0 ->
    draw_line_loop fuel 1073741824 0 1073741824 0 1 (-1) on 0 y err fb = None.
Proof.
  induction fuel as [|fuel IH]; intros y err fb Herr; [reflexivity|].
  cbn [draw_line_loop].
  change (0 =? 1073741824) with false. cbn [andb].
  change (int_neg 0) with 0.
  destruct Herr as [-> | [-> | [-> | ->]]].
  - change (int_mul 2 1073741824) with (-2147483648).
    change (-2147483648 >? 0) with false. change (-2147483648 <? 1073741824) with true.
    cbn iota. apply IH. right. left. reflexivity.
  - change (int_mul 2 (-2147483648)) with 0.
    change (0 >? 0) with false. change (0 <? 1073741824) with true.
    cbn iota. apply IH. right. right. left. reflexivity.
  - change (int_mul 2 (-1073741824)) with (-2147483648).
    change (-2147483648 >? 0) with false. change (-2147483648 <? 1073741824) with true.
    cbn iota. apply IH. right. right. right. reflexivity.
  - change (int_mul 2 0) with 0.
    change (0 >? 0) with false. change (0 <? 1073741824) with true.
    cbn iota. apply IH. left. reflexivity.
Qed.

(** C10, as the code has it: for end points in the range of [int] whose
    extents [|x1-x0|] and [|y1-y0|] are below a third of 2^31, the loop of
    [render3d_draw_line] reaches its exit [x0 == x1 && y0 == y1] within
    [|x1-x0| + |y1-y0| + 1] iterations, and any larger number of iterations
    gives the same frame buffer. *)
Theorem render3d_draw_line_terminates (x0 y0 x1 y1 : Z) (on : bool) (fb : list Z) :
  - 2 ^ 31 <= x0 < 2 ^ 31 /\ - 2 ^ 31 <= y0 < 2 ^ 31 ->
  - 2 ^ 31 <= x1 < 2 ^ 31 /\ - 2 ^ 31 <= y1 < 2 ^ 31 ->
  3 * Z.abs (x1 - x0) < 2 ^ 31 ->
  3 * Z.abs (y1 - y0) < 2 ^ 31 ->
  exists fb',
    forall extra : nat,
      render3d_draw_line (Z.to_nat (Z.abs (x1 - x0) + Z.abs (y1 - y0) + 1) + extra)
        x0 y0 x1 y1 on fb = Some fb'.
Proof.
  intros H0 H1 Hdx Hdy.
  assert (Hrange : line_in_range x0 y0 x1 y1) by (unfold line_in_range; auto).
  destruct (render3d_draw_line_returns x0 y0 x1 y1 on fb _ Hrange (Nat.le_refl _))
    as [fb' Hrun].
  exists fb'. intros extra.
  rewrite render3d_draw_line_setup in Hrun |- * by exact Hrange.
  eapply draw_line_loop_mono; [exact Hrun | unfold line_steps; lia].
Qed.

Lemma render3d_draw_line_terminates_witness :
  exists fb', render3d_draw_line 11 2 3 9 6 true (replicate frame_buffer_size 0) = Some fb'.
Proof.
  destruct (render3d_draw_line_terminates 2 3 9 6 true (replicate frame_buffer_size 0))
    as [fb' Hrun]; try lia.
  exists fb'. exact (Hrun 0%nat).
Defined.

(** C10 as stated fails: there are [int] end points from which the loop
    never reaches its exit, whatever the number of iterations.  From
    (-2^30, 0) to (2^30, 0) the difference [x1 - x0] is out of range and the
    state of the loop never changes; from (0, 0) to (2^30, 0) only [2 * err]
    is out of range and the loop steps away from the line in [y] for ever. *)
Lemma render3d_draw_line_counterexample :
  (forall (fuel : nat) (on : bool) (fb : list Z),
     render3d_draw_line fuel (- 2 ^ 30) 0 (2 ^ 30) 0 on fb = None) /\
  (forall (fuel : nat) (on : bool) (fb : list Z),
     render3d_draw_line fuel 0 0 (2 ^ 30) 0 on fb = None).
Proof.
  split; intros fuel on fb.
  - apply (draw_line_loop_fixed on fuel fb).
  - apply (draw_line_loop_cycle on fuel 0 1073741824 fb). left. reflexivity.
Qed.

(** ** The face loop of [render3d_draw_mesh]: culling, lighting, near plane *)

Lemma draw_mesh_face_unfold (w : world) (mesh : mesh_t) (model mvp : mat4_t) (face : face_t) :
  draw_mesh_face w mesh model mvp face =
  if (vec3_dot (face_normal_world mesh model face)
               (view_dir_to_camera (fst w) mesh model face) <? f0)%f32
  then w else lit_and_filled w mesh model mvp face.
Proof. reflexivity. Qed.

Lemma world_neq_by_pixel (w w' : world) (x y : Z) :
  ssd1306_get_pixel x y (snd w) <> ssd1306_get_pixel x y (snd w') -> w <> w'.
Proof. intros H ->. now apply H. Qed.

(** *** Reversing the winding negates the normal *)

Lemma vec3_cross_swap (a b : vec3_t) : vopp (vec3_cross a b) (vec3_cross b a).
Proof.
  unfold vopp, vec3_cross. cbn [vx vy vz].
  rewrite (fmul_comm (vy b) (vz a)), (fmul_comm (vz b) (vy a)),
          (fmul_comm (vz b) (vx a)), (fmul_comm (vx b) (vz a)),
          (fmul_comm (vx b) (vy a)), (fmul_comm (vy b) (vx a)).
  repeat split; apply fsub_swap.
Qed.

Lemma vec3_length_opp (v v' : vec3_t) : vopp v v' -> vec3_length v' = vec3_length v.
Proof.
  intros (Hx & Hy & Hz). unfold vec3_length.
  now rewrite (fmul_square_opp _ _ Hx), (fmul_square_opp _ _ Hy), (fmul_square_opp _ _ Hz).
Qed.

Lemma fmul_opp_l (x x' s : float) : sim (- x)%f32 x' -> sim (- (x * s))%f32 (x' * s)%f32.
Proof. intros H. rewrite <- fmul_fneg_l. now apply fmul_sim_l. Qed.

Lemma vec3_normalize_opp (v v' : vec3_t) :
  vopp v v' -> vopp (vec3_normalize v) (vec3_normalize v').
Proof.
  intros H. unfold vec3_normalize. rewrite (vec3_length_opp v v' H).
  destruct (_ <? f0_0001)%f32.
  - unfold vopp. cbn [vx vy vz]. repeat split; right; now split.
  - destruct H as (Hx & Hy & Hz). unfold vopp, vec3_mul. cbn [vx vy vz].
    repeat split; now apply fmul_opp_l.
Qed.

Lemma vec3_dot_opp (n n' d : vec3_t) :
  vopp n n' -> sim (- vec3_dot n d)%f32 (vec3_dot n' d).
Proof.
  intros (Hx & Hy & Hz). unfold vec3_dot.
  eapply sim_trans; [apply fneg_fadd|].
  apply fadd_sim; [|now apply fmul_opp_l].
  eapply sim_trans; [apply fneg_fadd|].
  apply fadd_sim; now apply fmul_opp_l.
Qed.

Lemma calculate_face_normal_reversed (v0 v1 v2 : vec3_t) :
  vopp (calculate_face_normal v0 v1 v2) (calculate_face_normal v0 v2 v1).
Proof. unfold calculate_face_normal. apply vec3_normalize_opp, vec3_cross_swap. Qed.

Lemma reversed_winding_dot (ctx : render_ctx_t) (mesh : mesh_t) (model : mat4_t)
    (face face' : face_t) :
  reversed_winding face face' ->
  sim (- vec3_dot (face_normal_world mesh model face)
                  (view_dir_to_camera ctx mesh model face))%f32
      (vec3_dot (face_normal_world mesh model face')
                (view_dir_to_camera ctx mesh model face')).
Proof.
  intros (H0 & H1 & H2).
  unfold face_normal_world, view_dir_to_camera, face_world. rewrite H0, H1, H2.
  apply vec3_dot_opp, calculate_face_normal_reversed.
Qed.

(** C1, as the code has it: a face is dropped by the back-face test exactly
    when the dot product of its world-space normal with the normalised
    direction from its first world-space vertex to the camera is strictly
    negative; otherwise it goes on to lighting, projection and fill.  A
    triangle whose normal points straight at the camera is drawn, and the same
    triangle with reversed winding is dropped. *)
Theorem backface_cull_rule (w : world) (mesh : mesh_t) (model mvp : mat4_t) (face : face_t) :
  let d := vec3_dot (face_normal_world mesh model face)
                    (view_dir_to_camera (fst w) mesh model face) in
  ((d <? f0)%f32 = true -> draw_mesh_face w mesh model mvp face = w) /\
  ((d <? f0)%f32 = false ->
     draw_mesh_face w mesh model mvp face = lit_and_filled w mesh model mvp face) /\
  (vec3_dot (face_normal_world facing_mesh mat4_identity (face_at facing_mesh 0))
            (view_dir_to_camera ctx_init facing_mesh mat4_identity (face_at facing_mesh 0))
     = f1 /\
   ssd1306_get_pixel 64 32
     (snd (draw_mesh_face world_init facing_mesh mat4_identity mat4_identity
             (face_at facing_mesh 0))) = true /\
   draw_mesh_face world_init facing_mesh mat4_identity mat4_identity
     (face_at facing_mesh 1) = world_init).
Proof.
  intros d. split; [|split; [|split; [|split]]].
  - intros H. rewrite draw_mesh_face_unfold. fold d. now rewrite H.
  - intros H. rewrite draw_mesh_face_unfold. fold d. now rewrite H.
  - vm_compute. reflexivity.
  - vm_compute. reflexivity.
  - rewrite draw_mesh_face_unfold.
    replace (_ <? f0)%f32 with true by (vm_compute; reflexivity). reflexivity.
Qed.

Lemma backface_cull_rule_witness :
  draw_mesh_face world_init facing_mesh mat4_identity mat4_identity (face_at facing_mesh 1)
    = world_init /\
  draw_mesh_face world_init edge_on_mesh mat4_identity mat4_identity (face_at edge_on_mesh 0)
    = lit_and_filled world_init edge_on_mesh mat4_identity mat4_identity
        (face_at edge_on_mesh 0).
Proof.
  destruct (backface_cull_rule world_init facing_mesh mat4_identity mat4_identity
              (face_at facing_mesh 1)) as (Hcull & _ & _).
  destruct (backface_cull_rule world_init edge_on_mesh mat4_identity mat4_identity
              (face_at edge_on_mesh 0)) as (_ & Hkeep & _).
  split.
  - apply Hcull. vm_compute. reflexivity.
  - apply Hkeep. vm_compute. reflexivity.
Defined.

(** C1 as stated fails.  For the edge-on triangle the dot product is 0 for
    either orientation of the view direction, so the stated rule drops the
    face, yet the code rasterises it.  And with the view direction taken from
    the camera to the vertex, as the statement words it, the triangle that
    faces the camera has dot product -1 and is drawn all the same. *)
Lemma backface_cull_counterexample :
  let face := face_at edge_on_mesh 0 in
  let front := face_at facing_mesh 0 in
  ((vec3_dot (face_normal_world edge_on_mesh mat4_identity face)
             (view_dir_from_camera ctx_init edge_on_mesh mat4_identity face) <=? f0)%f32 = true /\
   (vec3_dot (face_normal_world edge_on_mesh mat4_identity face)
             (view_dir_to_camera ctx_init edge_on_mesh mat4_identity face) <=? f0)%f32 = true /\
   draw_mesh_face world_init edge_on_mesh mat4_identity mat4_identity face <> world_init) /\
  ((vec3_dot (face_normal_world facing_mesh mat4_identity front)
             (view_dir_from_camera ctx_init facing_mesh mat4_identity front) <=? f0)%f32 = true /\
   draw_mesh_face world_init facing_mesh mat4_identity mat4_identity front <> world_init).
Proof.
  split; [split; [|split] | split].
  - vm_compute. reflexivity.
  - vm_compute. reflexivity.
  - apply (world_neq_by_pixel _ _ 64 30). vm_compute. discriminate.
  - vm_compute. reflexivity.
  - apply (world_neq_by_pixel _ _ 64 32). vm_compute. discriminate.
Qed.

Lemma lit_and_filled_rejected (w : world) (mesh : mesh_t) (model mvp : mat4_t) (face : face_t) :
  has_negative_depth (face_projected (fst w) mesh mvp face 0)
                     (face_projected (fst w) mesh mvp face 1)
                     (face_projected (fst w) mesh mvp face 2) = true ->
  lit_and_filled w mesh model mvp face = w.
Proof. intros H. unfold lit_and_filled. rewrite H. reflexivity. Qed.

Lemma lit_and_filled_kept (w : world) (mesh : mesh_t) (model mvp : mat4_t) (face : face_t) :
  has_negative_depth (face_projected (fst w) mesh mvp face 0)
                     (face_projected (fst w) mesh mvp face 1)
                     (face_projected (fst w) mesh mvp face 2) = false ->
  lit_and_filled w mesh model mvp face =
  draw_triangle_flat w (face_projected (fst w) mesh mvp face 0)
    (face_projected (fst w) mesh mvp face 1) (face_projected (fst w) mesh mvp face 2)
    (face_brightness (light (fst w)) (face_normal_world mesh model face))
    (face_color face).
Proof. intros H. unfold lit_and_filled. rewrite H. reflexivity. Qed.

Lemma draw_wireframe_face_unfold (fuel : nat) (w : world) (mesh : mesh_t) (mvp : mat4_t)
    (face : face_t) :
  draw_wireframe_face fuel w mesh mvp face =
  if has_negative_depth (face_projected (fst w) mesh mvp face 0)
                        (face_projected (fst w) mesh mvp face 1)
                        (face_projected (fst w) mesh mvp face 2)
  then Some w
  else fb ← wire_edges fuel (face_projected (fst w) mesh mvp face 0)
                            (face_projected (fst w) mesh mvp face 1)
                            (face_projected (fst w) mesh mvp face 2) (snd w);
       Some (fst w, fb).
Proof.
  destruct w as [ctx fb]. unfold draw_wireframe_face, wire_edges. cbn [fst snd].
  fold (face_projected ctx mesh mvp face 0) (face_projected ctx mesh mvp face 1)
       (face_projected ctx mesh mvp face 2).
  change ((vz (face_projected ctx mesh mvp face 0) <? f0)%f32
          || (vz (face_projected ctx mesh mvp face 1) <? f0)%f32
          || (vz (face_projected ctx mesh mvp face 2) <? f0)%f32)
    with (has_negative_depth (face_projected ctx mesh mvp face 0)
            (face_projected ctx mesh mvp face 1) (face_projected ctx mesh mvp face 2)).
  destruct (has_negative_depth _ _ _); [reflexivity|].
  destruct (render3d_draw_line fuel _ _ _ _ true fb) as [fb1|]; [|reflexivity].
  cbn [mbind option_bind].
  destruct (render3d_draw_line fuel _ _ _ _ true fb1) as [fb2|]; reflexivity.
Qed.

(** C2, as the code has it: the fill path and the wireframe path test the
    same condition, "some projected vertex has depth strictly below 0", and
    a face that meets it is dropped whole by both, the wireframe path
    returning at once; a face that does not meet it has its three edges
    drawn by the wireframe path and, unless culled, is filled by the fill
    path.  A depth of exactly 0 does not reject. *)
Theorem near_plane_rule (fuel : nat) (w : world) (mesh : mesh_t) (model mvp : mat4_t)
    (face : face_t) :
  let p0 := face_projected (fst w) mesh mvp face 0 in
  let p1 := face_projected (fst w) mesh mvp face 1 in
  let p2 := face_projected (fst w) mesh mvp face 2 in
  (has_negative_depth p0 p1 p2 = true ->
     draw_mesh_face w mesh model mvp face = w /\
     draw_wireframe_face fuel w mesh mvp face = Some w) /\
  (has_negative_depth p0 p1 p2 = false ->
     draw_wireframe_face fuel w mesh mvp face
       = (fb ← wire_edges fuel p0 p1 p2 (snd w); Some (fst w, fb)) /\
     draw_mesh_face w mesh model mvp face =
       if (vec3_dot (face_normal_world mesh model face)
                    (view_dir_to_camera (fst w) mesh model face) <? f0)%f32
       then w
       else draw_triangle_flat w p0 p1 p2
              (face_brightness (light (fst w)) (face_normal_world mesh model face))
              (face_color face)).
Proof.
  intros p0 p1 p2. split; intros H.
  - split.
    + rewrite draw_mesh_face_unfold.
      destruct (_ <? f0)%f32; [reflexivity|].
      now apply lit_and_filled_rejected.
    + rewrite draw_wireframe_face_unfold. fold p0 p1 p2. now rewrite H.
  - split.
    + rewrite draw_wireframe_face_unfold. fold p0 p1 p2. now rewrite H.
    + rewrite draw_mesh_face_unfold.
      destruct (_ <? f0)%f32; [reflexivity|].
      now apply lit_and_filled_kept.
Qed.

Lemma near_plane_rule_witness :
  (draw_mesh_face world_init behind_mesh mat4_identity mat4_identity (face_at behind_mesh 0)
     = world_init /\
   draw_wireframe_face 64 world_init behind_mesh mat4_identity (face_at behind_mesh 0)
     = Some world_init) /\
  draw_wireframe_face 64 world_init facing_mesh mat4_identity (face_at facing_mesh 0)
    = (fb ← wire_edges 64
              (face_projected (fst world_init) facing_mesh mat4_identity
                 (face_at facing_mesh 0) 0)
              (face_projected (fst world_init) facing_mesh mat4_identity
                 (face_at facing_mesh 0) 1)
              (face_projected (fst world_init) facing_mesh mat4_identity
                 (face_at facing_mesh 0) 2) (snd world_init);
       Some (fst world_init, fb)).
Proof.
  destruct (near_plane_rule 64 world_init behind_mesh mat4_identity mat4_identity
              (face_at behind_mesh 0)) as (Hdrop & _).
  destruct (near_plane_rule 64 world_init facing_mesh mat4_identity mat4_identity
              (face_at facing_mesh 0)) as (_ & Hkeep).
  split.
  - apply Hdrop. vm_compute. reflexivity.
  - apply Hkeep. vm_compute. reflexivity.
Defined.

(** C2 as stated fails at depth exactly 0: right after [render3d_init] and
    [render3d_clear] every vertex projects to (64, 32) with depth 0, and both
    paths draw the face instead of dropping it: the wireframe path, whose
    three lines end where they start, returns with that pixel lit. *)
Lemma near_plane_counterexample :
  let face := face_at facing_mesh 0 in
  (vz (face_projected (fst world_init) facing_mesh mvp_init face 0) <=? f0)%f32 = true /\
  (forall fuel : nat,
     draw_wireframe_face (S fuel) world_init facing_mesh mvp_init face
     = Some (fst world_init, ssd1306_set_pixel 64 32 true (snd world_init))) /\
  (fst world_init, ssd1306_set_pixel 64 32 true (snd world_init)) <> world_init /\
  draw_mesh_face world_init facing_mesh mat4_identity mvp_init face <> world_init.
Proof.
  split; [vm_compute; reflexivity|]. split; [|split].
  - intros fuel. vm_compute. reflexivity.
  - apply (world_neq_by_pixel _ _ 64 32). vm_compute. discriminate.
  - apply (world_neq_by_pixel _ _ 64 32). vm_compute. discriminate.
Qed.

Lemma face_diffuse_not_negative (l : light_t) (n : vec3_t) : not_negative (face_diffuse l n).
Proof.
  unfold not_negative, face_diffuse.
  destruct (- vec3_dot n (direction l) <? f0)%f32 eqn:E; [apply flt_irrefl | exact E].
Qed.

Lemma face_brightness_not_negative (l : light_t) (n : vec3_t) :
  not_negative (ambient l) -> not_negative (intensity l) ->
  not_negative (face_brightness l n).
Proof.
  intros Ha Hi. unfold face_brightness.
  destruct (_ >? f1)%f32; [reflexivity|].
  apply fadd_not_negative; [exact Ha|].
  apply fmul_not_negative; [apply face_diffuse_not_negative | exact Hi].
Qed.

(** C3, as the code has it: the diffuse term is the negated dot product of
    the face normal and the light direction, floored at 0; the brightness
    handed to the fill is [ambient + diffuse * intensity] capped at 1 from
    above only.  It never exceeds 1 and the diffuse term is never below 0,
    whatever the light parameters are; the brightness is not below 0 when
    neither the ambient level nor the intensity is. *)
Theorem flat_shading_brightness (w : world) (mesh : mesh_t) (model mvp : mat4_t)
    (face : face_t) :
  let l := light (fst w) in
  let n := face_normal_world mesh model face in
  let p0 := face_projected (fst w) mesh mvp face 0 in
  let p1 := face_projected (fst w) mesh mvp face 1 in
  let p2 := face_projected (fst w) mesh mvp face 2 in
  let raw := (ambient l + face_diffuse l n * intensity l)%f32 in
  face_diffuse l n
    = (if (- vec3_dot n (direction l) <? f0)%f32 then f0 else (- vec3_dot n (direction l))%f32) /\
  (face_diffuse l n <? f0)%f32 = false /\
  face_brightness l n = (if (raw >? f1)%f32 then f1 else raw) /\
  (face_brightness l n >? f1)%f32 = false /\
  ((ambient l <? f0)%f32 = false -> (intensity l <? f0)%f32 = false ->
   (face_brightness l n <? f0)%f32 = false) /\
  ((vec3_dot n (view_dir_to_camera (fst w) mesh model face) <? f0)%f32 = false ->
   has_negative_depth p0 p1 p2 = false ->
   draw_mesh_face w mesh model mvp face
     = draw_triangle_flat w p0 p1 p2 (face_brightness l n) (face_color face)).
Proof.
  intros l n p0 p1 p2 raw.
  split; [reflexivity|]. split; [|split; [reflexivity|split; [|split]]].
  - apply face_diffuse_not_negative.
  - unfold face_brightness. fold raw. unfold fgt.
    change (SFltb f1 raw) with (flt f1 raw).
    destruct (flt f1 raw) eqn:E; [apply flt_irrefl | exact E].
  - apply face_brightness_not_negative.
  - intros Hcull Hnear. rewrite draw_mesh_face_unfold. fold n. rewrite Hcull.
    now apply lit_and_filled_kept.
Qed.

Lemma flat_shading_brightness_witness :
  draw_mesh_face world_init facing_mesh mat4_identity mat4_identity (face_at facing_mesh 0)
  = draw_triangle_flat world_init
      (face_projected (fst world_init) facing_mesh mat4_identity (face_at facing_mesh 0) 0)
      (face_projected (fst world_init) facing_mesh mat4_identity (face_at facing_mesh 0) 1)
      (face_projected (fst world_init) facing_mesh mat4_identity (face_at facing_mesh 0) 2)
      (face_brightness (light (fst world_init))
         (face_normal_world facing_mesh mat4_identity (face_at facing_mesh 0)))
      (face_color (face_at facing_mesh 0)).
Proof.
  destruct (flat_shading_brightness world_init facing_mesh mat4_identity mat4_identity
              (face_at facing_mesh 0)) as (_ & _ & _ & _ & _ & H).
  apply H; vm_compute; reflexivity.
Defined.

(** C3 as stated fails below: with ambient = -0.5 the face is filled with
    brightness -0.5. *)
Lemma flat_shading_counterexample :
  let face := face_at facing_mesh 0 in
  let b := face_brightness (light (fst dark_world))
             (face_normal_world facing_mesh mat4_identity face) in
  b = (- f0_5)%f32 /\ (b <? f0)%f32 = true /\
  draw_mesh_face dark_world facing_mesh mat4_identity mat4_identity face
  = draw_triangle_flat dark_world
      (face_projected (fst dark_world) facing_mesh mat4_identity face 0)
      (face_projected (fst dark_world) facing_mesh mat4_identity face 1)
      (face_projected (fst dark_world) facing_mesh mat4_identity face 2)
      b (face_color face).
Proof.
  split; [vm_compute; reflexivity|]. split; [vm_compute; reflexivity|].
  rewrite draw_mesh_face_unfold.
  replace (_ <? f0)%f32 with false by (vm_compute; reflexivity).
  apply lit_and_filled_kept. vm_compute. reflexivity.
Qed.

(** ** The face loops as a whole *)

(** Every face of a non-empty mesh goes through [draw_mesh_face], resp.
    [draw_wireframe_face], with the model matrix of the mesh and the cached
    view and projection matrices. *)
Lemma render3d_draw_mesh_faces (cosf sinf : float -> float) (w : world) (mesh : mesh_t) :
  face_count mesh <> 0 ->
  let model := model_matrix cosf sinf mesh in
  let mvp := mat4_multiply (proj_matrix (fst w)) (mat4_multiply (view_matrix (fst w)) model) in
  render3d_draw_mesh cosf sinf w (Some mesh)
    = for_range (Z.to_nat (face_count mesh)) 0
        (fun i w => draw_mesh_face w mesh model mvp (face_at mesh i)) w /\
  (forall fuel : nat,
     render3d_draw_mesh_wireframe cosf sinf fuel w (Some mesh)
     = for_range (Z.to_nat (face_count mesh)) 0
         (fun i r => w ← r; draw_wireframe_face fuel w mesh mvp (face_at mesh i)) (Some w)).
Proof.
  intros Hne. unfold render3d_draw_mesh, render3d_draw_mesh_wireframe.
  destruct (Z.eqb_spec (face_count mesh) 0); [contradiction|]. split; reflexivity.
Qed.

(** ** Null and empty meshes *)

(** C9: with a null mesh, or a mesh whose [face_count] is 0, both draw calls
    return the world they were given: context (camera, light, cached
    matrices, depth buffer, size) and frame buffer alike.  The wireframe
    call returns it without a single iteration of the line loop. *)
Theorem draw_null_or_empty_mesh (cosf sinf : float -> float) (fuel : nat) (w : world)
    (mesh : option mesh_t) :
  (mesh = None \/ exists m, mesh = Some m /\ face_count m = 0) ->
  render3d_draw_mesh cosf sinf w mesh = w /\
  render3d_draw_mesh_wireframe cosf sinf fuel w mesh = Some w.
Proof.
  intros [-> | (m & -> & Hm)]; [split; reflexivity|].
  unfold render3d_draw_mesh, render3d_draw_mesh_wireframe.
  rewrite Hm. split; reflexivity.
Qed.

Lemma draw_null_or_empty_mesh_witness :
  (render3d_draw_mesh sqrtf sqrtf world_init None = world_init /\
   render3d_draw_mesh_wireframe sqrtf sqrtf 0 world_init None = Some world_init) /\
  (render3d_draw_mesh sqrtf sqrtf world_init (Some (unit_mesh [] [])) = world_init /\
   render3d_draw_mesh_wireframe sqrtf sqrtf 0 world_init (Some (unit_mesh [] []))
     = Some world_init).
Proof.
  split.
  - apply draw_null_or_empty_mesh. left. reflexivity.
  - apply draw_null_or_empty_mesh. right. exists (unit_mesh [] []). split; reflexivity.
Defined.

(** ** Pixels of the frame buffer *)

Lemma display_guard (x y : Z) :
  (x <? 0) || (x >=? SSD1306_WIDTH) || (y <? 0) || (y >=? SSD1306_HEIGHT)
  = negb (in_display x y).
Proof.
  unfold in_display.
  destruct (Z.ltb_spec x 0), (Z.leb_spec 0 x), (Z.ltb_spec x SSD1306_WIDTH),
    (Z.geb_spec x SSD1306_WIDTH), (Z.ltb_spec y 0), (Z.leb_spec 0 y),
    (Z.ltb_spec y SSD1306_HEIGHT), (Z.geb_spec y SSD1306_HEIGHT);
    simpl; try reflexivity; lia.
Qed.

Lemma in_display_bounds (x y : Z) :
  in_display x y = true -> 0 <= x < SSD1306_WIDTH /\ 0 <= y < SSD1306_HEIGHT.
Proof. unfold in_display. rewrite !andb_true_iff. lia. Qed.

Lemma land_bit_test (b k : Z) :
  0 <= k -> negb (Z.land b (Z.shiftl 1 k) =? 0) = Z.testbit b k.
Proof.
  intros Hk. rewrite Z.shiftl_1_l.
  destruct (Z.testbit b k) eqn:Hb.
  - apply negb_true_iff, Z.eqb_neq. intros H0.
    assert (Ht : Z.testbit (Z.land b (2 ^ k)) k = true)
      by (rewrite Z.land_spec, Hb, Z.pow2_bits_true by lia; reflexivity).
    rewrite H0, Z.bits_0 in Ht. discriminate.
  - apply negb_false_iff, Z.eqb_eq, Z.bits_inj'. intros n Hn.
    rewrite Z.land_spec, Z.bits_0, Z.pow2_bits_eqb by lia.
    destruct (Z.eqb_spec k n) as [->|]; [now rewrite Hb | apply andb_false_r].
Qed.

Lemma set_bit_byte (b k j : Z) :
  0 <= k < 8 -> 0 <= j < 8 ->
  Z.testbit (Z.lor b (Z.shiftl 1 k) mod 256) j = Z.testbit b j || (k =? j).
Proof.
  intros Hk Hj. change 256 with (2 ^ 8).
  rewrite Z.mod_pow2_bits_low, Z.lor_spec, Z.shiftl_1_l, Z.pow2_bits_eqb by lia.
  reflexivity.
Qed.

Lemma clear_bit_byte (b k j : Z) :
  0 <= k < 8 -> 0 <= j < 8 ->
  Z.testbit (Z.land b (Z.lnot (Z.shiftl 1 k)) mod 256) j = Z.testbit b j && negb (k =? j).
Proof.
  intros Hk Hj. change 256 with (2 ^ 8).
  rewrite Z.mod_pow2_bits_low, Z.land_spec, Z.lnot_spec, Z.shiftl_1_l, Z.pow2_bits_eqb by lia.
  reflexivity.
Qed.

Lemma byte_at_insert (fb : list Z) (i j : Z) (v : Z) :
  0 <= i -> 0 <= j ->
  byte_at (<[Z.to_nat i := v]> fb) j =
  if (i =? j) && (i <? Z.of_nat (length fb)) then v else byte_at fb j.
Proof.
  intros Hi Hj. unfold byte_at.
  destruct (Z.eqb_spec i j) as [->|Hne]; simpl.
  - destruct (Z.ltb_spec j (Z.of_nat (length fb))).
    + rewrite list_lookup_insert_eq by lia. reflexivity.
    + rewrite list_insert_ge by lia. reflexivity.
  - rewrite list_lookup_insert_ne by lia. reflexivity.
Qed.

Lemma ssd1306_set_pixel_length (x y : Z) (on : bool) (fb : list Z) :
  length (ssd1306_set_pixel x y on fb) = length fb.
Proof.
  unfold ssd1306_set_pixel. destruct (_ || _); [reflexivity|].
  destruct on; apply length_insert.
Qed.

Lemma frame_buffer_size_Z : Z.of_nat frame_buffer_size = 1024.
Proof. reflexivity. Qed.

Lemma pixel_cell (y : Z) :
  0 <= y < SSD1306_HEIGHT ->
  0 <= Z.quot y 8 < 8 /\ 0 <= Z.rem y 8 < 8 /\ y = 8 * Z.quot y 8 + Z.rem y 8.
Proof.
  unfold SSD1306_HEIGHT. intros Hy.
  pose proof (Z.quot_rem' y 8). pose proof (Z.rem_bound_pos y 8).
  pose proof (Z.quot_pos y 8). split; [|split]; lia.
Qed.

Lemma ssd1306_get_set_same (x y : Z) (on : bool) (fb : list Z) :
  length fb = frame_buffer_size ->
  ssd1306_get_pixel x y (ssd1306_set_pixel x y on fb) = in_display x y && on.
Proof.
  intros Hlen. unfold ssd1306_get_pixel, ssd1306_set_pixel. rewrite display_guard.
  destruct (in_display x y) eqn:Hin; cbn [negb andb]; [|reflexivity].
  apply in_display_bounds in Hin. destruct Hin as [Hx Hy].
  destruct (pixel_cell y Hy) as (Hq & Hr & _).
  unfold SSD1306_WIDTH in *.
  assert (Hidx : Z.quot y 8 * 128 + x < Z.of_nat (length fb))
    by (rewrite Hlen, frame_buffer_size_Z; lia).
  rewrite land_bit_test by lia.
  destruct on; rewrite byte_at_insert by lia; rewrite Z.eqb_refl;
    (destruct (Z.ltb_spec (Z.quot y 8 * 128 + x) (Z.of_nat (length fb))); [|lia]);
    cbn [andb].
  - rewrite set_bit_byte, Z.eqb_refl by lia. apply orb_true_r.
  - rewrite clear_bit_byte, Z.eqb_refl by lia. apply andb_false_r.
Qed.

Lemma ssd1306_get_set_other (x y x' y' : Z) (on : bool) (fb : list Z) :
  (x', y') <> (x, y) ->
  ssd1306_get_pixel x' y' (ssd1306_set_pixel x y on fb) = ssd1306_get_pixel x' y' fb.
Proof.
  intros Hne. unfold ssd1306_get_pixel, ssd1306_set_pixel. rewrite !display_guard.
  destruct (in_display x' y') eqn:Hin'; cbn [negb]; [|reflexivity].
  destruct (in_display x y) eqn:Hin; cbn [negb]; [|reflexivity].
  apply in_display_bounds in Hin, Hin'. destruct Hin as [Hx Hy], Hin' as [Hx' Hy'].
  destruct (pixel_cell y Hy) as (Hq & Hr & Hy8).
  destruct (pixel_cell y' Hy') as (Hq' & Hr' & Hy8').
  unfold SSD1306_WIDTH in *.
  rewrite !land_bit_test by lia.
  destruct on; rewrite byte_at_insert by lia;
    (destruct (Z.eqb_spec (Z.quot y 8 * 128 + x) (Z.quot y' 8 * 128 + x')) as [He|];
     cbn [andb]; [|reflexivity]);
    (destruct (Z.ltb_spec (Z.quot y 8 * 128 + x) (Z.of_nat (length fb)));
     cbn [andb]; [|reflexivity]);
    assert (Hbit : Z.rem y 8 <> Z.rem y' 8)
      by (intros Hb; apply Hne; f_equal; lia);
    rewrite He.
  - rewrite set_bit_byte by lia.
    destruct (Z.eqb_spec (Z.rem y 8) (Z.rem y' 8)); [contradiction | apply orb_false_r].
  - rewrite clear_bit_byte by lia.
    destruct (Z.eqb_spec (Z.rem y 8) (Z.rem y' 8)); [contradiction | apply andb_true_r].
Qed.

(** ** The depth test, pixel by pixel *)

Lemma same_frame_refl (w : world) : same_frame w w.
Proof. unfold same_frame. now destruct w as [[] ?]. Qed.

Lemma same_frame_trans (w1 w2 w3 : world) :
  same_frame w1 w2 -> same_frame w2 w3 -> same_frame w1 w3.
Proof. unfold same_frame. intros H1 H2. rewrite H2, H1. reflexivity. Qed.

Lemma same_frame_dims (w w' : world) :
  same_frame w w' -> width (fst w') = width (fst w) /\ height (fst w') = height (fst w).
Proof. unfold same_frame. intros ->. split; reflexivity. Qed.

Lemma zbuf_at_insert (zb : list float) (i j : Z) (v : float) :
  0 <= i -> 0 <= j ->
  zbuf_at (<[Z.to_nat i := v]> zb) j =
  if (i =? j) && (i <? Z.of_nat (length zb)) then v else zbuf_at zb j.
Proof.
  intros Hi Hj. unfold zbuf_at.
  destruct (Z.eqb_spec i j) as [->|Hne]; cbn [andb].
  - destruct (Z.ltb_spec j (Z.of_nat (length zb))).
    + rewrite list_lookup_insert_eq by lia. reflexivity.
    + rewrite list_insert_ge by lia. reflexivity.
  - rewrite list_lookup_insert_ne by lia. reflexivity.
Qed.

Lemma cell_index_inj (wd x y x' y' : Z) :
  0 <= x < wd -> 0 <= x' < wd -> y * wd + x = y' * wd + x' -> x = x' /\ y = y'.
Proof. intros Hx Hx' H. assert (y = y') by nia. subst. lia. Qed.

Lemma plot_wf (w : world) (x y : Z) (z b : float) :
  wf_world w -> wf_world (plot w x y z b) /\ same_frame w (plot w x y z b).
Proof.
  destruct w as [ctx fb]. unfold plot, wf_world, same_frame. cbn [fst snd].
  intros (Hw & Hh & Hz & Hfb).
  destruct (_ <? _)%f32; cbn [fst snd with_zbuffer width height zbuffer].
  - rewrite length_insert, ssd1306_set_pixel_length. auto.
  - split; [auto|]. now destruct ctx.
Qed.

Lemma plot_pixel (w : world) (x y x' y' : Z) (z b : float) :
  wf_world w ->
  0 <= x < width (fst w) -> 0 <= y < height (fst w) ->
  0 <= x' < width (fst w) -> 0 <= y' < height (fst w) ->
  pixel_state (plot w x y z b) x' y' =
  if (x' =? x) && (y' =? y) then depth_write z (shown x y b) (pixel_state w x' y')
  else pixel_state w x' y'.
Proof.
  destruct w as [ctx fb]. unfold plot, wf_world, pixel_state, depth_write, shown.
  cbn [fst snd]. intros (Hw & Hh & Hz & Hfb) Hx Hy Hx' Hy'.
  destruct (Z.eqb_spec x' x) as [->|Hnx]; cbn [andb].
  - destruct (Z.eqb_spec y' y) as [->|Hny].
    + destruct (_ <? _)%f32; cbn [fst snd with_zbuffer width height zbuffer]; [|reflexivity].
      rewrite zbuf_at_insert, Z.eqb_refl, ssd1306_get_set_same by (auto; nia).
      destruct (Z.ltb_spec (y * width ctx + x) (Z.of_nat (length (zbuffer ctx))));
        [reflexivity | nia].
    + destruct (_ <? _)%f32; cbn [fst snd with_zbuffer width height zbuffer]; [|reflexivity].
      rewrite zbuf_at_insert by nia.
      destruct (Z.eqb_spec (y * width ctx + x) (y' * width ctx + x)) as [He|];
        [apply cell_index_inj in He; lia |]. cbn [andb].
      rewrite ssd1306_get_set_other by congruence. reflexivity.
  - destruct (_ <? _)%f32; cbn [fst snd with_zbuffer width height zbuffer]; [|reflexivity].
    rewrite zbuf_at_insert by nia.
    destruct (Z.eqb_spec (y * width ctx + x) (y' * width ctx + x')) as [He|];
      [apply cell_index_inj in He; lia |]. cbn [andb].
    rewrite ssd1306_get_set_other by congruence. reflexivity.
Qed.

Lemma span_depth_shift (z dz : float) (k : nat) :
  span_depth (z + dz)%f32 dz k = span_depth z dz (S k).
Proof. unfold span_depth. now rewrite Nat.iter_succ_r. Qed.

Lemma scan_loop_pixel (y : Z) (dz b : float) (n : nat) :
  forall (w : world) (ix : Z) (z : float),
    wf_world w -> 0 <= y < height (fst w) ->
    0 <= ix -> ix + Z.of_nat n <= width (fst w) ->
    let r := for_range n ix
               (fun x '(w, z) => (plot w x y z b, (z + dz)%f32)) (w, z) in
    wf_world (fst r) /\ same_frame w (fst r) /\
    forall x' y', 0 <= x' < width (fst w) -> 0 <= y' < height (fst w) ->
      pixel_state (fst r) x' y' =
      if (y' =? y) && (ix <=? x') && (x' <? ix + Z.of_nat n)
      then depth_write (span_depth z dz (Z.to_nat (x' - ix))) (shown x' y' b)
                       (pixel_state w x' y')
      else pixel_state w x' y'.
Proof.
  induction n as [|n IH]; intros w ix z Hwf Hy Hix Hn; cbn [for_range].
  - split; [exact Hwf|]. split; [apply same_frame_refl|].
    intros x' y' _ _. cbn [fst].
    replace ((y' =? y) && (ix <=? x') && (x' <? ix + Z.of_nat 0)) with false; [reflexivity|].
    symmetry. destruct (Z.leb_spec ix x'), (Z.ltb_spec x' (ix + Z.of_nat 0));
      rewrite ?andb_false_r; try reflexivity; lia.
  - destruct (plot_wf w ix y z b Hwf) as [Hwf1 Hsf1].
    destruct (same_frame_dims _ _ Hsf1) as [Hw1 Hh1].
    specialize (IH (plot w ix y z b) (ix + 1) (z + dz)%f32 Hwf1).
    rewrite Hw1, Hh1 in IH.
    destruct (IH Hy ltac:(lia) ltac:(lia)) as (Hwf2 & Hsf2 & Hpix). clear IH.
    split; [exact Hwf2|]. split; [eapply same_frame_trans; eassumption|].
    intros x' y' Hx' Hy'. rewrite (Hpix x' y' Hx' Hy').
    rewrite (plot_pixel w ix y x' y' z b) by (auto; lia).
    destruct (Z.eqb_spec y' y) as [->|Hny]; cbn [andb];
      [|rewrite andb_false_r; reflexivity].
    destruct (Z.eqb_spec x' ix) as [->|Hnx]; cbn [andb].
    + replace (ix + 1 <=? ix) with false by (symmetry; apply Z.leb_gt; lia).
      rewrite Z.leb_refl. cbn [andb].
      replace (ix <? ix + Z.of_nat (S n)) with true by (symmetry; apply Z.ltb_lt; lia).
      rewrite Z.sub_diag. reflexivity.
    + destruct (Z.leb_spec (ix + 1) x'), (Z.leb_spec ix x'); try lia; cbn [andb];
        [|reflexivity].
      replace (x' <? ix + Z.of_nat (S n)) with (x' <? ix + 1 + Z.of_nat n)
        by (f_equal; lia).
      destruct (x' <? ix + 1 + Z.of_nat n); [|reflexivity].
      rewrite span_depth_shift.
      replace (S (Z.to_nat (x' - (ix + 1)))) with (Z.to_nat (x' - ix)) by lia.
      reflexivity.
Qed.

Lemma span_setup_bounds (ctx : render_ctx_t) (y : Z) (x1 x2 z1 z2 : float)
    (ix1 ix2 : Z) (z dz : float) :
  0 <= width ctx ->
  span_setup ctx y x1 x2 z1 z2 = Some (ix1, ix2, z, dz) ->
  0 <= y < height ctx /\ 0 <= ix1 <= width ctx /\ ix2 < width ctx.
Proof.
  intros Hw. unfold span_setup.
  destruct (Z.ltb_spec y 0), (Z.geb_spec y (height ctx)); cbn [orb]; try discriminate.
  destruct (x1 >? x2)%f32;
    match goal with
    | |- context [(to_int ?a <? 0) || (to_int ?b >=? width ctx)] =>
        destruct (Z.ltb_spec (to_int a) 0), (Z.geb_spec (to_int b) (width ctx));
        cbn [orb]; try discriminate;
        destruct (Z.ltb_spec (to_int b) 0), (Z.geb_spec (to_int a) (width ctx));
        intros [= <- <- _ _]; lia
    end.
Qed.

Lemma span_setup_frame (ctx : render_ctx_t) (zb : list float) (y : Z) (x1 x2 z1 z2 : float) :
  span_setup (with_zbuffer ctx zb) y x1 x2 z1 z2 = span_setup ctx y x1 x2 z1 z2.
Proof. reflexivity. Qed.

Lemma draw_scanline_pixel (w : world) (y : Z) (x1 x2 z1 z2 b : float) (c : color_t) :
  wf_world w ->
  let w' := draw_scanline w y x1 x2 z1 z2 b c in
  wf_world w' /\ same_frame w w' /\
  forall x' y', 0 <= x' < width (fst w) -> 0 <= y' < height (fst w) ->
    pixel_state w' x' y' =
    if y' =? y
    then write_opt (scanline_depth (fst w) y x1 x2 z1 z2 x') (shown x' y' b)
                   (pixel_state w x' y')
    else pixel_state w x' y'.
Proof.
  intros Hwf. unfold draw_scanline, scanline_depth.
  destruct (span_setup (fst w) y x1 x2 z1 z2) as [[[[ix1 ix2] z] dz]|] eqn:E.
  - destruct Hwf as (Hw & Hrest).
    destruct (span_setup_bounds _ _ _ _ _ _ _ _ _ _ Hw E) as (Hy & Hix1 & Hix2).
    destruct (scan_loop_pixel y dz b (Z.to_nat (ix2 - ix1 + 1)) w ix1 z
                (conj Hw Hrest) Hy ltac:(lia) ltac:(lia)) as (Hwf' & Hsf & Hpix).
    cbv zeta. split; [exact Hwf'|]. split; [exact Hsf|].
    intros x' y' Hx' Hy'. rewrite (Hpix x' y' Hx' Hy').
    destruct (y' =? y); cbn [andb]; [|reflexivity].
    destruct (Z.leb_spec ix1 x'); cbn [andb]; [|reflexivity].
    destruct (Z.ltb_spec x' (ix1 + Z.of_nat (Z.to_nat (ix2 - ix1 + 1)))),
      (Z.leb_spec x' ix2); try lia; reflexivity.
  - cbv zeta. split; [exact Hwf|]. split; [apply same_frame_refl|].
    intros x' y' _ _. destruct (y' =? y); reflexivity.
Qed.

Lemma row_depth_frame (w w' : world) (p0 p1 p2 : vec3_t) (x' y' : Z) :
  same_frame w w' -> row_depth (fst w') p0 p1 p2 x' y' = row_depth (fst w) p0 p1 p2 x' y'.
Proof.
  unfold same_frame, row_depth, scanline_depth. intros ->.
  destruct (triangle_edges p0 p1 p2 y') as [[[xl xs] zl] zs].
  now rewrite span_setup_frame.
Qed.

Lemma rows_loop_pixel (p0 p1 p2 : vec3_t) (b : float) (c : color_t) (n : nat) :
  forall (w : world) (iy : Z),
    wf_world w ->
    let r := for_range n iy
               (fun y w =>
                  let '(x_long, x_short, z_long, z_short) := triangle_edges p0 p1 p2 y in
                  draw_scanline w y x_long x_short z_long z_short b c) w in
    wf_world r /\ same_frame w r /\
    forall x' y', 0 <= x' < width (fst w) -> 0 <= y' < height (fst w) ->
      pixel_state r x' y' =
      if (iy <=? y') && (y' <? iy + Z.of_nat n)
      then write_opt (row_depth (fst w) p0 p1 p2 x' y') (shown x' y' b) (pixel_state w x' y')
      else pixel_state w x' y'.
Proof.
  induction n as [|n IH]; intros w iy Hwf; cbn [for_range].
  - split; [exact Hwf|]. split; [apply same_frame_refl|].
    intros x' y' _ _.
    destruct (Z.leb_spec iy y'), (Z.ltb_spec y' (iy + Z.of_nat 0)); try reflexivity; lia.
  - destruct (triangle_edges p0 p1 p2 iy) as [[[xl xs] zl] zs] eqn:Eedges.
    destruct (draw_scanline_pixel w iy xl xs zl zs b c Hwf) as (Hwf1 & Hsf1 & Hpix1).
    destruct (same_frame_dims _ _ Hsf1) as [Hw1 Hh1].
    destruct (IH (draw_scanline w iy xl xs zl zs b c) (iy + 1) Hwf1) as (Hwf2 & Hsf2 & Hpix2).
    clear IH. rewrite Hw1, Hh1 in Hpix2.
    split; [exact Hwf2|]. split; [eapply same_frame_trans; eassumption|].
    intros x' y' Hx' Hy'. rewrite (Hpix2 x' y' Hx' Hy'), (Hpix1 x' y' Hx' Hy').
    rewrite (row_depth_frame w _ p0 p1 p2 x' y' Hsf1).
    destruct (Z.eqb_spec y' iy) as [->|Hny].
    + replace (iy + 1 <=? iy) with false by (symmetry; apply Z.leb_gt; lia).
      rewrite Z.leb_refl. cbn [andb].
      replace (iy <? iy + Z.of_nat (S n)) with true by (symmetry; apply Z.ltb_lt; lia).
      unfold row_depth. rewrite Eedges. reflexivity.
    + destruct (Z.leb_spec (iy + 1) y'), (Z.leb_spec iy y'); try lia; cbn [andb];
        [|reflexivity].
      replace (y' <? iy + Z.of_nat (S n)) with (y' <? iy + 1 + Z.of_nat n)
        by (f_equal; lia).
      reflexivity.
Qed.

Lemma triangle_depth_frame (w w' : world) (p0 p1 p2 : vec3_t) (x' y' : Z) :
  same_frame w w' ->
  triangle_depth (fst w') p0 p1 p2 x' y' = triangle_depth (fst w) p0 p1 p2 x' y'.
Proof.
  intros Hsf. unfold triangle_depth.
  destruct (sort_by_y p0 p1 p2) as [[q0 q1] q2].
  rewrite (row_depth_frame w w' q0 q1 q2 x' y' Hsf).
  unfold same_frame in Hsf. rewrite Hsf. reflexivity.
Qed.

Lemma draw_triangle_flat_pixel (w : world) (p0 p1 p2 : vec3_t) (b : float) (c : color_t) :
  wf_world w ->
  let w' := draw_triangle_flat w p0 p1 p2 b c in
  wf_world w' /\ same_frame w w' /\
  forall x' y', 0 <= x' < width (fst w) -> 0 <= y' < height (fst w) ->
    pixel_state w' x' y' =
    write_opt (triangle_depth (fst w) p0 p1 p2 x' y') (shown x' y' b) (pixel_state w x' y').
Proof.
  intros Hwf. unfold draw_triangle_flat, triangle_depth.
  destruct (sort_by_y p0 p1 p2) as [[q0 q1] q2].
  destruct (triangle_rows (fst w) q0 q2) as [[iy0 iy2]|].
  - destruct (rows_loop_pixel q0 q1 q2 b c (Z.to_nat (iy2 - iy0 + 1)) w iy0 Hwf)
      as (Hwf' & Hsf & Hpix).
    cbv zeta. split; [exact Hwf'|]. split; [exact Hsf|].
    intros x' y' Hx' Hy'. rewrite (Hpix x' y' Hx' Hy').
    destruct (Z.leb_spec iy0 y'); cbn [andb]; [|reflexivity].
    destruct (Z.ltb_spec y' (iy0 + Z.of_nat (Z.to_nat (iy2 - iy0 + 1)))),
      (Z.leb_spec y' iy2); try lia; reflexivity.
  - cbv zeta. split; [exact Hwf|]. split; [apply same_frame_refl|]. reflexivity.
Qed.

Lemma triangle_depth_in_range (ctx : render_ctx_t) (p0 p1 p2 : vec3_t) (x y : Z) (z : float) :
  0 <= width ctx ->
  triangle_depth ctx p0 p1 p2 x y = Some z ->
  0 <= x < width ctx /\ 0 <= y < height ctx.
Proof.
  intros Hw. unfold triangle_depth, row_depth, scanline_depth.
  destruct (sort_by_y p0 p1 p2) as [[q0 q1] q2].
  destruct (triangle_rows ctx q0 q2) as [[iy0 iy2]|]; [|discriminate].
  destruct (Z.leb_spec iy0 y), (Z.leb_spec y iy2); cbn [andb]; try discriminate.
  destruct (triangle_edges q0 q1 q2 y) as [[[xl xs] zl] zs].
  destruct (span_setup ctx y xl xs zl zs) as [[[[ix1 ix2] z'] dz]|] eqn:E; [|discriminate].
  destruct (span_setup_bounds _ _ _ _ _ _ _ _ _ _ Hw E) as (Hy & Hix1 & Hix2).
  destruct (Z.leb_spec ix1 x), (Z.leb_spec x ix2); cbn [andb]; try discriminate.
  intros _. lia.
Qed.

(** *** After [render3d_clear] *)

Lemma clear_loop (n : nat) :
  forall (i : Z) (zb : list float),
    0 <= i ->
    let r := for_range n i (fun i zb => <[Z.to_nat i := f1000]> zb) zb in
    length r = length zb /\
    forall j, 0 <= j ->
      zbuf_at r j =
      if (i <=? j) && (j <? i + Z.of_nat n) && (j <? Z.of_nat (length zb)) then f1000
      else zbuf_at zb j.
Proof.
  induction n as [|n IH]; intros i zb Hi; cbn [for_range].
  - split; [reflexivity|]. intros j Hj.
    destruct (Z.leb_spec i j), (Z.ltb_spec j (i + Z.of_nat 0)); try reflexivity; lia.
  - destruct (IH (i + 1) (<[Z.to_nat i := f1000]> zb) ltac:(lia)) as [Hlen Hcell]. clear IH.
    rewrite length_insert in Hlen, Hcell. split; [exact Hlen|].
    intros j Hj. rewrite (Hcell j Hj), zbuf_at_insert by lia.
    destruct (Z.eqb_spec i j) as [->|Hne].
    + replace (j + 1 <=? j) with false by (symmetry; apply Z.leb_gt; lia).
      rewrite Z.leb_refl. cbn [andb].
      replace (j <? j + Z.of_nat (S n)) with true by (symmetry; apply Z.ltb_lt; lia).
      cbn [andb]. destruct (j <? Z.of_nat (length zb)); reflexivity.
    + cbn [andb].
      destruct (Z.leb_spec (i + 1) j), (Z.leb_spec i j); try lia; cbn [andb];
        [|reflexivity].
      replace (j <? i + Z.of_nat (S n)) with (j <? i + 1 + Z.of_nat n) by (f_equal; lia).
      reflexivity.
Qed.

Lemma ssd1306_get_pixel_clear (x y : Z) (fb : list Z) :
  ssd1306_get_pixel x y (ssd1306_clear fb) = false.
Proof.
  unfold ssd1306_get_pixel, ssd1306_clear. destruct (_ || _); [reflexivity|].
  unfold byte_at.
  destruct (replicate frame_buffer_size 0 !! _) as [v|] eqn:E; [|reflexivity].
  apply lookup_replicate in E. destruct E as [-> _]. reflexivity.
Qed.

Lemma render3d_clear_pixel (w : world) :
  0 <= width (fst w) -> 0 <= height (fst w) ->
  Z.of_nat (length (zbuffer (fst w))) = width (fst w) * height (fst w) ->
  wf_world (render3d_clear w) /\ same_frame w (render3d_clear w) /\
  forall x y, 0 <= x < width (fst w) -> 0 <= y < height (fst w) ->
    pixel_state (render3d_clear w) x y = (f1000, false).
Proof.
  destruct w as [ctx fb]. cbn [fst snd]. intros Hw Hh Hlen.
  unfold render3d_clear.
  destruct (clear_loop (Z.to_nat (width ctx * height ctx)) 0 (zbuffer ctx) ltac:(lia))
    as [Hl Hcell].
  split; [|split].
  - unfold wf_world. cbn [fst snd with_zbuffer width height zbuffer].
    rewrite Hl. unfold ssd1306_clear. rewrite length_replicate. auto.
  - unfold same_frame. reflexivity.
  - intros x y Hx Hy. unfold pixel_state. cbn [fst snd with_zbuffer width height zbuffer].
    rewrite ssd1306_get_pixel_clear, Hcell by nia. f_equal.
    destruct (Z.leb_spec 0 (y * width ctx + x)); [|nia].
    destruct (Z.ltb_spec (y * width ctx + x) (0 + Z.of_nat (Z.to_nat (width ctx * height ctx))));
      [|nia].
    destruct (Z.ltb_spec (y * width ctx + x) (Z.of_nat (length (zbuffer ctx)))); [|nia].
    reflexivity.
Qed.

(** *** Two fragments at one pixel *)

Lemma SFeqb_sym (x y : float) : SFeqb x y = SFeqb y x.
Proof.
  unfold SFeqb. rewrite (SFcompare_antisym y x).
  destruct (SFcompare y x) as [[]|]; reflexivity.
Qed.

Lemma flt_total' (x y z : float) :
  SFeqb x y = false -> flt x z = true -> flt y z = true -> flt y x = false ->
  flt x y = true.
Proof.
  intros He Hx Hy Hyx. apply flt_total; [now rewrite SFeqb_sym | | exact Hyx].
  apply SFcompare_defined; eapply flt_comparable_l; eassumption.
Qed.

Lemma depth_write_commute (zA zB : float) (vA vB : bool) (old : float * bool) :
  SFeqb zA zB = false ->
  depth_write zB vB (depth_write zA vA old) = depth_write zA vA (depth_write zB vB old).
Proof.
  intros He. unfold depth_write.
  destruct (flt zA (fst old)) eqn:HA, (flt zB (fst old)) eqn:HB; cbn [fst].
  - destruct (flt zB zA) eqn:HBA.
    + now rewrite (flt_asym _ _ HBA).
    + now rewrite (flt_total' zA zB (fst old) He HA HB HBA).
  - rewrite ?HA. destruct (flt zB zA) eqn:HBA; [|reflexivity].
    now rewrite (flt_trans _ _ _ HBA HA) in HB.
  - rewrite ?HB. destruct (flt zA zB) eqn:HAB; [|reflexivity].
    now rewrite (flt_trans _ _ _ HAB HB) in HA.
  - now rewrite ?HA, ?HB.
Qed.

Lemma depth_write_nearer (zA zB : float) (vA vB : bool) (old : float * bool) :
  flt zA zB = true -> flt zA (fst old) = true ->
  depth_write zB vB (depth_write zA vA old) = (zA, vA).
Proof.
  intros HAB HA. unfold depth_write. rewrite HA. cbn [fst].
  now rewrite (flt_asym _ _ HAB).
Qed.

(** Two triangles drawn one after the other, observed at one pixel. *)
Lemma two_triangles_pixel (w : world) (pA0 pA1 pA2 pB0 pB1 pB2 : vec3_t) (bA bB : float)
    (cA cB : color_t) (x y : Z) :
  wf_world w -> 0 <= x < width (fst w) -> 0 <= y < height (fst w) ->
  pixel_state (draw_triangle_flat (draw_triangle_flat w pA0 pA1 pA2 bA cA) pB0 pB1 pB2 bB cB)
              x y =
  write_opt (triangle_depth (fst w) pB0 pB1 pB2 x y) (shown x y bB)
    (write_opt (triangle_depth (fst w) pA0 pA1 pA2 x y) (shown x y bA) (pixel_state w x y)).
Proof.
  intros Hwf Hx Hy.
  destruct (draw_triangle_flat_pixel w pA0 pA1 pA2 bA cA Hwf) as (Hwf1 & Hsf1 & Hpix1).
  destruct (draw_triangle_flat_pixel _ pB0 pB1 pB2 bB cB Hwf1) as (_ & _ & Hpix2).
  destruct (same_frame_dims _ _ Hsf1) as [Hw1 Hh1]. rewrite Hw1, Hh1 in Hpix2.
  rewrite (Hpix2 x y Hx Hy), (Hpix1 x y Hx Hy).
  now rewrite (triangle_depth_frame w _ pB0 pB1 pB2 x y Hsf1).
Qed.

(** C5, as the code has it: after a clear, take two triangles that both
    cover a pixel, with depths there that differ.  Drawn in either order they
    leave the same depth and the same displayed bit at that pixel.  When the
    nearer depth is below the clear value 1000, the pixel holds the nearer
    triangle's depth and shows the nearer triangle's dithered value (off for
    a pixel outside the 128x64 display). *)
Theorem depth_test_order_independent (w : world)
    (pA0 pA1 pA2 pB0 pB1 pB2 : vec3_t) (bA bB : float) (cA cB : color_t)
    (x y : Z) (zA zB : float) :
  0 <= width (fst w) -> 0 <= height (fst w) ->
  Z.of_nat (length (zbuffer (fst w))) = width (fst w) * height (fst w) ->
  triangle_depth (fst w) pA0 pA1 pA2 x y = Some zA ->
  triangle_depth (fst w) pB0 pB1 pB2 x y = Some zB ->
  SFeqb zA zB = false ->
  let w0 := render3d_clear w in
  let wAB := draw_triangle_flat (draw_triangle_flat w0 pA0 pA1 pA2 bA cA) pB0 pB1 pB2 bB cB in
  let wBA := draw_triangle_flat (draw_triangle_flat w0 pB0 pB1 pB2 bB cB) pA0 pA1 pA2 bA cA in
  pixel_state wAB x y = pixel_state wBA x y /\
  ((zA <? zB)%f32 = true -> (zA <? f1000)%f32 = true ->
     pixel_state wAB x y = (zA, shown x y bA) /\
     pixel_state wBA x y = (zA, shown x y bA)) /\
  ((zB <? zA)%f32 = true -> (zB <? f1000)%f32 = true ->
     pixel_state wAB x y = (zB, shown x y bB) /\
     pixel_state wBA x y = (zB, shown x y bB)).
Proof.
  intros Hw Hh Hlen HA HB Hne w0 wAB wBA.
  destruct (triangle_depth_in_range _ _ _ _ _ _ _ Hw HA) as [Hx Hy].
  destruct (render3d_clear_pixel w Hw Hh Hlen) as (Hwf0 & Hsf0 & Hpix0).
  destruct (same_frame_dims _ _ Hsf0) as [Hw0 Hh0].
  fold w0 in Hwf0, Hsf0, Hpix0, Hw0, Hh0.
  assert (Hx0 : 0 <= x < width (fst w0)) by (rewrite Hw0; exact Hx).
  assert (Hy0 : 0 <= y < height (fst w0)) by (rewrite Hh0; exact Hy).
  assert (HAB : pixel_state wAB x y
                = depth_write zB (shown x y bB) (depth_write zA (shown x y bA) (f1000, false))).
  { unfold wAB. rewrite (two_triangles_pixel w0) by assumption.
    rewrite !(triangle_depth_frame w w0) by exact Hsf0.
    rewrite HA, HB, Hpix0 by assumption. reflexivity. }
  assert (HBA : pixel_state wBA x y
                = depth_write zA (shown x y bA) (depth_write zB (shown x y bB) (f1000, false))).
  { unfold wBA. rewrite (two_triangles_pixel w0) by assumption.
    rewrite !(triangle_depth_frame w w0) by exact Hsf0.
    rewrite HA, HB, Hpix0 by assumption. reflexivity. }
  rewrite HAB, HBA. split; [|split].
  - apply depth_write_commute. exact Hne.
  - intros Hlt Hz. rewrite <- (depth_write_commute zA zB) by exact Hne.
    split; apply depth_write_nearer; assumption.
  - intros Hlt Hz. rewrite (depth_write_commute zA zB) by exact Hne.
    split; apply depth_write_nearer; assumption.
Qed.

Lemma depth_test_order_independent_witness :
  let w0 := render3d_clear world_fresh in
  let wAB :=
    draw_triangle_flat
      (draw_triangle_flat w0 (mk_vec3 f0 f0 f0_25) (mk_vec3 f4 f0 f0_25) (mk_vec3 f0 f4 f0_25)
         f1 white)
      (mk_vec3 f0 f0 f0_5) (mk_vec3 f4 f0 f0_5) (mk_vec3 f0 f4 f0_5) f0 white in
  let wBA :=
    draw_triangle_flat
      (draw_triangle_flat w0 (mk_vec3 f0 f0 f0_5) (mk_vec3 f4 f0 f0_5) (mk_vec3 f0 f4 f0_5)
         f0 white)
      (mk_vec3 f0 f0 f0_25) (mk_vec3 f4 f0 f0_25) (mk_vec3 f0 f4 f0_25) f1 white in
  pixel_state wAB 1 1 = pixel_state wBA 1 1 /\
  pixel_state wAB 1 1 = (f0_25, shown 1 1 f1) /\
  pixel_state wBA 1 1 = (f0_25, shown 1 1 f1).
Proof.
  assert (Hw : 0 <= width (fst world_fresh)) by (vm_compute; discriminate).
  assert (Hh : 0 <= height (fst world_fresh)) by (vm_compute; discriminate).
  assert (Hlen : Z.of_nat (length (zbuffer (fst world_fresh)))
                 = width (fst world_fresh) * height (fst world_fresh))
    by (vm_compute; reflexivity).
  assert (HA : triangle_depth (fst world_fresh)
                 (mk_vec3 f0 f0 f0_25) (mk_vec3 f4 f0 f0_25) (mk_vec3 f0 f4 f0_25) 1 1
               = Some f0_25) by (vm_compute; reflexivity).
  assert (HB : triangle_depth (fst world_fresh)
                 (mk_vec3 f0 f0 f0_5) (mk_vec3 f4 f0 f0_5) (mk_vec3 f0 f4 f0_5) 1 1
               = Some f0_5) by (vm_compute; reflexivity).
  assert (Hne : SFeqb f0_25 f0_5 = false) by (vm_compute; reflexivity).
  destruct (depth_test_order_independent world_fresh
              (mk_vec3 f0 f0 f0_25) (mk_vec3 f4 f0 f0_25) (mk_vec3 f0 f4 f0_25)
              (mk_vec3 f0 f0 f0_5) (mk_vec3 f4 f0 f0_5) (mk_vec3 f0 f4 f0_5)
              f1 f0 white white 1 1 f0_25 f0_5 Hw Hh Hlen HA HB Hne) as (Heq & Hnear & _).
  cbv zeta. split; [exact Heq|].
  apply Hnear; vm_compute; reflexivity.
Defined.

(** Fragments at or beyond the clear value never pass the depth test. *)
Lemma two_triangles_beyond_clear (w : world)
    (pA0 pA1 pA2 pB0 pB1 pB2 : vec3_t) (bA bB : float) (cA cB : color_t)
    (x y : Z) (zA zB : float) :
  0 <= width (fst w) -> 0 <= height (fst w) ->
  Z.of_nat (length (zbuffer (fst w))) = width (fst w) * height (fst w) ->
  triangle_depth (fst w) pA0 pA1 pA2 x y = Some zA ->
  triangle_depth (fst w) pB0 pB1 pB2 x y = Some zB ->
  (zA <? f1000)%f32 = false -> (zB <? f1000)%f32 = false ->
  pixel_state
    (draw_triangle_flat (draw_triangle_flat (render3d_clear w) pA0 pA1 pA2 bA cA)
       pB0 pB1 pB2 bB cB) x y = (f1000, false).
Proof.
  intros Hw Hh Hlen HA HB HzA HzB.
  destruct (triangle_depth_in_range _ _ _ _ _ _ _ Hw HA) as [Hx Hy].
  destruct (render3d_clear_pixel w Hw Hh Hlen) as (Hwf0 & Hsf0 & Hpix0).
  destruct (same_frame_dims _ _ Hsf0) as [Hw0 Hh0].
  set (w0 := render3d_clear w) in *.
  assert (Hx0 : 0 <= x < width (fst w0)) by (rewrite Hw0; exact Hx).
  assert (Hy0 : 0 <= y < height (fst w0)) by (rewrite Hh0; exact Hy).
  rewrite (two_triangles_pixel w0) by assumption.
  rewrite !(triangle_depth_frame w w0) by exact Hsf0.
  rewrite HA, HB, Hpix0 by assumption.
  unfold write_opt, depth_write. cbn [fst]. rewrite HzA. cbn [fst]. now rewrite HzB.
Qed.

(** C5 as stated fails when both depths are at or beyond the clear value:
    two triangles at depths 2000 and 3000 cover pixel (1, 1); the nearer one is
    fully bright, so its pixel value is on, yet after clearing and drawing both
    the pixel is off and the stored depth is still 1000. *)
Lemma depth_test_counterexample :
  let w0 := render3d_clear world_fresh in
  let wAB :=
    draw_triangle_flat
      (draw_triangle_flat w0 (mk_vec3 f0 f0 f2000) (mk_vec3 f4 f0 f2000) (mk_vec3 f0 f4 f2000)
         f1 white)
      (mk_vec3 f0 f0 f3000) (mk_vec3 f4 f0 f3000) (mk_vec3 f0 f4 f3000) f0 white in
  triangle_depth (fst world_fresh)
    (mk_vec3 f0 f0 f2000) (mk_vec3 f4 f0 f2000) (mk_vec3 f0 f4 f2000) 1 1 = Some f2000 /\
  triangle_depth (fst world_fresh)
    (mk_vec3 f0 f0 f3000) (mk_vec3 f4 f0 f3000) (mk_vec3 f0 f4 f3000) 1 1 = Some f3000 /\
  (f2000 <? f3000)%f32 = true /\
  shown 1 1 f1 = true /\
  pixel_state wAB 1 1 = (f1000, false).
Proof.
  cbv zeta.
  assert (Hw : 0 <= width (fst world_fresh)) by (vm_compute; discriminate).
  assert (Hh : 0 <= height (fst world_fresh)) by (vm_compute; discriminate).
  assert (Hlen : Z.of_nat (length (zbuffer (fst world_fresh)))
                 = width (fst world_fresh) * height (fst world_fresh))
    by (vm_compute; reflexivity).
  assert (HA : triangle_depth (fst world_fresh)
                 (mk_vec3 f0 f0 f2000) (mk_vec3 f4 f0 f2000) (mk_vec3 f0 f4 f2000) 1 1
               = Some f2000) by (vm_compute; reflexivity).
  assert (HB : triangle_depth (fst world_fresh)
                 (mk_vec3 f0 f0 f3000) (mk_vec3 f4 f0 f3000) (mk_vec3 f0 f4 f3000) 1 1
               = Some f3000) by (vm_compute; reflexivity).
  assert (HzA : (f2000 <? f1000)%f32 = false) by (vm_compute; reflexivity).
  assert (HzB : (f3000 <? f1000)%f32 = false) by (vm_compute; reflexivity).
  split; [exact HA|]. split; [exact HB|].
  split; [vm_compute; reflexivity|]. split; [vm_compute; reflexivity|].
  exact (two_triangles_beyond_clear world_fresh _ _ _ _ _ _ f1 f0 white white 1 1
           f2000 f3000 Hw Hh Hlen HA HB HzA HzB).
Qed.

(** ** The sphere builder *)

Lemma clamp_segments_range (s : Z) : 4 <= clamp_segments s <= 16.
Proof.
  unfold clamp_segments. destruct (Z.ltb_spec s 4).
  - cbn. lia.
  - destruct (Z.gtb_spec s 16); lia.
Qed.

Lemma clamp_segments_fixed (s : Z) : 4 <= s <= 16 -> clamp_segments s = s.
Proof.
  intros Hs. unfold clamp_segments.
  destruct (Z.ltb_spec s 4); [lia|]. destruct (Z.gtb_spec s 16); lia.
Qed.

(** A loop whose body adds [step] to the counter it threads adds
    [step * n] over [n] iterations. *)
Lemma for_range_counter {A : Type} (body : Z -> A * Z -> A * Z) (step : Z) :
  (forall i s, snd (body i s) = snd s + step) ->
  forall (n : nat) (i : Z) (s : A * Z),
    snd (for_range n i body s) = snd s + step * Z.of_nat n.
Proof.
  intros Hbody. induction n as [|n IH]; intros i s; cbn [for_range].
  - lia.
  - rewrite IH, Hbody. lia.
Qed.

Lemma mesh_create_sphere_clamped (cosf sinf : float -> float) (alloc : bool)
    (radius : float) (segments : Z) :
  mesh_create_sphere cosf sinf alloc radius segments
  = mesh_create_sphere cosf sinf alloc radius (clamp_segments segments).
Proof.
  unfold mesh_create_sphere.
  fold (clamp_segments segments). fold (clamp_segments (clamp_segments segments)).
  rewrite (clamp_segments_fixed (clamp_segments segments)) by apply clamp_segments_range.
  reflexivity.
Qed.

Lemma mesh_create_sphere_built (cosf sinf : float -> float) (radius : float) (segments : Z) :
  exists m,
    mesh_create_sphere cosf sinf true radius segments = Some m /\
    vertex_count m = (clamp_segments segments - 1) * (2 * clamp_segments segments) + 2 /\
    face_count m = (clamp_segments segments - 2) * (2 * clamp_segments segments) * 2
                   + 2 * clamp_segments segments * 2.
Proof.
  pose proof (clamp_segments_range segments) as Hc.
  unfold mesh_create_sphere. fold (clamp_segments segments).
  set (c := clamp_segments segments) in *.
  unfold mesh_create. cbn [vertices faces normals normal_count position rotation scale].
  destruct (for_range (Z.to_nat (c - 1)) 1 _ _) as [vs vi] eqn:Ev.
  apply (f_equal snd) in Ev. rewrite (for_range_counter _ (c * 2)) in Ev.
  2:{ intros i [vs' vi']. rewrite (for_range_counter _ 1); [cbn [snd]; lia|].
      intros j [a b]. reflexivity. }
  cbn [snd] in Ev.
  destruct (for_range (Z.to_nat (c * 2)) 0 _ _) as [fs1 fi1] eqn:E1.
  apply (f_equal snd) in E1. rewrite (for_range_counter _ 1) in E1.
  2:{ intros j [a b]. reflexivity. }
  cbn [snd] in E1.
  destruct (for_range (Z.to_nat (c - 2)) 0 _ _) as [fs2 fi2] eqn:E2.
  apply (f_equal snd) in E2. rewrite (for_range_counter _ (2 * (c * 2))) in E2.
  2:{ intros i [fs' fi']. rewrite (for_range_counter _ 2); [cbn [snd]; lia|].
      intros j [a b]. cbn [snd]. lia. }
  cbn [snd] in E2.
  destruct (for_range (Z.to_nat (c * 2)) 0 _ _) as [fs3 fi3] eqn:E3.
  apply (f_equal snd) in E3. rewrite (for_range_counter _ 1) in E3.
  2:{ intros j [a b]. reflexivity. }
  cbn [snd] in E3.
  eexists. split; [reflexivity|].
  unfold mesh_calculate_normals. cbn [vertex_count face_count].
  rewrite !Z2Nat.id in * by lia.
  split; (rewrite Z.mod_small by nia); nia.
Qed.

(** C6: [mesh_create_sphere] clamps [segments] into [4, 16], so every input
    builds the same mesh as its clamped value (100 builds what 16 builds);
    with [rings] the clamped value and [slices] twice that, the mesh returned
    when allocation succeeds has [(rings - 1) * slices + 2] vertices and
    [(rings - 2) * slices * 2 + slices * 2] faces. *)
Theorem mesh_create_sphere_counts (cosf sinf : float -> float) (radius : float)
    (segments : Z) :
  let rings := clamp_segments segments in
  let slices := 2 * rings in
  rings = Z.max 4 (Z.min 16 segments) /\
  mesh_create_sphere cosf sinf true radius segments
    = mesh_create_sphere cosf sinf true radius rings /\
  mesh_create_sphere cosf sinf true radius 100 = mesh_create_sphere cosf sinf true radius 16 /\
  (exists m,
     mesh_create_sphere cosf sinf true radius segments = Some m /\
     vertex_count m = (rings - 1) * slices + 2 /\
     face_count m = (rings - 2) * slices * 2 + slices * 2) /\
  mesh_create_sphere cosf sinf false radius segments = None.
Proof.
  intros rings slices. split; [|split; [|split; [|split]]].
  - unfold rings, clamp_segments.
    destruct (Z.ltb_spec segments 4); [cbn; lia|].
    destruct (Z.gtb_spec segments 16); lia.
  - apply mesh_create_sphere_clamped.
  - rewrite (mesh_create_sphere_clamped cosf sinf true radius 100),
            (mesh_create_sphere_clamped cosf sinf true radius 16).
    reflexivity.
  - apply mesh_create_sphere_built.
  - reflexivity.
Qed.

(** ** The OBJ loader *)

(** *** More fuel does not change a finished run *)

Lemma count_face_verts_mono (fuel : nat) :
  forall fuel' line face_verts r,
    count_face_verts fuel line face_verts = Some r -> (fuel <= fuel')%nat ->
    count_face_verts fuel' line face_verts = Some r.
Proof.
  induction fuel as [|fuel IH]; intros [|fuel'] line fv r H Hle;
    try discriminate; try lia.
  cbn [count_face_verts] in *.
  destruct (at_eol line); [exact H|].
  destruct (negb (at_eol (skip_ws line))); (apply IH; [exact H | lia]).
Qed.

Lemma count_loop_mono (fuel : nat) :
  forall fuel' p verts faces r,
    count_loop fuel p verts faces = Some r -> (fuel <= fuel')%nat ->
    count_loop fuel' p verts faces = Some r.
Proof.
  induction fuel as [|fuel IH]; intros [|fuel'] p verts faces r H Hle;
    try discriminate; try lia.
  cbn [count_loop] in *.
  destruct p as [|c p]; [exact H|].
  set (q := skip_ws (String c p)) in *.
  destruct (starts_record "v" q).
  - apply IH; [exact H | lia].
  - destruct (starts_record "f" q).
    + destruct (count_face_verts fuel (advance 2 q) 0) as [fv|] eqn:E; [|discriminate].
      rewrite (count_face_verts_mono fuel fuel' _ _ _ E) by lia.
      apply IH; [exact H | lia].
    + apply IH; [exact H | lia].
Qed.

Lemma face_index_loop_mono (fuel : nat) :
  forall fuel' p vi face_indices nv r,
    face_index_loop fuel p vi face_indices nv = Some r -> (fuel <= fuel')%nat ->
    face_index_loop fuel' p vi face_indices nv = Some r.
Proof.
  induction fuel as [|fuel IH]; intros [|fuel'] p vi fis nv r H Hle;
    try discriminate; try lia.
  cbn [face_index_loop] in *.
  destruct (at_eol p || negb (nv <? 16)); [exact H|].
  destruct (negb (at_eol (skip_ws p)) && _); [|apply IH; [exact H | lia]].
  destruct (parse_face_index (skip_ws p)) as [idx p'].
  destruct ((_ >=? 0) && _); (apply IH; [exact H | lia]).
Qed.

Lemma parse_loop_mono (strtof : string -> float * string) (fuel : nat) :
  forall fuel' p face_count default_color vs fs vi fi r,
    parse_loop strtof fuel p face_count default_color vs fs vi fi = Some r ->
    (fuel <= fuel')%nat ->
    parse_loop strtof fuel' p face_count default_color vs fs vi fi = Some r.
Proof.
  induction fuel as [|fuel IH]; intros [|fuel'] p fc col vs fs vi fi r H Hle;
    try discriminate; try lia.
  cbn [parse_loop] in *.
  destruct p as [|c p]; [exact H|].
  set (q := skip_ws (String c p)) in *.
  destruct (starts_record "v" q).
  - destruct (parse_float strtof (advance 2 q)) as [x p1].
    destruct (parse_float strtof p1) as [y p2].
    destruct (parse_float strtof p2) as [z p3].
    apply IH; [exact H | lia].
  - destruct (starts_record "f" q).
    + destruct (face_index_loop fuel (advance 2 q) vi (replicate 16 0) 0)
        as [[[p' fis] nv]|] eqn:E; [|discriminate].
      rewrite (face_index_loop_mono fuel fuel' _ _ _ _ _ E) by lia.
      destruct (fan_loop _ _ _ _ _ _ _) as [fs' fi'].
      apply IH; [exact H | lia].
    + apply IH; [exact H | lia].
Qed.

Lemma obj_load_from_string_mono (strtof : string -> float * string) (fuel fuel' : nat)
    (alloc : bool) (obj_data : option string) (default_color : color_t)
    (error_msg : string) (r : option mesh_t * string) :
  obj_load_from_string strtof fuel alloc obj_data default_color error_msg = Some r ->
  (fuel <= fuel')%nat ->
  obj_load_from_string strtof fuel' alloc obj_data default_color error_msg = Some r.
Proof.
  unfold obj_load_from_string, count_elements. intros H Hle.
  destruct obj_data as [data|]; [|exact H].
  destruct (count_loop fuel data 0 0) as [[vc fc]|] eqn:Ec; [|discriminate].
  rewrite (count_loop_mono fuel fuel' _ _ _ _ Ec Hle).
  destruct (vc =? 0); [exact H|].
  destruct ((vc >? MAX_VERTICES) || (fc >? MAX_FACES)); [exact H|].
  destruct (mesh_create alloc (vc + 1) (fc + 1)) as [mesh|]; [|exact H].
  destruct (parse_loop strtof fuel data fc default_color (vertices mesh) (faces mesh) 0 0)
    as [[[[vs fs] vi] fi]|] eqn:Ep; [|discriminate].
  rewrite (parse_loop_mono strtof fuel fuel' _ _ _ _ _ _ _ _ Ep Hle). exact H.
Qed.

(** *** The triangle of the round-trip test *)

Lemma obj_load_triangle_run (default_color : color_t) (error_msg : string) :
  obj_load_from_string strtof_decimal 10 true (Some obj_triangle_text) default_color error_msg
  = Some (Some (obj_triangle_mesh default_color), "OK: 3 verts, 1 faces"%string).
Proof. vm_compute. reflexivity. Qed.

(** C7: on the four-line triangle text, with allocation succeeding, the
    loader finishes and returns a mesh with exactly 3 vertices and 1 face
    whose vertex indices are 0, 1, 2; the status string reports success.  Ten
    loop iterations of fuel suffice and more change nothing. *)
Theorem obj_load_triangle (default_color : color_t) (error_msg : string) (extra : nat) :
  exists m,
    obj_load_from_string strtof_decimal (10 + extra) true (Some obj_triangle_text)
      default_color error_msg
    = Some (Some m, "OK: 3 verts, 1 faces"%string) /\
    vertex_count m = 3 /\
    face_count m = 1 /\
    face_v (face_at m 0) = [0; 1; 2] /\
    take (Z.to_nat (vertex_count m)) (vertices m)
    = [mk_vec3 f0 f0 f0; mk_vec3 f1 f0 f0; mk_vec3 f0 f1 f0].
Proof.
  exists (obj_triangle_mesh default_color). split.
  - apply (obj_load_from_string_mono strtof_decimal 10); [|lia].
    apply obj_load_triangle_run.
  - repeat split.
Qed.

(** * Further properties *)

(** ** Vector products *)

Lemma sqrtf_not_negative (x : float) : not_negative (sqrtf x).
Proof.
  unfold not_negative, sqrtf, SFsqrt.
  destruct x as [[]|[]| |[] m e].
  1-6: reflexivity.
  destruct (SFsqrt_core_binary prec emax (Z.pos m) e) as [[mz ez] lz].
  apply rounded_not_negative.
Qed.

(** X1. [vec3_dot] gives the same value, bit for bit, with its arguments
    exchanged; [vec3_cross] with its arguments exchanged gives the negated
    vector, up to the sign of a zero component; a vector and its negation
    have the same [vec3_length], and a length is never below zero. *)
Theorem vec3_products_symmetric (a b : vec3_t) :
  vec3_dot a b = vec3_dot b a /\
  vopp (vec3_cross a b) (vec3_cross b a) /\
  (forall a', vopp a a' -> vec3_length a' = vec3_length a) /\
  (vec3_length a <? f0)%f32 = false.
Proof.
  split; [|split; [|split]].
  - unfold vec3_dot.
    now rewrite (fmul_comm (vx a)), (fmul_comm (vy a)), (fmul_comm (vz a)).
  - apply vec3_cross_swap.
  - intros a'. apply vec3_length_opp.
  - exact (sqrtf_not_negative _).
Qed.

(** X2. Of a face and the face with its winding reversed, at most one passes
    the back-face test: when the normal of the first makes a positive dot
    product with the direction to the camera, the first is lit and filled
    and the second is skipped. *)
Theorem reversed_winding_culled (w : world) (mesh : mesh_t) (model mvp : mat4_t)
    (face face' : face_t) :
  reversed_winding face face' ->
  (f0 <? vec3_dot (face_normal_world mesh model face)
                  (view_dir_to_camera (fst w) mesh model face))%f32 = true ->
  draw_mesh_face w mesh model mvp face = lit_and_filled w mesh model mvp face /\
  draw_mesh_face w mesh model mvp face' = w.
Proof.
  intros Hrev Hpos. rewrite !draw_mesh_face_unfold.
  rewrite (flt_asym _ _ Hpos).
  now rewrite (flt_opp _ _ (reversed_winding_dot (fst w) mesh model face face' Hrev) Hpos).
Qed.

Lemma reversed_winding_culled_witness :
  draw_mesh_face world_init facing_mesh mat4_identity mat4_identity (face_at facing_mesh 0)
    = lit_and_filled world_init facing_mesh mat4_identity mat4_identity (face_at facing_mesh 0) /\
  draw_mesh_face world_init facing_mesh mat4_identity mat4_identity (face_at facing_mesh 1)
    = world_init.
Proof.
  assert (Hrev : reversed_winding (face_at facing_mesh 0) (face_at facing_mesh 1))
    by (now vm_compute).
  assert (Hpos : (f0 <? vec3_dot (face_normal_world facing_mesh mat4_identity (face_at facing_mesh 0))
                  (view_dir_to_camera (fst world_init) facing_mesh mat4_identity (face_at facing_mesh 0)))%f32 = true)
    by (vm_compute; reflexivity).
  exact (reversed_winding_culled world_init facing_mesh mat4_identity mat4_identity
           (face_at facing_mesh 0) (face_at facing_mesh 1) Hrev Hpos).
Defined.

(** ** The frame buffer, pixel by pixel *)

Lemma ssd1306_get_outside (x y : Z) (fb : list Z) :
  in_display x y = false -> ssd1306_get_pixel x y fb = false.
Proof. intros H. unfold ssd1306_get_pixel. now rewrite display_guard, H. Qed.

Lemma ssd1306_set_outside (x y : Z) (on : bool) (fb : list Z) :
  in_display x y = false -> ssd1306_set_pixel x y on fb = fb.
Proof. intros H. unfold ssd1306_set_pixel. now rewrite display_guard, H. Qed.

Lemma ssd1306_get_set (x y x' y' : Z) (on : bool) (fb : list Z) :
  length fb = frame_buffer_size ->
  ssd1306_get_pixel x' y' (ssd1306_set_pixel x y on fb) =
  if in_display x' y' && (x' =? x) && (y' =? y) then on else ssd1306_get_pixel x' y' fb.
Proof.
  intros Hlen.
  destruct (Z.eqb_spec x' x) as [->|Hx]; [destruct (Z.eqb_spec y' y) as [->|Hy]|].
  - rewrite ssd1306_get_set_same by exact Hlen.
    destruct (in_display x y) eqn:Hin; cbn [andb]; [reflexivity|].
    symmetry. now apply ssd1306_get_outside.
  - rewrite andb_false_r. apply ssd1306_get_set_other. congruence.
  - rewrite andb_false_r. cbn [andb]. apply ssd1306_get_set_other. congruence.
Qed.

(** X3. Writing a pixel and reading one back: inside the 128x64 display the
    pixel written reads as the value written and every other pixel reads as
    before; a write outside the display changes nothing and a read outside
    it gives [false]; the buffer keeps its size. *)
Theorem ssd1306_pixel_round_trip (x y x' y' : Z) (on : bool) (fb : list Z) :
  length fb = frame_buffer_size ->
  length (ssd1306_set_pixel x y on fb) = frame_buffer_size /\
  ssd1306_get_pixel x' y' (ssd1306_set_pixel x y on fb)
    = (if in_display x' y' && (x' =? x) && (y' =? y) then on
       else ssd1306_get_pixel x' y' fb) /\
  (in_display x y = false -> ssd1306_set_pixel x y on fb = fb) /\
  (in_display x' y' = false -> ssd1306_get_pixel x' y' fb = false).
Proof.
  intros Hlen. split; [|split; [|split]].
  - now rewrite ssd1306_set_pixel_length.
  - now apply ssd1306_get_set.
  - apply ssd1306_set_outside.
  - apply ssd1306_get_outside.
Qed.

Lemma ssd1306_pixel_round_trip_witness :
  let fb := replicate frame_buffer_size 0 in
  length (ssd1306_set_pixel 5 9 true fb) = frame_buffer_size /\
  ssd1306_get_pixel 5 9 (ssd1306_set_pixel 5 9 true fb) = true /\
  ssd1306_get_pixel 5 10 (ssd1306_set_pixel 5 9 true fb) = ssd1306_get_pixel 5 10 fb.
Proof.
  intros fb.
  assert (Hlen : length fb = frame_buffer_size) by apply length_replicate.
  destruct (ssd1306_pixel_round_trip 5 9 5 9 true fb Hlen) as (H1 & H2 & _).
  destruct (ssd1306_pixel_round_trip 5 9 5 10 true fb Hlen) as (_ & H3 & _).
  split; [exact H1|split; [exact H2|exact H3]].
Defined.

(** A loop whose iteration [i] paints the pixels [hit i] tells, each of
    which determines [i] as [key]. *)
Lemma paint_loop (body : Z -> list Z -> list Z) (hit : Z -> Z -> Z -> bool)
    (key : Z -> Z -> Z) (on : bool) :
  (forall i px py, hit i px py = true -> i = key px py) ->
  (forall i fb, length fb = frame_buffer_size ->
     length (body i fb) = frame_buffer_size /\
     forall px py,
       ssd1306_get_pixel px py (body i fb) =
       if in_display px py && hit i px py then on else ssd1306_get_pixel px py fb) ->
  forall (n : nat) (a : Z) (fb : list Z),
    length fb = frame_buffer_size ->
    length (for_range n a body fb) = frame_buffer_size /\
    forall px py,
      ssd1306_get_pixel px py (for_range n a body fb) =
      if in_display px py && (a <=? key px py) && (key px py <? a + Z.of_nat n)
         && hit (key px py) px py
      then on else ssd1306_get_pixel px py fb.
Proof.
  intros Hkey Hbody. induction n as [|n IH]; intros a fb Hlen; cbn [for_range].
  - split; [exact Hlen|]. intros px py.
    destruct (in_display px py); cbn [andb]; [|reflexivity].
    destruct (Z.leb_spec a (key px py)), (Z.ltb_spec (key px py) (a + Z.of_nat 0));
      cbn [andb]; try reflexivity; lia.
  - destruct (Hbody a fb Hlen) as [Hlen1 Hget1].
    destruct (IH (a + 1) (body a fb) Hlen1) as [Hlen2 Hget2].
    split; [exact Hlen2|]. intros px py. rewrite Hget2, Hget1.
    destruct (in_display px py); cbn [andb]; [|reflexivity].
    destruct (Z.eq_dec a (key px py)) as [Ha|Ha].
    + rewrite <- Ha.
      destruct (Z.leb_spec (a + 1) a); [lia|]. cbn [andb].
      destruct (Z.leb_spec a a); [|lia].
      destruct (Z.ltb_spec a (a + Z.of_nat (S n))); [|lia]. reflexivity.
    + assert (Hno : hit a px py = false).
      { destruct (hit a px py) eqn:Hh; [|reflexivity]. now apply Hkey in Hh. }
      rewrite Hno.
      destruct (Z.leb_spec (a + 1) (key px py)), (Z.leb_spec a (key px py)),
        (Z.ltb_spec (key px py) (a + 1 + Z.of_nat n)),
        (Z.ltb_spec (key px py) (a + Z.of_nat (S n)));
        cbn [andb]; try reflexivity; lia.
Qed.

Lemma fill_rect_row (x w j : Z) (on : bool) (fb : list Z) :
  length fb = frame_buffer_size ->
  length (for_range (Z.to_nat w) x (fun i fb => ssd1306_set_pixel i j on fb) fb)
    = frame_buffer_size /\
  forall px py,
    ssd1306_get_pixel px py
      (for_range (Z.to_nat w) x (fun i fb => ssd1306_set_pixel i j on fb) fb) =
    if in_display px py && ((py =? j) && (x <=? px) && (px <? x + w)) then on
    else ssd1306_get_pixel px py fb.
Proof.
  intros Hlen.
  destruct (paint_loop (fun i fb => ssd1306_set_pixel i j on fb)
              (fun i px py => (px =? i) && (py =? j)) (fun px _ => px) on) with
    (n := Z.to_nat w) (a := x) (fb := fb) as [Hl Hg]; try exact Hlen.
  - intros i px py H. apply andb_true_iff in H. lia.
  - intros i fb0 Hlen0. split; [now rewrite ssd1306_set_pixel_length|].
    intros px py. rewrite ssd1306_get_set by exact Hlen0. now rewrite andb_assoc.
  - split; [exact Hl|]. intros px py. rewrite Hg.
    destruct (in_display px py); cbn [andb]; [|reflexivity].
    rewrite Z.eqb_refl.
    destruct (Z.leb_spec x px), (Z.ltb_spec px (x + Z.of_nat (Z.to_nat w))),
      (Z.ltb_spec px (x + w)), (Z.eqb_spec py j); cbn [andb]; try reflexivity; lia.
Qed.

(** X4. [ssd1306_fill_rect] sets exactly the pixels of the rectangle that
    lie in the display, provided that the sums [x + w] and [y + h] are in
    the range of [int]: afterwards a pixel reads as [on] when it is in the
    display and in [x, x+w) x [y, y+h), and as before otherwise.  An empty
    or negative extent paints nothing. *)
Theorem ssd1306_fill_rect_pixels (x y w h : Z) (on : bool) (fb : list Z) (px py : Z) :
  length fb = frame_buffer_size ->
  - 2 ^ 31 <= x + w < 2 ^ 31 ->
  - 2 ^ 31 <= y + h < 2 ^ 31 ->
  length (ssd1306_fill_rect x y w h on fb) = frame_buffer_size /\
  ssd1306_get_pixel px py (ssd1306_fill_rect x y w h on fb) =
  if in_display px py && (x <=? px) && (px <? x + w) && (y <=? py) && (py <? y + h)
  then on else ssd1306_get_pixel px py fb.
Proof.
  intros Hlen Hw Hh. unfold ssd1306_fill_rect, int_add.
  rewrite (wrap32_small (x + w)), (wrap32_small (y + h)) by assumption.
  replace (y + h - y) with h by lia. replace (x + w - x) with w by lia.
  destruct (paint_loop
              (fun j fb => for_range (Z.to_nat w) x (fun i fb => ssd1306_set_pixel i j on fb) fb)
              (fun j px py => (py =? j) && (x <=? px) && (px <? x + w))
              (fun _ py => py) on) with
    (n := Z.to_nat h) (a := y) (fb := fb) as [Hl Hg]; try exact Hlen.
  - intros j qx qy H. rewrite !andb_true_iff in H. lia.
  - intros j fb0 Hlen0. exact (fill_rect_row x w j on fb0 Hlen0).
  - split; [exact Hl|]. rewrite Hg.
    destruct (in_display px py); cbn [andb]; [|reflexivity].
    rewrite Z.eqb_refl.
    destruct (Z.leb_spec y py), (Z.ltb_spec py (y + Z.of_nat (Z.to_nat h))),
      (Z.ltb_spec py (y + h)), (Z.leb_spec x px), (Z.ltb_spec px (x + w));
      cbn [andb]; try reflexivity; lia.
Qed.

Lemma ssd1306_fill_rect_pixels_witness :
  ssd1306_get_pixel 3 4 (ssd1306_fill_rect 2 3 4 5 true (replicate frame_buffer_size 0)) = true /\
  ssd1306_get_pixel 6 4 (ssd1306_fill_rect 2 3 4 5 true (replicate frame_buffer_size 0)) = false.
Proof.
  assert (Hlen : length (replicate frame_buffer_size 0) = frame_buffer_size)
    by apply length_replicate.
  split.
  - exact (proj2 (ssd1306_fill_rect_pixels 2 3 4 5 true _ 3 4 Hlen ltac:(lia) ltac:(lia))).
  - rewrite (proj2 (ssd1306_fill_rect_pixels 2 3 4 5 true _ 6 4 Hlen ltac:(lia) ltac:(lia))).
    reflexivity.
Defined.

Lemma square_le_bound (d y r : Z) : 0 <= r -> d * d + y * y <= r * r -> - r <= d <= r.
Proof. intros Hr H. nia. Qed.

Lemma fill_circle_row (cx cy r y : Z) (on : bool) (fb : list Z) :
  length fb = frame_buffer_size ->
  let row :=
    for_range (Z.to_nat (2 * r + 1)) (- r)
      (fun x fb =>
         if x * x + y * y <=? r * r then ssd1306_set_pixel (cx + x) (cy + y) on fb else fb)
      fb in
  length row = frame_buffer_size /\
  forall px py,
    ssd1306_get_pixel px py row =
    if in_display px py
       && ((py =? cy + y) && (0 <=? r) && ((px - cx) * (px - cx) + y * y <=? r * r))
    then on else ssd1306_get_pixel px py fb.
Proof.
  intros Hlen row. subst row.
  destruct (paint_loop
              (fun x fb =>
                 if x * x + y * y <=? r * r then ssd1306_set_pixel (cx + x) (cy + y) on fb
                 else fb)
              (fun x px py => (x * x + y * y <=? r * r) && (px =? cx + x) && (py =? cy + y))
              (fun px _ => px - cx) on) with
    (n := Z.to_nat (2 * r + 1)) (a := - r) (fb := fb) as [Hl Hg]; try exact Hlen.
  - intros i px py H. rewrite !andb_true_iff in H. lia.
  - intros i fb0 Hlen0. destruct (Z.leb_spec (i * i + y * y) (r * r)); cbn [andb].
    + split; [now rewrite ssd1306_set_pixel_length|].
      intros px py. rewrite ssd1306_get_set by exact Hlen0. now rewrite andb_assoc.
    + split; [exact Hlen0|]. intros px py. now rewrite andb_false_r.
  - split; [exact Hl|]. intros px py. rewrite Hg.
    destruct (in_display px py); cbn [andb]; [|reflexivity].
    replace (cx + (px - cx)) with px by lia. rewrite Z.eqb_refl.
    destruct (Z.leb_spec 0 r) as [Hr|Hr].
    + rewrite Z2Nat.id by lia.
      destruct (Z.leb_spec ((px - cx) * (px - cx) + y * y) (r * r)) as [Hd|Hd].
      * pose proof (square_le_bound _ _ _ Hr Hd).
        destruct (Z.leb_spec (- r) (px - cx)); [|lia].
        destruct (Z.ltb_spec (px - cx) (- r + (2 * r + 1))); [|lia].
        destruct (Z.eqb_spec py (cy + y)); reflexivity.
      * now rewrite !andb_false_r.
    + replace (Z.of_nat (Z.to_nat (2 * r + 1))) with 0 by lia.
      destruct (Z.leb_spec (- r) (px - cx)), (Z.ltb_spec (px - cx) (- r + 0));
        cbn [andb]; rewrite ?andb_false_r; try reflexivity; lia.
Qed.

(** The two loops of [ssd1306_fill_circle] over the integers. *)
Lemma fill_circle_rows (cx cy r : Z) (on : bool) (fb : list Z) (px py : Z) :
  length fb = frame_buffer_size ->
  let fb' :=
    for_range (Z.to_nat (2 * r + 1)) (- r)
      (fun y fb =>
         for_range (Z.to_nat (2 * r + 1)) (- r)
           (fun x fb =>
              if x * x + y * y <=? r * r then ssd1306_set_pixel (cx + x) (cy + y) on fb
              else fb)
           fb)
      fb in
  length fb' = frame_buffer_size /\
  ssd1306_get_pixel px py fb' =
  if in_display px py && (0 <=? r)
     && ((px - cx) * (px - cx) + (py - cy) * (py - cy) <=? r * r)
  then on else ssd1306_get_pixel px py fb.
Proof.
  intros Hlen fb'. subst fb'.
  destruct (paint_loop
              (fun y fb =>
                 for_range (Z.to_nat (2 * r + 1)) (- r)
                   (fun x fb =>
                      if x * x + y * y <=? r * r
                      then ssd1306_set_pixel (cx + x) (cy + y) on fb else fb) fb)
              (fun y px py =>
                 (py =? cy + y) && (0 <=? r) && ((px - cx) * (px - cx) + y * y <=? r * r))
              (fun _ py => py - cy) on) with
    (n := Z.to_nat (2 * r + 1)) (a := - r) (fb := fb) as [Hl Hg]; try exact Hlen.
  - intros j qx qy H. rewrite !andb_true_iff in H. lia.
  - intros j fb0 Hlen0. exact (fill_circle_row cx cy r j on fb0 Hlen0).
  - split; [exact Hl|]. rewrite Hg.
    destruct (in_display px py); cbn [andb]; [|reflexivity].
    replace (cy + (py - cy)) with py by lia. rewrite Z.eqb_refl.
    destruct (Z.leb_spec 0 r) as [Hr|Hr]; cbn [andb]; [|now rewrite !andb_false_r].
    rewrite Z2Nat.id by lia.
    destruct (Z.leb_spec ((px - cx) * (px - cx) + (py - cy) * (py - cy)) (r * r)) as [Hd|Hd];
      [|now rewrite !andb_false_r].
    assert (Hd' : (py - cy) * (py - cy) + (px - cx) * (px - cx) <= r * r) by lia.
    pose proof (square_le_bound _ _ _ Hr Hd').
    destruct (Z.leb_spec (- r) (py - cy)); [|lia].
    destruct (Z.ltb_spec (py - cy) (- r + (2 * r + 1))); [|lia]. reflexivity.
Qed.

(** Two loops whose bodies agree on the range they run over give the same
    result. *)
Lemma for_range_ext {T : Type} (body body' : Z -> T -> T) :
  forall (n : nat) (a : Z) (s : T),
    (forall i s, a <= i < a + Z.of_nat n -> body i s = body' i s) ->
    for_range n a body s = for_range n a body' s.
Proof.
  induction n as [|n IH]; intros a s H; cbn [for_range]; [reflexivity|].
  rewrite (H a s) by lia. apply IH. intros i s' Hi. apply H. lia.
Qed.

(** X5. [ssd1306_fill_circle] with a radius of at most 32767, for which
    [2 * r * r] is in the range of [int], and a centre at least that far
    from the ends of the range: the call returns, and afterwards exactly the
    pixels of the display whose offset from the centre satisfies
    [dx*dx + dy*dy <= r*r] read as [on]; every other pixel reads as before,
    and a negative radius paints nothing. *)
Theorem ssd1306_fill_circle_pixels (cx cy r : Z) (on : bool) (fb : list Z) (px py : Z) :
  length fb = frame_buffer_size ->
  - 2 ^ 31 < r <= 32767 ->
  - 2 ^ 31 + 32767 <= cx < 2 ^ 31 - 32767 ->
  - 2 ^ 31 + 32767 <= cy < 2 ^ 31 - 32767 ->
  exists fb',
    ssd1306_fill_circle cx cy r on fb = Some fb' /\
    length fb' = frame_buffer_size /\
    ssd1306_get_pixel px py fb' =
    if in_display px py && (0 <=? r)
       && ((px - cx) * (px - cx) + (py - cy) * (py - cy) <=? r * r)
    then on else ssd1306_get_pixel px py fb.
Proof.
  intros Hlen Hr Hcx Hcy. unfold ssd1306_fill_circle.
  destruct (Z.eqb_spec r 2147483647) as [E|_]; [lia|].
  eexists. split; [reflexivity|].
  unfold int_neg. rewrite (wrap32_small (- r)) by lia.
  replace (r - - r + 1) with (2 * r + 1) by lia.
  rewrite (for_range_ext _
             (fun y fb =>
                for_range (Z.to_nat (2 * r + 1)) (- r)
                  (fun x fb =>
                     if x * x + y * y <=? r * r
                     then ssd1306_set_pixel (cx + x) (cy + y) on fb else fb) fb)).
  - now apply fill_circle_rows.
  - intros y fb0 Hy. apply for_range_ext. intros x fb1 Hx.
    assert (Hy' : - r <= y <= r) by lia. assert (Hx' : - r <= x <= r) by lia.
    unfold int_add, int_mul.
    rewrite (wrap32_small (x * x)), (wrap32_small (y * y)), (wrap32_small (r * r)) by nia.
    rewrite (wrap32_small (x * x + y * y)) by nia.
    rewrite (wrap32_small (cx + x)), (wrap32_small (cy + y)) by lia.
    reflexivity.
Qed.

Lemma ssd1306_fill_circle_pixels_witness :
  exists fb',
    ssd1306_fill_circle 10 10 1 true (replicate frame_buffer_size 0) = Some fb' /\
    ssd1306_get_pixel 11 10 fb' = true.
Proof.
  assert (Hlen : length (replicate frame_buffer_size 0) = frame_buffer_size)
    by apply length_replicate.
  destruct (ssd1306_fill_circle_pixels 10 10 1 true _ 11 10 Hlen ltac:(lia) ltac:(lia)
              ltac:(lia)) as (fb' & Hrun & _ & Hget).
  exists fb'. split; [exact Hrun | exact Hget].
Defined.

(** ** Clearing and filling *)

Lemma ssd1306_get_pixel_fill (x y : Z) (fb : list Z) :
  ssd1306_get_pixel x y (ssd1306_fill fb) = in_display x y.
Proof.
  unfold ssd1306_get_pixel, ssd1306_fill. rewrite display_guard.
  destruct (in_display x y) eqn:Hin; cbn [negb]; [|reflexivity].
  apply in_display_bounds in Hin. destruct Hin as [Hx Hy].
  destruct (pixel_cell y Hy) as (Hq & Hr & _). unfold SSD1306_WIDTH in *.
  rewrite land_bit_test by lia. unfold byte_at.
  rewrite (proj2 (lookup_replicate frame_buffer_size 255 255 _)).
  - cbn [default]. change 255 with (Z.ones 8). apply Z.ones_spec_low. lia.
  - split; [reflexivity|]. pose proof frame_buffer_size_Z. lia.
Qed.

(** X6. After [ssd1306_clear] every pixel reads [false]; after
    [ssd1306_fill] every pixel of the display reads [true]; both leave a
    buffer of the driver's fixed size, whatever it held before. *)
Theorem ssd1306_clear_fill_pixels (fb : list Z) (x y : Z) :
  ssd1306_get_pixel x y (ssd1306_clear fb) = false /\
  ssd1306_get_pixel x y (ssd1306_fill fb) = in_display x y /\
  length (ssd1306_clear fb) = frame_buffer_size /\
  length (ssd1306_fill fb) = frame_buffer_size.
Proof.
  split; [apply ssd1306_get_pixel_clear|].
  split; [apply ssd1306_get_pixel_fill|].
  split; apply length_replicate.
Qed.

(** ** [render3d_clear] *)

(** X7. [render3d_clear] resets every pixel of the context: its depth cell
    holds 1000 and its bit is off; camera, light, matrices and dimensions
    stay, and so do the sizes of both buffers. *)
Theorem render3d_clear_resets (w : world) (x y : Z) :
  wf_world w ->
  0 <= x < width (fst w) -> 0 <= y < height (fst w) ->
  pixel_state (render3d_clear w) x y = (f1000, false) /\
  wf_world (render3d_clear w) /\
  fst (render3d_clear w) = with_zbuffer (fst w) (zbuffer (fst (render3d_clear w))).
Proof.
  intros (Hw & Hh & Hlen & _) Hx Hy.
  destruct (render3d_clear_pixel w Hw Hh Hlen) as (Hwf & Hsame & Hpix).
  split; [now apply Hpix|]. split; [exact Hwf|exact Hsame].
Qed.

Lemma wf_world_init : wf_world world_init.
Proof.
  unfold wf_world, world_init. cbn [fst snd with_zbuffer width height zbuffer].
  rewrite !length_replicate. change (width ctx_init) with 128. change (height ctx_init) with 64.
  split; [lia|]. split; [lia|]. split; [|reflexivity].
  rewrite Z2Nat.id by lia. reflexivity.
Qed.

Lemma render3d_clear_resets_witness :
  pixel_state (render3d_clear world_init) 64 32 = (f1000, false).
Proof.
  refine (proj1 (render3d_clear_resets world_init 64 32 wf_world_init _ _)).
  - change (width (fst world_init)) with 128. lia.
  - change (height (fst world_init)) with 64. lia.
Defined.

(** ** What the filled renderer keeps *)

Lemma settles_refl (s : float * bool) : settles s s.
Proof. now left. Qed.

Lemma settles_trans (s0 s1 s2 : float * bool) : settles s0 s1 -> settles s1 s2 -> settles s0 s2.
Proof.
  intros [E1|L1] [E2|L2].
  - left. congruence.
  - right. rewrite <- E1. exact L2.
  - right. rewrite E2. exact L1.
  - right. exact (flt_trans _ _ _ L2 L1).
Qed.

Lemma settling_loop (body : Z -> world -> world) :
  (forall i, settling (body i)) ->
  forall (n : nat) (i : Z), settling (for_range n i body).
Proof.
  intros Hbody. induction n as [|n IH]; intros i w Hwf; cbn [for_range].
  - split; [exact Hwf|]. split; [apply same_frame_refl|]. intros. apply settles_refl.
  - destruct (Hbody i w Hwf) as (Hwf1 & Hfr1 & Hpix1).
    destruct (IH (i + 1) (body i w) Hwf1) as (Hwf2 & Hfr2 & Hpix2).
    split; [exact Hwf2|]. split; [exact (same_frame_trans _ _ _ Hfr1 Hfr2)|].
    intros x y Hx Hy.
    destruct (same_frame_dims _ _ Hfr1) as [Hw1 Hh1].
    apply (settles_trans _ (pixel_state (body i w) x y)).
    + now apply Hpix1.
    + apply Hpix2; [rewrite Hw1|rewrite Hh1]; assumption.
Qed.

Lemma write_opt_settles (d : option float) (v : bool) (old : float * bool) :
  settles old (write_opt d v old).
Proof.
  destruct d as [z|]; [|now left]. unfold write_opt, depth_write, settles.
  destruct (z <? fst old)%f32 eqn:E; [right; exact E | now left].
Qed.

Lemma settling_id : settling (fun w => w).
Proof.
  intros w Hwf. split; [exact Hwf|]. split; [apply same_frame_refl|].
  intros. apply settles_refl.
Qed.

Lemma draw_triangle_flat_settling (p0 p1 p2 : vec3_t) (b : float) (c : color_t) :
  settling (fun w => draw_triangle_flat w p0 p1 p2 b c).
Proof.
  intros w Hwf.
  destruct (draw_triangle_flat_pixel w p0 p1 p2 b c Hwf) as (Hwf' & Hfr & Hpix).
  split; [exact Hwf'|]. split; [exact Hfr|]. intros x y Hx Hy.
  rewrite (Hpix x y Hx Hy). apply write_opt_settles.
Qed.

Lemma draw_mesh_face_settling (mesh : mesh_t) (model mvp : mat4_t) (face : face_t) :
  settling (fun w => draw_mesh_face w mesh model mvp face).
Proof.
  intros w Hwf. rewrite draw_mesh_face_unfold.
  destruct (_ <? f0)%f32; [now apply settling_id|].
  unfold lit_and_filled. destruct (has_negative_depth _ _ _); [now apply settling_id|].
  now apply draw_triangle_flat_settling.
Qed.

(** X8. [render3d_draw_mesh] keeps the camera, the light, both matrices, the
    dimensions and the sizes of both buffers; and at every pixel of the
    context it either leaves depth and bit as they were or leaves a strictly
    smaller depth: a stored depth never grows, and a bit changes only
    together with its depth. *)
Theorem render3d_draw_mesh_invariants (cosf sinf : float -> float) (w : world)
    (mesh : option mesh_t) (x y : Z) :
  wf_world w ->
  0 <= x < width (fst w) -> 0 <= y < height (fst w) ->
  let w' := render3d_draw_mesh cosf sinf w mesh in
  wf_world w' /\
  fst w' = with_zbuffer (fst w) (zbuffer (fst w')) /\
  (pixel_state w' x y = pixel_state w x y \/
   (fst (pixel_state w' x y) <? fst (pixel_state w x y))%f32 = true).
Proof.
  intros Hwf Hx Hy w'.
  assert (H : settling (fun w => render3d_draw_mesh cosf sinf w mesh)).
  { destruct mesh as [mesh|]; [|apply settling_id]. unfold render3d_draw_mesh.
    intros w0 Hwf0. destruct (face_count mesh =? 0); [now apply settling_id|].
    apply (settling_loop
             (fun i w1 =>
                draw_mesh_face w1 mesh (model_matrix cosf sinf mesh)
                  (mat4_multiply (proj_matrix (fst w0))
                     (mat4_multiply (view_matrix (fst w0)) (model_matrix cosf sinf mesh)))
                  (face_at mesh i))); [|exact Hwf0].
    intros i. apply draw_mesh_face_settling. }
  destruct (H w Hwf) as (H1 & H2 & H3).
  split; [exact H1|]. split; [exact H2|]. exact (H3 x y Hx Hy).
Qed.

Lemma render3d_draw_mesh_invariants_witness :
  wf_world (render3d_draw_mesh sqrtf sqrtf world_init (Some facing_mesh)).
Proof.
  refine (proj1 (render3d_draw_mesh_invariants sqrtf sqrtf world_init (Some facing_mesh)
                   64 32 wf_world_init _ _)).
  - change (width (fst world_init)) with 128. lia.
  - change (height (fst world_init)) with 64. lia.
Defined.

(** ** The pixels of a Bresenham line *)

Lemma set_pixel_effect (x y : Z) (on : bool) (fb : list Z) (lx hx ly hy : Z) :
  length fb = frame_buffer_size ->
  lx <= x <= hx -> ly <= y <= hy ->
  let fb1 := if in_display x y then ssd1306_set_pixel x y on fb else fb in
  length fb1 = frame_buffer_size /\
  (in_display x y = true -> ssd1306_get_pixel x y fb1 = on) /\
  forall px py, ssd1306_get_pixel px py fb1 <> ssd1306_get_pixel px py fb ->
    ssd1306_get_pixel px py fb1 = on /\ lx <= px <= hx /\ ly <= py <= hy.
Proof.
  intros Hlen Hx Hy fb1.
  assert (E1 : fb1 = ssd1306_set_pixel x y on fb).
  { subst fb1. destruct (in_display x y) eqn:Hin; [reflexivity|].
    symmetry. now apply ssd1306_set_outside. }
  rewrite E1. split; [now rewrite ssd1306_set_pixel_length|]. split.
  - intros Hin. now rewrite ssd1306_get_set, Hin, !Z.eqb_refl.
  - intros px py. rewrite ssd1306_get_set by exact Hlen.
    destruct (in_display px py && (px =? x) && (py =? y)) eqn:E; [|now intros []].
    intros _. rewrite !andb_true_iff in E. destruct E as [[_ Ex] Ey].
    apply Z.eqb_eq in Ex, Ey. subst px py. auto.
Qed.

Lemma draw_line_loop_pixels (on : bool) (lx hx ly hy : Z) (fuel : nat) :
  forall x1 y1 dx dy sx sy x y err fb rx ry fb',
    line_inv x1 y1 dx dy sx sy x y err rx ry ->
    loop_in_range x1 y1 dx dy sx sy ->
    (forall r, 0 <= r <= dx -> lx <= x1 - sx * r <= hx) ->
    (forall r, 0 <= r <= dy -> ly <= y1 - sy * r <= hy) ->
    length fb = frame_buffer_size ->
    draw_line_loop fuel x1 y1 dx dy sx sy on x y err fb = Some fb' ->
    length fb' = frame_buffer_size /\
    (in_display x y = true -> ssd1306_get_pixel x y fb' = on) /\
    (in_display x1 y1 = true -> ssd1306_get_pixel x1 y1 fb' = on) /\
    forall px py, ssd1306_get_pixel px py fb' <> ssd1306_get_pixel px py fb ->
      ssd1306_get_pixel px py fb' = on /\ lx <= px <= hx /\ ly <= py <= hy.
Proof.
  induction fuel as [|fuel IH];
    intros x1 y1 dx dy sx sy x y err fb rx ry fb' Hinv Hrange Hbx Hby Hlen Hrun;
    [discriminate|].
  assert (Hx : lx <= x <= hx).
  { destruct Hinv as (Hrx & _ & _ & _ & Hxe & _). specialize (Hbx rx Hrx). lia. }
  assert (Hy : ly <= y <= hy).
  { destruct Hinv as (_ & Hry & _ & _ & _ & Hye & _). specialize (Hby ry Hry). lia. }
  destruct (set_pixel_effect x y on fb lx hx ly hy Hlen Hx Hy) as (Hlen1 & Hcur1 & Hchg1).
  cbv zeta in Hlen1, Hcur1, Hchg1.
  destruct ((x =? x1) && (y =? y1)) eqn:Hend.
  - cbn [draw_line_loop] in Hrun. rewrite Hend in Hrun.
    change ((0 <=? x) && (x <? SSD1306_WIDTH) && (0 <=? y) && (y <? SSD1306_HEIGHT))
      with (in_display x y) in Hrun.
    injection Hrun as <-. apply andb_true_iff in Hend. destruct Hend as [Ex Ey].
    apply Z.eqb_eq in Ex, Ey. subst x1 y1. auto.
  - rewrite (draw_line_loop_step fuel _ _ _ _ _ _ on _ _ _ fb _ _ Hinv Hrange Hend) in Hrun.
    set (fb1 := if in_display x y then ssd1306_set_pixel x y on fb else fb) in *.
    clearbody fb1.
    destruct (line_inv_step _ _ _ _ _ _ _ _ _ _ _ Hinv Hend) as [Hinv' _].
    cbv zeta in Hinv'.
    assert (Hrest : length fb' = frame_buffer_size /\
              (in_display x1 y1 = true -> ssd1306_get_pixel x1 y1 fb' = on) /\
              forall px py, ssd1306_get_pixel px py fb' <> ssd1306_get_pixel px py fb1 ->
                ssd1306_get_pixel px py fb' = on /\ lx <= px <= hx /\ ly <= py <= hy).
    { destruct (2 * err >? - dy), (2 * err <? dx);
        (destruct (IH _ _ _ _ _ _ _ _ _ _ _ _ _ Hinv' Hrange Hbx Hby Hlen1 Hrun)
           as (H1 & _ & H3 & H4); auto). }
    destruct Hrest as (Hl' & Hend' & Hchg').
    split; [exact Hl'|]. split; [|split; [exact Hend'|]].
    + intros Hin.
      destruct (bool_dec (ssd1306_get_pixel x y fb') (ssd1306_get_pixel x y fb1)) as [E|N].
      * rewrite E. now apply Hcur1.
      * now apply Hchg'.
    + intros px py Hne.
      destruct (bool_dec (ssd1306_get_pixel px py fb') (ssd1306_get_pixel px py fb1))
        as [E|N]; [|now apply Hchg'].
      rewrite E in Hne |- *. now apply Hchg1.
Qed.

(** X9. What [render3d_draw_line] does to the frame buffer, for end points
    in the range of [int] whose extents are below a third of 2^31: given
    [|x1-x0| + |y1-y0| + 1] iterations or more the call returns; both end
    points read as [on] afterwards when they are in the display, and a pixel
    whose value changed now reads as [on] and lies in the bounding box of the
    two end points.  Drawing with [on = true] therefore never clears a
    pixel. *)
Theorem render3d_draw_line_pixels (fuel : nat) (x0 y0 x1 y1 : Z) (on : bool) (fb : list Z) :
  length fb = frame_buffer_size ->
  - 2 ^ 31 <= x0 < 2 ^ 31 /\ - 2 ^ 31 <= y0 < 2 ^ 31 ->
  - 2 ^ 31 <= x1 < 2 ^ 31 /\ - 2 ^ 31 <= y1 < 2 ^ 31 ->
  3 * Z.abs (x1 - x0) < 2 ^ 31 ->
  3 * Z.abs (y1 - y0) < 2 ^ 31 ->
  (Z.to_nat (Z.abs (x1 - x0) + Z.abs (y1 - y0) + 1) <= fuel)%nat ->
  exists fb',
    render3d_draw_line fuel x0 y0 x1 y1 on fb = Some fb' /\
    length fb' = frame_buffer_size /\
    (in_display x0 y0 = true -> ssd1306_get_pixel x0 y0 fb' = on) /\
    (in_display x1 y1 = true -> ssd1306_get_pixel x1 y1 fb' = on) /\
    forall px py, ssd1306_get_pixel px py fb' <> ssd1306_get_pixel px py fb ->
      ssd1306_get_pixel px py fb' = on /\
      Z.min x0 x1 <= px <= Z.max x0 x1 /\ Z.min y0 y1 <= py <= Z.max y0 y1.
Proof.
  intros Hlen H0 H1 Hdx Hdy Hfuel.
  assert (Hrange : line_in_range x0 y0 x1 y1) by (unfold line_in_range; auto).
  destruct (render3d_draw_line_returns x0 y0 x1 y1 on fb fuel Hrange Hfuel) as [fb' Hrun].
  exists fb'. split; [exact Hrun|].
  rewrite render3d_draw_line_setup in Hrun by exact Hrange.
  apply (draw_line_loop_pixels on (Z.min x0 x1) (Z.max x0 x1) (Z.min y0 y1) (Z.max y0 y1)
           _ _ _ _ _ _ _ _ _ _ _ _ _ _ (line_inv_init x0 y0 x1 y1)
           (line_in_range_loop x0 y0 x1 y1 Hrange)) in Hrun;
    [exact Hrun| | |exact Hlen].
  - intros r Hr. destruct (Z.ltb_spec x0 x1); lia.
  - intros r Hr. destruct (Z.ltb_spec y0 y1); lia.
Qed.

Lemma render3d_draw_line_pixels_witness :
  exists fb',
    render3d_draw_line 11 2 3 9 6 true (replicate frame_buffer_size 0) = Some fb' /\
    ssd1306_get_pixel 2 3 fb' = true /\ ssd1306_get_pixel 9 6 fb' = true.
Proof.
  assert (Hlen : length (replicate frame_buffer_size 0) = frame_buffer_size)
    by apply length_replicate.
  destruct (render3d_draw_line_pixels 11 2 3 9 6 true _ Hlen ltac:(lia) ltac:(lia)
              ltac:(lia) ltac:(lia) ltac:(lia)) as (fb' & Hrun & _ & H0 & H1 & _).
  exists fb'. split; [exact Hrun|]. split; [apply H0|apply H1]; reflexivity.
Defined.

(** ** The wireframe renderer *)

Lemma only_lights_id : only_lights Some.
Proof. intros w w' Hlen [= <-]. auto. Qed.

Lemma for_range_none {T : Type} (body : Z -> T -> option T) :
  forall (n : nat) (i : Z), for_range n i (fun i r => s ← r; body i s) None = None.
Proof. induction n as [|n IH]; intros i; cbn [for_range]; [reflexivity | apply IH]. Qed.

Lemma only_lights_loop (body : Z -> world -> option world) :
  (forall i, only_lights (body i)) ->
  forall (n : nat) (i : Z),
    only_lights (fun w => for_range n i (fun i r => w ← r; body i w) (Some w)).
Proof.
  intros Hbody. induction n as [|n IH]; intros i w w' Hlen Hrun; cbn [for_range] in Hrun.
  - injection Hrun as <-. auto.
  - cbn [mbind option_bind] in Hrun.
    destruct (body i w) as [w1|] eqn:E1; [|now rewrite for_range_none in Hrun].
    destruct (Hbody i w w1 Hlen E1) as (Hc1 & Hl1 & Hp1).
    destruct (IH (i + 1) w1 w' Hl1 Hrun) as (Hc2 & Hl2 & Hp2).
    split; [congruence|]. split; [exact Hl2|]. auto.
Qed.

(** Whatever the arithmetic of the loop does, a line drawn with
    [on = true] that returns has cleared no pixel. *)
Lemma draw_line_loop_lights (fuel : nat) :
  forall x1 y1 dx dy sx sy x y err fb fb',
    length fb = frame_buffer_size ->
    draw_line_loop fuel x1 y1 dx dy sx sy true x y err fb = Some fb' ->
    length fb' = frame_buffer_size /\
    forall px py, ssd1306_get_pixel px py fb = true -> ssd1306_get_pixel px py fb' = true.
Proof.
  induction fuel as [|fuel IH]; intros x1 y1 dx dy sx sy x y err fb fb' Hlen Hrun;
    [discriminate|].
  cbn [draw_line_loop] in Hrun.
  change ((0 <=? x) && (x <? SSD1306_WIDTH) && (0 <=? y) && (y <? SSD1306_HEIGHT))
    with (in_display x y) in Hrun.
  destruct (set_pixel_effect x y true fb x x y y Hlen ltac:(lia) ltac:(lia))
    as (Hlen1 & _ & Hchg1).
  cbv zeta in Hlen1, Hchg1.
  set (fb1 := if in_display x y then ssd1306_set_pixel x y true fb else fb) in *.
  assert (Hkeep1 : forall px py, ssd1306_get_pixel px py fb = true ->
                                 ssd1306_get_pixel px py fb1 = true).
  { intros px py Hon.
    destruct (bool_dec (ssd1306_get_pixel px py fb1) (ssd1306_get_pixel px py fb)) as [E|N].
    - now rewrite E.
    - now apply Hchg1. }
  clearbody fb1.
  destruct ((x =? x1) && (y =? y1)).
  - injection Hrun as <-. auto.
  - destruct (int_mul 2 err >? int_neg dy), (int_mul 2 err <? dx);
      (destruct (IH _ _ _ _ _ _ _ _ _ _ _ Hlen1 Hrun) as [Hl Hp]; auto).
Qed.

Lemma draw_line_lights (fuel : nat) (x0 y0 x1 y1 : Z) (fb fb' : list Z) :
  length fb = frame_buffer_size ->
  render3d_draw_line fuel x0 y0 x1 y1 true fb = Some fb' ->
  length fb' = frame_buffer_size /\
  forall x y, ssd1306_get_pixel x y fb = true -> ssd1306_get_pixel x y fb' = true.
Proof. intros Hlen Hrun. exact (draw_line_loop_lights _ _ _ _ _ _ _ _ _ _ _ _ Hlen Hrun). Qed.

Lemma draw_wireframe_face_lights (fuel : nat) (mesh : mesh_t) (mvp : mat4_t) (face : face_t) :
  only_lights (fun w => draw_wireframe_face fuel w mesh mvp face).
Proof.
  intros w w' Hlen Hrun. rewrite draw_wireframe_face_unfold in Hrun.
  destruct (has_negative_depth _ _ _); [injection Hrun as <-; auto|].
  unfold wire_edges in Hrun.
  set (p0 := face_projected _ _ _ _ 0) in Hrun. set (p1 := face_projected _ _ _ _ 1) in Hrun.
  set (p2 := face_projected _ _ _ _ 2) in Hrun. clearbody p0 p1 p2.
  destruct (render3d_draw_line fuel _ _ _ _ true (snd w)) as [fb1|] eqn:E1; [|discriminate].
  cbn [mbind option_bind] in Hrun.
  destruct (render3d_draw_line fuel _ _ _ _ true fb1) as [fb2|] eqn:E2; [|discriminate].
  cbn [mbind option_bind] in Hrun.
  destruct (render3d_draw_line fuel _ _ _ _ true fb2) as [fb3|] eqn:E3; [|discriminate].
  cbn [mbind option_bind] in Hrun. injection Hrun as <-. cbn [fst snd].
  destruct (draw_line_lights _ _ _ _ _ _ _ Hlen E1) as [Hl1 Hp1].
  destruct (draw_line_lights _ _ _ _ _ _ _ Hl1 E2) as [Hl2 Hp2].
  destruct (draw_line_lights _ _ _ _ _ _ _ Hl2 E3) as [Hl3 Hp3].
  split; [reflexivity|]. split; [exact Hl3|]. auto.
Qed.

(** X10. The wireframe renderer bypasses the depth buffer: whenever it
    returns, and whatever the arithmetic of its lines has done, it returns
    the context exactly as it got it, z-buffer included, it has kept the
    size of the frame buffer and it has only lit pixels, so that a pixel
    that was on is still on. *)
Theorem render3d_draw_mesh_wireframe_only_lights (cosf sinf : float -> float) (fuel : nat)
    (w w' : world) (mesh : option mesh_t) (x y : Z) :
  length (snd w) = frame_buffer_size ->
  render3d_draw_mesh_wireframe cosf sinf fuel w mesh = Some w' ->
  fst w' = fst w /\
  length (snd w') = frame_buffer_size /\
  (ssd1306_get_pixel x y (snd w) = true -> ssd1306_get_pixel x y (snd w') = true).
Proof.
  intros Hlen Hrun.
  assert (H : only_lights (fun w => render3d_draw_mesh_wireframe cosf sinf fuel w mesh)).
  { destruct mesh as [mesh|]; [|apply only_lights_id]. unfold render3d_draw_mesh_wireframe.
    intros w0 w0' Hlen0. destruct (face_count mesh =? 0); [now apply only_lights_id|].
    apply (only_lights_loop
             (fun i w1 =>
                draw_wireframe_face fuel w1 mesh
                  (mat4_multiply (proj_matrix (fst w0))
                     (mat4_multiply (view_matrix (fst w0)) (model_matrix cosf sinf mesh)))
                  (face_at mesh i))); [|exact Hlen0].
    intros i. apply draw_wireframe_face_lights. }
  destruct (H w w' Hlen Hrun) as (H1 & H2 & H3). auto.
Qed.

Lemma render3d_draw_mesh_wireframe_only_lights_witness :
  let w' := (fst world_init, ssd1306_set_pixel 64 32 true (snd world_init)) in
  render3d_draw_mesh_wireframe sqrtf sqrtf 1 world_init (Some facing_mesh) = Some w' /\
  fst w' = fst world_init /\
  length (snd w') = frame_buffer_size.
Proof.
  intros w'.
  assert (Hrun : render3d_draw_mesh_wireframe sqrtf sqrtf 1 world_init (Some facing_mesh)
                 = Some w') by (vm_compute; reflexivity).
  destruct (render3d_draw_mesh_wireframe_only_lights sqrtf sqrtf 1 world_init w'
              (Some facing_mesh) 0 0 (length_replicate _ _) Hrun) as (H1 & H2 & _).
  split; [exact Hrun|]. split; [exact H1 | exact H2].
Defined.

(** ** Ordered dithering: period and density *)

Lemma dither_pixel_mod4 (x y : Z) (b : float) :
  dither_pixel x y b = dither_pixel (x mod 4) (y mod 4) b.
Proof.
  unfold dither_pixel. rewrite !land3_mod4, !Z.mod_mod by lia. reflexivity.
Qed.

(** X11. The dither pattern repeats every four pixels in both directions,
    for negative coordinates as well. *)
Theorem dither_pixel_periodic (x y i j : Z) (b : float) :
  dither_pixel (x + 4 * i) (y + 4 * j) b = dither_pixel x y b.
Proof.
  rewrite (dither_pixel_mod4 (x + 4 * i)), (dither_pixel_mod4 x y).
  rewrite (Z.mul_comm 4 i), (Z.mul_comm 4 j), !Z_mod_plus_full. reflexivity.
Qed.

Lemma In_seqZ (k m n : Z) : m <= k < m + n -> In k (seqZ m n).
Proof. intros H. apply list_elem_of_In, elem_of_seqZ. exact H. Qed.

Lemma In_0123 (r : Z) : 0 <= r < 4 -> In r [0; 1; 2; 3].
Proof. intros H. cbn [In]. lia. Qed.

Lemma dither_pixel_sixteenths (k x y : Z) :
  0 <= k <= 16 ->
  dither_pixel x y (lit_frac k 16) = (bayer_at (y mod 4) (x mod 4) <? k).
Proof.
  intros Hk. rewrite dither_pixel_mod4.
  assert (Hok : sixteenths_table_ok = true) by (vm_compute; reflexivity).
  unfold sixteenths_table_ok in Hok.
  rewrite forallb_forall in Hok. specialize (Hok k (In_seqZ k 0 17 ltac:(lia))).
  rewrite forallb_forall in Hok.
  specialize (Hok (y mod 4) (In_0123 (y mod 4) (Z.mod_pos_bound y 4 ltac:(lia)))).
  rewrite forallb_forall in Hok.
  specialize (Hok (x mod 4) (In_0123 (x mod 4) (Z.mod_pos_bound x 4 ltac:(lia)))).
  now apply eqb_prop in Hok.
Qed.

(** X12. At a brightness of [k/16] a pixel is lit exactly when its Bayer
    threshold is below [k], and every 4x4 tile, wherever it starts, has
    exactly [k] of its sixteen pixels lit: the lit fraction is the
    brightness. *)
Theorem dither_pixel_density (k x y : Z) :
  0 <= k <= 16 ->
  dither_pixel x y (lit_frac k 16) = (bayer_at (y mod 4) (x mod 4) <? k) /\
  tile_lit x y (lit_frac k 16) = k.
Proof.
  intros Hk. split; [now apply dither_pixel_sixteenths|].
  unfold tile_lit.
  rewrite (map_ext _ (fun d => if bayer_at ((y mod 4 + snd d) mod 4) ((x mod 4 + fst d) mod 4) <? k
                               then 1 else 0)).
  2:{ intros d. rewrite dither_pixel_sixteenths by exact Hk.
      now rewrite !Zplus_mod_idemp_l. }
  assert (Hok : tile_count_ok = true) by (vm_compute; reflexivity).
  unfold tile_count_ok in Hok.
  rewrite forallb_forall in Hok. specialize (Hok k (In_seqZ k 0 17 ltac:(lia))).
  rewrite forallb_forall in Hok.
  specialize (Hok (y mod 4) (In_0123 (y mod 4) (Z.mod_pos_bound y 4 ltac:(lia)))).
  rewrite forallb_forall in Hok.
  specialize (Hok (x mod 4) (In_0123 (x mod 4) (Z.mod_pos_bound x 4 ltac:(lia)))).
  now apply Z.eqb_eq in Hok.
Qed.

Lemma dither_pixel_density_witness :
  dither_pixel 5 (-3) (lit_frac 8 16) = (bayer_at ((-3) mod 4) (5 mod 4) <? 8) /\
  tile_lit 5 (-3) (lit_frac 8 16) = 8.
Proof. apply (dither_pixel_density 8 5 (-3)). lia. Defined.

(** ** Colour utilities *)

Lemma testbit_small (a n m : Z) : 0 <= a < 2 ^ n -> 0 <= n <= m -> Z.testbit a m = false.
Proof.
  intros Ha Hm. destruct (Z.eq_dec a 0) as [->|Hne]; [apply Z.bits_0|].
  apply Z.bits_above_log2; [lia|]. apply Z.lt_le_trans with n; [|lia].
  apply Z.log2_lt_pow2; lia.
Qed.

(** The layout of the packed value, bit by bit. *)
Lemma color_to_rgb565_bits (c : color_t) (m : Z) :
  color_valid c -> 0 <= m ->
  Z.testbit (color_to_rgb565 c) m =
  if m <? 5 then Z.testbit (cb c) (m + 3)
  else if m <? 11 then Z.testbit (cg c) (m - 3)
  else if m <? 16 then Z.testbit (cr c) (m - 8)
  else false.
Proof.
  intros (Hr & Hg & Hb) Hm. unfold color_to_rgb565. change 65536 with (2 ^ 16).
  destruct (Z.ltb_spec m 16) as [H16|H16].
  - rewrite Z.mod_pow2_bits_low, !Z.lor_spec, !Z.shiftr_spec by lia.
    destruct (Z.ltb_spec m 5) as [H5|H5]; [|destruct (Z.ltb_spec m 11) as [H11|H11]].
    + rewrite !Z.shiftl_spec_low by lia. reflexivity.
    + rewrite (Z.shiftl_spec_low _ 11), !Z.shiftl_spec, Z.shiftr_spec by lia.
      rewrite (testbit_small (cb c) 8 (m + 3)) by lia.
      rewrite orb_false_l, orb_false_r. f_equal. lia.
    + rewrite !Z.shiftl_spec, !Z.shiftr_spec by lia.
      rewrite (testbit_small (cb c) 8 (m + 3)), (testbit_small (cg c) 8 (m - 5 + 2)) by lia.
      rewrite !orb_false_r. f_equal. lia.
  - rewrite Z.mod_pow2_bits_high by lia.
    destruct (Z.ltb_spec m 5); [lia|]. destruct (Z.ltb_spec m 11); [lia|]. reflexivity.
Qed.

(** X13. [color_to_rgb565] keeps the top five, six and five bits of the red,
    green and blue channels: the result fits sixteen bits, and the three
    fields read back from it are the channels shifted right by 3, 2 and
    3. *)
Theorem color_to_rgb565_fields (c : color_t) :
  color_valid c ->
  0 <= color_to_rgb565 c < 65536 /\
  Z.shiftr (color_to_rgb565 c) 11 = Z.shiftr (cr c) 3 /\
  Z.land (Z.shiftr (color_to_rgb565 c) 5) 63 = Z.shiftr (cg c) 2 /\
  Z.land (color_to_rgb565 c) 31 = Z.shiftr (cb c) 3.
Proof.
  intros Hc. pose proof Hc as (Hr & Hg & Hb).
  split; [unfold color_to_rgb565; apply Z.mod_pos_bound; lia|].
  split; [|split]; apply Z.bits_inj'; intros m Hm.
  - rewrite !Z.shiftr_spec, color_to_rgb565_bits by (assumption || lia).
    destruct (Z.ltb_spec (m + 11) 5); [lia|]. destruct (Z.ltb_spec (m + 11) 11); [lia|].
    destruct (Z.ltb_spec (m + 11) 16).
    + f_equal. lia.
    + symmetry. apply (testbit_small _ 8); lia.
  - change 63 with (Z.ones 6). rewrite Z.land_ones by lia.
    destruct (Z.ltb_spec m 6).
    + rewrite Z.mod_pow2_bits_low, !Z.shiftr_spec, color_to_rgb565_bits by (assumption || lia).
      destruct (Z.ltb_spec (m + 5) 5); [lia|]. destruct (Z.ltb_spec (m + 5) 11); [|lia].
      f_equal. lia.
    + rewrite Z.mod_pow2_bits_high, Z.shiftr_spec by lia.
      symmetry. apply (testbit_small _ 8); lia.
  - change 31 with (Z.ones 5). rewrite Z.land_ones by lia.
    destruct (Z.ltb_spec m 5).
    + rewrite Z.mod_pow2_bits_low, !Z.shiftr_spec, color_to_rgb565_bits by (assumption || lia).
      destruct (Z.ltb_spec m 5); [|lia]. reflexivity.
    + rewrite Z.mod_pow2_bits_high, Z.shiftr_spec by lia.
      symmetry. apply (testbit_small _ 8); lia.
Qed.

Lemma color_to_rgb565_fields_witness :
  Z.shiftr (color_to_rgb565 (color_create 255 220 180)) 11 = Z.shiftr 255 3.
Proof.
  refine (proj1 (proj2 (color_to_rgb565_fields (color_create 255 220 180) _))).
  unfold color_valid. cbn [color_create cr cg cb]. lia.
Defined.

(** X14. [color_to_gray] is a weighted mean with weights 77/256, 150/256 and
    29/256: it lies between the smallest and the largest channel, so a grey
    input comes back unchanged, and it never decreases when a channel
    grows. *)
Theorem color_to_gray_mean (c c' : color_t) :
  color_valid c -> color_valid c' ->
  Z.min (cr c) (Z.min (cg c) (cb c)) <= color_to_gray c
    <= Z.max (cr c) (Z.max (cg c) (cb c)) /\
  (cr c = cg c -> cg c = cb c -> color_to_gray c = cr c) /\
  (cr c <= cr c' -> cg c <= cg c' -> cb c <= cb c' ->
   color_to_gray c <= color_to_gray c').
Proof.
  intros (Hr & Hg & Hb) (Hr' & Hg' & Hb'). unfold color_to_gray.
  rewrite !Z.shiftr_div_pow2 by lia. change (2 ^ 8) with 256.
  assert (H : forall r g b, 0 <= r <= 255 -> 0 <= g <= 255 -> 0 <= b <= 255 ->
            (r * 77 + g * 150 + b * 29) / 256 mod 256 = (r * 77 + g * 150 + b * 29) / 256).
  { intros r g b ? ? ?. apply Z.mod_small. split.
    - apply Z.div_pos; lia.
    - apply Z.div_lt_upper_bound; lia. }
  rewrite !H by assumption. split; [|split].
  - split.
    + apply Z.div_le_lower_bound; lia.
    + apply Z.div_le_upper_bound; lia.
  - intros E1 E2. rewrite <- E2, <- E1.
    replace (cr c * 77 + cr c * 150 + cr c * 29) with (cr c * 256) by lia.
    apply Z.div_mul. lia.
  - intros. apply Z.div_le_mono; lia.
Qed.

Lemma color_to_gray_mean_witness :
  color_to_gray (mk_color 90 90 90) = 90 /\
  color_to_gray (mk_color 255 220 180) <= color_to_gray (mk_color 255 255 255).
Proof.
  assert (H1 : color_valid (mk_color 90 90 90)) by (unfold color_valid; cbn; lia).
  assert (H2 : color_valid (mk_color 255 220 180)) by (unfold color_valid; cbn; lia).
  assert (H3 : color_valid (mk_color 255 255 255)) by (unfold color_valid; cbn; lia).
  split.
  - exact (proj1 (proj2 (color_to_gray_mean _ _ H1 H1)) eq_refl eq_refl).
  - apply (proj2 (proj2 (color_to_gray_mean _ _ H2 H3))); cbn; lia.
Defined.

(** *** Scaling *)

Lemma channel_scale (r : Z) :
  0 <= r <= 255 ->
  to_uint8 (of_int r * f1)%f32 = r /\
  forall s, to_uint8 (of_int r * S754_zero s)%f32 = 0.
Proof.
  intros Hr.
  assert (Hok : channel_scale_ok = true) by (vm_compute; reflexivity).
  unfold channel_scale_ok in Hok. rewrite forallb_forall in Hok.
  assert (Hin : In r (seqZ 0 256)) by (apply list_elem_of_In, elem_of_seqZ; lia).
  specialize (Hok r Hin). rewrite !andb_true_iff, !Z.eqb_eq in Hok.
  destruct Hok as [[H1 H2] H3]. split; [exact H1|]. intros []; assumption.
Qed.

Lemma SFcompare_f1_Eq (x : float) : SFcompare f1 x = Some Eq -> x = f1.
Proof.
  destruct x as [s|s| |s m e]; try discriminate.
  - destruct s; discriminate.
  - change f1 with (S754_finite false 8388608 (-23)). cbn [SFcompare].
    destruct s; [discriminate|].
    destruct (Z.compare_spec (-23) e) as [<-|?|?]; try discriminate.
    rewrite pos_cont_Eq. intros H. injection H as H. apply Pos.compare_eq in H.
    now subst m.
Qed.

Lemma clamp_factor_high (factor : float) :
  (factor >=? f1)%f32 = true ->
  (let f := if (factor <? of_int 0)%f32 then of_int 0 else factor in
   if (f >? of_int 1)%f32 then of_int 1 else f) = f1.
Proof.
  intros Hge. cbv zeta. change (of_int 0) with f0. change (of_int 1) with f1.
  assert (Hnot : (factor <? f0)%f32 = false).
  { destruct (factor <? f0)%f32 eqn:E; [|reflexivity].
    unfold fge in Hge. change (SFleb f1 factor) with (fle f1 factor) in Hge.
    pose proof (fle_flt_trans _ _ _ Hge E) as Hbad. now vm_compute in Hbad. }
  rewrite Hnot. unfold fgt. unfold fge, SFleb in Hge. unfold SFltb.
  destruct (SFcompare f1 factor) as [[]|] eqn:E; try discriminate.
  - now apply SFcompare_f1_Eq.
  - reflexivity.
Qed.

Lemma clamp_factor_low (factor : float) :
  (factor <=? f0)%f32 = true ->
  exists s,
    (let f := if (factor <? of_int 0)%f32 then of_int 0 else factor in
     if (f >? of_int 1)%f32 then of_int 1 else f) = S754_zero s.
Proof.
  intros Hle. cbv zeta. change (of_int 0) with f0. change (of_int 1) with f1.
  unfold fle, SFleb in Hle. unfold flt, SFltb.
  destruct (SFcompare factor f0) as [[]|] eqn:E; try discriminate.
  - destruct factor as [s|[]| |[] m e]; try discriminate.
    exists s. reflexivity.
  - exists false. reflexivity.
Qed.

(** X15. [color_scale] clamps its factor: a factor of 1 or more returns the
    colour unchanged, a factor of 0 or less (a negative zero included)
    returns black, and the result always has channels of eight bits. *)
Theorem color_scale_clamps (c : color_t) (factor : float) :
  color_valid c ->
  ((factor >=? f1)%f32 = true -> color_scale c factor = c) /\
  ((factor <=? f0)%f32 = true -> color_scale c factor = mk_color 0 0 0) /\
  color_valid (color_scale c factor).
Proof.
  intros (Hr & Hg & Hb). split; [|split].
  - intros Hge. pose proof (clamp_factor_high factor Hge) as Hf. cbv zeta in Hf.
    unfold color_scale. cbv zeta. rewrite Hf.
    rewrite (proj1 (channel_scale _ Hr)), (proj1 (channel_scale _ Hg)),
            (proj1 (channel_scale _ Hb)).
    now destruct c.
  - intros Hle. destruct (clamp_factor_low factor Hle) as [s Hs]. cbv zeta in Hs.
    unfold color_scale. cbv zeta. rewrite Hs.
    now rewrite (proj2 (channel_scale _ Hr)), (proj2 (channel_scale _ Hg)),
                (proj2 (channel_scale _ Hb)).
  - unfold color_valid, color_scale, to_uint8. cbn [cr cg cb].
    repeat split; try (apply Z.mod_pos_bound; lia);
      match goal with |- ?a mod 256 <= 255 =>
        pose proof (Z.mod_pos_bound a 256 ltac:(lia)); lia end.
Qed.

Lemma color_scale_clamps_witness :
  color_scale (mk_color 255 220 180) f2 = mk_color 255 220 180 /\
  color_scale (mk_color 255 220 180) (- f1)%f32 = mk_color 0 0 0.
Proof.
  assert (Hc : color_valid (mk_color 255 220 180)) by (unfold color_valid; cbn; lia).
  split.
  - apply (proj1 (color_scale_clamps _ f2 Hc)). vm_compute. reflexivity.
  - apply (proj1 (proj2 (color_scale_clamps _ (- f1)%f32 Hc))). vm_compute. reflexivity.
Defined.

(** ** Meshes whose faces index existing vertices *)

(** A property that holds before a loop and is carried by its body holds
    after it. *)
Lemma for_range_ind {T : Type} (P : Z -> T -> Prop) (body : Z -> T -> T) (n : nat) :
  forall (i : Z) (s : T),
    P i s ->
    (forall j s, i <= j < i + Z.of_nat n -> P j s -> P (j + 1) (body j s)) ->
    P (i + Z.of_nat n) (for_range n i body s).
Proof.
  induction n as [|n IH]; intros i s H0 Hstep; cbn [for_range].
  - now replace (i + Z.of_nat 0) with i by lia.
  - replace (i + Z.of_nat (S n)) with (i + 1 + Z.of_nat n) by lia.
    apply IH.
    + apply Hstep; [lia|exact H0].
    + intros j s' Hj. apply Hstep. lia.
Qed.

Lemma face_store_length (fs : list face_t) (fi a b c : Z) (col : color_t) :
  length (face_store fs fi a b c col) = length fs.
Proof. unfold face_store. apply length_insert. Qed.

Lemma face_store_indexed (vc : Z) (fs : list face_t) (fi a b c : Z) (col : color_t) :
  0 <= fi < Z.of_nat (length fs) -> vc <= 65536 ->
  0 <= a < vc -> 0 <= b < vc -> 0 <= c < vc ->
  faces_indexed vc fs fi ->
  faces_indexed vc (face_store fs fi a b c col) (fi + 1).
Proof.
  intros Hfi Hvc Ha Hb Hc Hold i k Hi Hk. unfold face_store.
  destruct (Z.eq_dec i fi) as [->|Hne].
  - rewrite list_lookup_insert_eq by lia. rewrite !Z.mod_small by lia.
    destruct k as [|[|[|k]]]; [| | |lia]; cbn; assumption.
  - rewrite list_lookup_insert_ne by lia. apply Hold; lia.
Qed.

Lemma faces_indexed_weaken (vc : Z) (fs : list face_t) (n n' : Z) :
  n' <= n -> faces_indexed vc fs n -> faces_indexed vc fs n'.
Proof. intros Hle H i k Hi Hk. apply H; lia. Qed.

(** *** [mesh_calculate_normals] *)

Lemma insert_loop_length {A : Type} (f : Z -> list A -> list A) :
  (forall i l, length (f i l) = length l) ->
  forall (n : nat) (i : Z) (l : list A), length (for_range n i f l) = length l.
Proof.
  intros Hf. induction n as [|n IH]; intros i l; cbn [for_range]; [reflexivity|].
  now rewrite IH, Hf.
Qed.

Lemma mesh_calculate_normals_length (m : mesh_t) :
  length (normals (mesh_calculate_normals m)) = length (normals m).
Proof.
  unfold mesh_calculate_normals. cbn [normals].
  rewrite !insert_loop_length; try reflexivity; intros; now rewrite !length_insert.
Qed.

Lemma mesh_calculate_normals_well_formed (m : mesh_t) :
  0 <= vertex_count m <= Z.of_nat (length (vertices m)) ->
  length (normals m) = length (vertices m) ->
  0 <= face_count m <= Z.of_nat (length (faces m)) ->
  faces_indexed (vertex_count m) (faces m) (face_count m) ->
  mesh_well_formed (mesh_calculate_normals m).
Proof.
  intros Hv Hn Hf Hi. unfold mesh_well_formed.
  rewrite mesh_calculate_normals_length.
  unfold mesh_calculate_normals. cbn [vertices faces vertex_count normal_count face_count].
  auto.
Qed.

(** *** The fixed primitives *)

Lemma faces_indexed_b_sound (vc : Z) (fs : list face_t) (n : Z) :
  n <= Z.of_nat (length fs) ->
  faces_indexed_b vc (take (Z.to_nat n) fs) = true -> faces_indexed vc fs n.
Proof.
  intros Hn H i k Hi Hk. unfold faces_indexed_b in H. rewrite forallb_forall in H.
  destruct (fs !! Z.to_nat i) as [f|] eqn:E; cbn [default].
  - assert (Hin : In f (take (Z.to_nat n) fs)).
    { apply list_elem_of_In, (list_elem_of_lookup_2 _ (Z.to_nat i)).
      rewrite lookup_take_lt by lia. exact E. }
    specialize (H f Hin). rewrite forallb_forall in H.
    assert (Hk' : In k [0; 1; 2]%nat) by (cbn [In]; lia).
    specialize (H k Hk'). apply andb_true_iff in H. destruct H as [H1 H2].
    apply Z.leb_le in H1. apply Z.ltb_lt in H2. unfold id. lia.
  - apply lookup_ge_None in E. lia.
Qed.

Lemma mesh_tables_ok_sound (m : mesh_t) :
  mesh_tables_ok m = true -> mesh_well_formed (mesh_calculate_normals m).
Proof.
  unfold mesh_tables_ok. rewrite !andb_true_iff. intros [[[[[H1 H2] H3] H4] H5] H6].
  apply mesh_calculate_normals_well_formed; try lia.
  apply faces_indexed_b_sound; [lia|exact H6].
Qed.

(** X16. The three fixed primitives are well formed for every size: the
    cube has 8 vertices and 12 faces, the face 23 and 20, the cake 35 and
    54; the counts fit the arrays [mesh_create] allocated and every face
    indexes vertices below the vertex count.  Each builder returns null
    when the allocation fails. *)
Theorem fixed_primitives_well_formed (cosf sinf : float -> float) (size : float) :
  (exists m, mesh_create_cube true size = Some m /\
     vertex_count m = 8 /\ face_count m = 12 /\ mesh_well_formed m) /\
  (exists m, mesh_create_face true = Some m /\
     vertex_count m = 23 /\ face_count m = 20 /\ mesh_well_formed m) /\
  (exists m, mesh_create_cake cosf sinf true size = Some m /\
     vertex_count m = 35 /\ face_count m = 54 /\ mesh_well_formed m) /\
  mesh_create_cube false size = None /\
  mesh_create_face false = None /\
  mesh_create_cake cosf sinf false size = None.
Proof.
  split; [|split; [|split; [|repeat split]]].
  - unfold mesh_create_cube. cbn [mesh_create].
    eexists. split; [reflexivity|]. split; [reflexivity|]. split; [reflexivity|].
    apply mesh_tables_ok_sound. vm_compute. reflexivity.
  - unfold mesh_create_face. cbn [mesh_create].
    eexists. split; [reflexivity|]. split; [reflexivity|]. split; [reflexivity|].
    apply mesh_tables_ok_sound. vm_compute. reflexivity.
  - unfold mesh_create_cake. cbn [mesh_create].
    eexists. split; [reflexivity|]. split; [reflexivity|]. split; [reflexivity|].
    apply mesh_tables_ok_sound. vm_compute. reflexivity.
Qed.

(** *** The sphere *)

(** A loop that appends [step] faces per iteration, all of them indexing
    vertices below [vc], to a face array with room for them. *)
Lemma store_loop (vc : Z) (len : nat) (body : Z -> list face_t * Z -> list face_t * Z)
    (step : Z) (n : nat) (i0 : Z) :
  0 <= step ->
  (forall j fs fi,
     i0 <= j < i0 + Z.of_nat n -> length fs = len -> 0 <= fi ->
     fi + step <= Z.of_nat len -> faces_indexed vc fs fi ->
     length (fst (body j (fs, fi))) = len /\
     snd (body j (fs, fi)) = fi + step /\
     faces_indexed vc (fst (body j (fs, fi))) (fi + step)) ->
  forall fs fi,
    length fs = len -> 0 <= fi -> fi + step * Z.of_nat n <= Z.of_nat len ->
    faces_indexed vc fs fi ->
    length (fst (for_range n i0 body (fs, fi))) = len /\
    snd (for_range n i0 body (fs, fi)) = fi + step * Z.of_nat n /\
    faces_indexed vc (fst (for_range n i0 body (fs, fi))) (fi + step * Z.of_nat n).
Proof.
  intros Hstep Hbody fs fi Hlen Hfi Hroom Hidx.
  pose proof (for_range_ind
                (fun j s => length (fst s) = len /\ snd s = fi + step * (j - i0) /\
                            faces_indexed vc (fst s) (snd s))
                body n i0 (fs, fi)) as H.
  cbn beta in H. replace (i0 + Z.of_nat n - i0) with (Z.of_nat n) in H by lia.
  destruct H as (H1 & H2 & H3).
  - cbn [fst snd]. replace (i0 - i0) with 0 by lia. rewrite Z.mul_0_r, Z.add_0_r. auto.
  - intros j [fs' fi'] Hj (Hl & Hc & Hi). cbn [fst snd] in Hl, Hc, Hi.
    destruct (Hbody j fs' fi' Hj Hl) as (B1 & B2 & B3); [nia|nia|exact Hi|].
    rewrite B2. split; [exact B1|]. split; [lia|exact B3].
  - rewrite H2 in H3. auto.
Qed.

Lemma rem_range (a b : Z) : 0 <= a -> 0 < b -> 0 <= Z.rem a b < b.
Proof. intros Ha Hb. apply Z.rem_bound_pos; lia. Qed.

Lemma sphere_vertices (cosf sinf : float -> float) (radius : float) (c : Z)
    (vs0 : list vec3_t) :
  4 <= c <= 16 ->
  let r :=
    for_range (Z.to_nat (c - 1)) 1
      (fun r '(vs, vi) =>
         let phi := (M_PI * of_int r / of_int c)%f32 in
         let y := (radius * cosf phi)%f32 in
         let ring_r := (radius * sinf phi)%f32 in
         for_range (Z.to_nat (c * 2)) 0
           (fun s '(vs, vi) =>
              let theta := (f2 * M_PI * of_int s / of_int (c * 2))%f32 in
              (<[Z.to_nat vi :=
                   vec3_create (ring_r * cosf theta)%f32 y (ring_r * sinf theta)%f32]> vs,
               vi + 1))
           (vs, vi))
      (vs0, 1) in
  length (fst r) = length vs0 /\ snd r = 1 + (c - 1) * (c * 2).
Proof.
  intros Hc r. subst r.
  match goal with |- context [for_range ?n 1 ?body ?init] =>
    pose proof (for_range_ind
                  (fun j s => length (fst s) = length vs0 /\ snd s = 1 + (j - 1) * (c * 2))
                  body n 1 init) as H end.
  cbn beta in H. rewrite Z2Nat.id in H by lia.
  replace (1 + (c - 1) - 1) with (c - 1) in H by lia. apply H; clear H.
  - cbn [fst snd]. split; [reflexivity|lia].
  - intros j [vs vi] Hj [Hl Hv]. cbn [fst snd] in Hl, Hv. cbv zeta.
    match goal with |- context [for_range ?n 0 ?body ?init] =>
      pose proof (for_range_ind
                    (fun s st => length (fst st) = length vs0 /\ snd st = vi + s)
                    body n 0 init) as H end.
    cbn beta in H. rewrite Z2Nat.id in H by lia.
    destruct H as [H1 H2].
    + cbn [fst snd]. split; [exact Hl|lia].
    + intros s [vs' vi'] Hs [Hl' Hv']. cbn [fst snd] in *.
      rewrite length_insert. split; [exact Hl'|lia].
    + split; [exact H1|]. rewrite H2. lia.
Qed.

(** X17. [mesh_create_sphere] returns a well-formed mesh for every radius
    and every number of segments: the counts fit the arrays it allocated
    and every face of the two caps and of the bands between the rings
    indexes a vertex below the vertex count. *)
Theorem mesh_create_sphere_well_formed (cosf sinf : float -> float) (radius : float)
    (segments : Z) :
  exists m,
    mesh_create_sphere cosf sinf true radius segments = Some m /\ mesh_well_formed m.
Proof.
  pose proof (clamp_segments_range segments) as Hc.
  unfold mesh_create_sphere. fold (clamp_segments segments).
  set (c := clamp_segments segments) in *.
  unfold mesh_create. cbn [vertices faces normals normal_count position rotation scale].
  set (V := (c - 1) * (c * 2) + 2). set (F := (c - 2) * (c * 2) * 2 + c * 2 * 2).
  assert (HV : V mod 65536 = V) by (apply Z.mod_small; subst V; nia).
  assert (HF : F mod 65536 = F) by (apply Z.mod_small; subst F; nia).
  rewrite HV, HF.
  pose proof (sphere_vertices cosf sinf radius c
                (<[0%nat := vec3_create f0 radius f0]> (replicate (Z.to_nat V) vec3_zero)) Hc)
    as Hverts.
  cbv zeta in Hverts.
  destruct (for_range (Z.to_nat (c - 1)) 1 _ _) as [vs vi].
  cbn [fst snd] in Hverts. destruct Hverts as [Hvl Hvi].
  rewrite length_insert, length_replicate in Hvl.
  assert (Hvc : (vi + 1) mod 65536 = V).
  { replace (vi + 1) with V by (subst V; lia). exact HV. }
  rewrite Hvc.
  set (col := mk_color 255 220 180).
  (* top cap *)
  match goal with |- context [for_range ?n 0 ?body (replicate (Z.to_nat F) face_zero, 0)] =>
    destruct (store_loop V (Z.to_nat F) body 1 n 0) with
      (fs := replicate (Z.to_nat F) face_zero) (fi := 0) as (T1 & T2 & T3) end.
  { lia. }
  { intros j fs fi Hj Hl Hfi Hroom Hidx. cbn [fst snd].
    rewrite face_store_length. split; [exact Hl|]. split; [reflexivity|].
    rewrite Z2Nat.id in Hj by lia.
    pose proof (rem_range (j + 1) (c * 2) ltac:(lia) ltac:(lia)).
    apply face_store_indexed; try lia; try exact Hidx; subst V; nia. }
  { apply length_replicate. }
  { lia. }
  { subst F. nia. }
  { intros i k Hi. lia. }
  destruct (for_range (Z.to_nat (c * 2)) 0 _ (replicate (Z.to_nat F) face_zero, 0))
    as [fs1 fi1].
  cbn [fst snd] in T1, T2, T3. rewrite <- T2 in T3.
  rewrite Z2Nat.id in T2 by lia.
  (* bands *)
  match goal with |- context [for_range ?n 0 ?body (fs1, fi1)] =>
    destruct (store_loop V (Z.to_nat F) body (2 * (c * 2)) n 0) with
      (fs := fs1) (fi := fi1) as (M1 & M2 & M3) end.
  { lia. }
  { intros r fs fi Hr Hl Hfi Hroom Hidx. rewrite Z2Nat.id in Hr by lia.
    match goal with |- context [for_range ?n 0 ?body (fs, fi)] =>
      destruct (store_loop V (Z.to_nat F) body 2 n 0) with
        (fs := fs) (fi := fi) as (I1 & I2 & I3) end.
    - lia.
    - intros s fs' fi' Hs Hl' Hfi' Hroom' Hidx'. cbn [fst snd].
      rewrite !face_store_length. split; [exact Hl'|]. split; [lia|].
      rewrite Z2Nat.id in Hs by lia.
      pose proof (rem_range (s + 1) (c * 2) ltac:(lia) ltac:(lia)).
      replace (fi' + 2) with (fi' + 1 + 1) by lia.
      apply face_store_indexed; try (rewrite ?face_store_length; lia); try (subst V; nia).
      apply face_store_indexed; try lia; try exact Hidx'; subst V; nia.
    - exact Hl.
    - exact Hfi.
    - rewrite Z2Nat.id by lia. lia.
    - exact Hidx.
    - rewrite Z2Nat.id in I2, I3 by lia. auto. }
  { exact T1. }
  { lia. }
  { rewrite Z2Nat.id by lia. subst F. nia. }
  { exact T3. }
  destruct (for_range (Z.to_nat (c - 2)) 0 _ (fs1, fi1)) as [fs2 fi2].
  cbn [fst snd] in M1, M2, M3. rewrite <- M2 in M3.
  rewrite Z2Nat.id in M2 by lia.
  (* bottom cap *)
  match goal with |- context [for_range ?n 0 ?body (fs2, fi2)] =>
    destruct (store_loop V (Z.to_nat F) body 1 n 0) with
      (fs := fs2) (fi := fi2) as (B1 & B2 & B3) end.
  { lia. }
  { intros j fs fi Hj Hl Hfi Hroom Hidx. cbn [fst snd].
    rewrite face_store_length. split; [exact Hl|]. split; [reflexivity|].
    rewrite Z2Nat.id in Hj by lia.
    pose proof (rem_range (j + 1) (c * 2) ltac:(lia) ltac:(lia)).
    apply face_store_indexed; try lia; try exact Hidx; subst V; nia. }
  { exact M1. }
  { nia. }
  { rewrite Z2Nat.id by lia. subst F. nia. }
  { exact M3. }
  destruct (for_range (Z.to_nat (c * 2)) 0 _ (fs2, fi2)) as [fs3 fi3].
  cbn [fst snd] in B1, B2, B3. rewrite <- B2 in B3.
  rewrite Z2Nat.id in B2 by lia.
  assert (Hfi3 : fi3 = F) by (subst F; nia).
  eexists. split; [reflexivity|].
  apply mesh_calculate_normals_well_formed;
    cbn [vertices normals faces vertex_count face_count].
  - rewrite length_insert, Hvl. subst V. nia.
  - now rewrite length_insert, Hvl, length_replicate.
  - rewrite Hfi3, HF, B1. lia.
  - rewrite Hfi3, HF. rewrite Hfi3 in B3. exact B3.
Qed.

(** ** The OBJ loader: what it stores stays inside what it allocated *)

Lemma suffix_of_trans (a b c : string) : suffix_of a b -> suffix_of b c -> suffix_of a c.
Proof. intros Hab Hbc. induction Hbc; [exact Hab|]. now constructor. Qed.

Lemma skip_ws_suffix (p : string) : suffix_of (skip_ws p) p.
Proof.
  induction p as [|c p IH]; cbn [skip_ws]; [constructor|].
  destruct (_ && _); [now constructor|constructor].
Qed.

Lemma skip_space_suffix (p : string) : suffix_of (skip_space p) p.
Proof.
  induction p as [|c p IH]; cbn [skip_space]; [constructor|].
  destruct (isspace c); [now constructor|constructor].
Qed.

Lemma advance_suffix (n : nat) (p : string) : suffix_of (advance n p) p.
Proof.
  revert p. induction n as [|n IH]; intros [|c p]; cbn [advance]; try constructor.
  apply IH.
Qed.

Lemma read_digits_suffix (p : string) :
  forall acc count, suffix_of (snd (read_digits p acc count)) p.
Proof.
  induction p as [|c p IH]; intros acc count; cbn [read_digits]; [constructor|].
  destruct (isdigit c); [constructor; apply IH|constructor].
Qed.

Lemma read_sign_suffix (p : string) : suffix_of (snd (read_sign p)) p.
Proof.
  destruct p as [|c p]; [constructor|]. unfold read_sign.
  destruct c as [[] [] [] [] [] [] [] []]; cbn [snd]; repeat constructor.
Qed.

Lemma strtol_suffix (p : string) : suffix_of (snd (strtol p)) p.
Proof.
  unfold strtol.
  pose proof (skip_space_suffix p) as H1.
  pose proof (read_sign_suffix (skip_space p)) as H2.
  destruct (read_sign (skip_space p)) as [neg q]. cbn [snd] in H2.
  pose proof (read_digits_suffix q 0 0%nat) as H3.
  destruct (read_digits q 0 0) as [[n count] rest]. cbn [snd] in H3.
  destruct count; cbn [snd]; [constructor|].
  exact (suffix_of_trans _ _ _ H3 (suffix_of_trans _ _ _ H2 H1)).
Qed.

Lemma strtof_decimal_suffix (p : string) : suffix_of (snd (strtof_decimal p)) p.
Proof.
  unfold strtof_decimal.
  pose proof (skip_space_suffix p) as H1.
  pose proof (read_sign_suffix (skip_space p)) as H2.
  destruct (read_sign (skip_space p)) as [neg q]. cbn [snd] in H2.
  pose proof (read_digits_suffix q 0 0%nat) as H3.
  destruct (read_digits q 0 0) as [[n icount] q1]. cbn [snd] in H3.
  assert (Hq1 : suffix_of q1 p)
    by exact (suffix_of_trans _ _ _ H3 (suffix_of_trans _ _ _ H2 H1)).
  clear H1 H2 H3.
  assert (Hq2 : forall n' fcount q2,
            match q1 with
            | String "."%char r => let '(n', c, r') := read_digits r n 0 in (n', c, r')
            | _ => (n, 0%nat, q1)
            end = (n', fcount, q2) -> suffix_of q2 p).
  { intros n' fcount q2 E. destruct q1 as [|c r]; [injection E as _ _ <-; exact Hq1|].
    destruct (Ascii.eqb_spec c "."%char) as [->|Hne].
    - pose proof (read_digits_suffix r n 0%nat) as H.
      destruct (read_digits r n 0) as [[a b] r']. cbn [snd] in H.
      injection E as _ _ <-.
      exact (suffix_of_trans _ _ _ (suffix_next _ _ _ H) Hq1).
    - assert (E' : (n, 0%nat, String c r) = (n', fcount, q2)).
      { rewrite <- E. destruct c as [[] [] [] [] [] [] [] []]; first [reflexivity | now elim Hne]. }
      injection E' as _ _ <-. exact Hq1. }
  destruct (match q1 with String "."%char r => _ | _ => _ end) as [[n' fcount] q2] eqn:E.
  specialize (Hq2 _ _ _ eq_refl). clear E.
  destruct (icount + fcount)%nat; cbn [snd]; [constructor|].
  destruct q2 as [|c r]; cbn [snd]; [exact Hq2|].
  destruct (Ascii.eqb c "e" || Ascii.eqb c "E"); cbn [snd]; [|exact Hq2].
  pose proof (read_sign_suffix r) as H4.
  destruct (read_sign r) as [eneg r1]. cbn [snd] in H4.
  pose proof (read_digits_suffix r1 0 0%nat) as H5.
  destruct (read_digits r1 0 0) as [[e ecount] r2]. cbn [snd] in H5.
  destruct ecount; cbn [snd]; [exact Hq2|].
  exact (suffix_of_trans _ _ _ H5
           (suffix_of_trans _ _ _ H4 (suffix_of_trans _ _ _ (suffix_next _ _ _ (suffix_here _)) Hq2))).
Qed.

Lemma parse_face_index_suffix (p : string) : suffix_of (snd (parse_face_index p)) p.
Proof.
  unfold parse_face_index, parse_int.
  pose proof (strtol_suffix (skip_ws p)) as H1.
  destruct (strtol (skip_ws p)) as [idx q]. cbn [snd] in *.
  assert (Hq : suffix_of q p) by exact (suffix_of_trans _ _ _ H1 (skip_ws_suffix p)).
  destruct q as [|c p1]; [exact Hq|].
  destruct (Ascii.eqb_spec c "/"%char) as [->|Hne].
  2:{ destruct c as [[] [] [] [] [] [] [] []]; first [exact Hq | now elim Hne]. }
  assert (Hp1 : suffix_of p1 p)
    by exact (suffix_of_trans _ _ _ (suffix_next _ _ _ (suffix_here _)) Hq).
  assert (Hp2 : suffix_of
                  (match p1 with String "/"%char _ => p1 | _ => snd (strtol p1) end) p).
  { destruct p1 as [|c p1']; [exact (suffix_of_trans _ _ _ (strtol_suffix _) Hp1)|].
    destruct (Ascii.eqb_spec c "/"%char) as [->|Hne]; [exact Hp1|].
    assert (E : match String c p1' with String "/"%char _ => String c p1'
                | _ => snd (strtol (String c p1')) end = snd (strtol (String c p1'))).
    { destruct c as [[] [] [] [] [] [] [] []]; first [reflexivity | now elim Hne]. }
    rewrite E. exact (suffix_of_trans _ _ _ (strtol_suffix _) Hp1). }
  destruct (match p1 with String "/"%char _ => p1 | _ => snd (strtol p1) end)
    as [|c p3]; [exact Hp2|].
  destruct (Ascii.eqb_spec c "/"%char) as [->|Hne].
  - exact (suffix_of_trans _ _ _ (strtol_suffix _)
             (suffix_of_trans _ _ _ (suffix_next _ _ _ (suffix_here _)) Hp2)).
  - destruct c as [[] [] [] [] [] [] [] []]; first [exact Hp2 | now elim Hne].
Qed.

Lemma suffix_of_length (q p : string) : suffix_of q p -> (String.length q <= String.length p)%nat.
Proof. induction 1; cbn [String.length]; lia. Qed.

Lemma skip_line_suffix (p : string) : suffix_of (skip_line p) p.
Proof.
  induction p as [|c p IH]; cbn [skip_line]; [constructor|].
  destruct (Ascii.eqb c newline); constructor; [constructor|exact IH].
Qed.

Lemma skip_line_shorter (c : ascii) (p : string) :
  (String.length (skip_line (String c p)) <= String.length p)%nat.
Proof.
  cbn [skip_line]. destruct (Ascii.eqb c newline); [lia|].
  apply suffix_of_length, skip_line_suffix.
Qed.

Lemma skip_line_skip_ws (p : string) : skip_line (skip_ws p) = skip_line p.
Proof.
  induction p as [|c p IH]; [reflexivity|]. cbn [skip_ws].
  destruct (isspace c && negb (Ascii.eqb c newline)) eqn:E; [|reflexivity].
  rewrite IH. cbn [skip_line]. apply andb_true_iff in E. destruct E as [_ E].
  now destruct (Ascii.eqb c newline).
Qed.

Lemma vertex_records_enough (n : nat) :
  forall m p, (String.length p <= n)%nat -> (String.length p <= m)%nat ->
    vertex_records n p = vertex_records m p.
Proof.
  induction n as [|n IH]; intros m p Hn Hm.
  - destruct p; [|cbn [String.length] in Hn; lia]. now destruct m.
  - destruct p as [|c p]; [now destruct m|].
    destruct m as [|m]; [cbn [String.length] in Hm; lia|].
    cbn [vertex_records]. f_equal.
    pose proof (skip_line_shorter c p). cbn [String.length] in Hn, Hm.
    apply IH; lia.
Qed.

Lemma lines_vertices_step (c : ascii) (p : string) :
  lines_vertices (String c p)
  = (if starts_record "v" (skip_ws (String c p)) then 1 else 0)
    + lines_vertices (skip_line (String c p)).
Proof.
  unfold lines_vertices. cbn [String.length]. cbn [vertex_records]. f_equal.
  pose proof (skip_line_shorter c p). apply vertex_records_enough; lia.
Qed.

Lemma vertex_records_nonneg (n : nat) : forall p, 0 <= vertex_records n p.
Proof.
  induction n as [|n IH]; intros p; cbn [vertex_records]; [lia|].
  destruct p as [|c p]; [lia|]. specialize (IH (skip_line (String c p))).
  destruct (starts_record _ _); lia.
Qed.

Lemma lines_vertices_skip_line (p : string) : lines_vertices (skip_line p) <= lines_vertices p.
Proof.
  destruct p as [|c p]; [reflexivity|]. rewrite lines_vertices_step.
  destruct (starts_record _ _); lia.
Qed.

Lemma lines_vertices_suffix (q p : string) :
  suffix_of q p -> lines_vertices (skip_line q) <= lines_vertices (skip_line p).
Proof.
  induction 1 as [|c p Hs IH]; [lia|]. cbn [skip_line].
  destruct (Ascii.eqb c newline); [|exact IH].
  pose proof (lines_vertices_skip_line p). lia.
Qed.

Lemma count_loop_verts (fuel : nat) :
  forall p verts faces verts' faces',
    count_loop fuel p verts faces = Some (verts', faces') ->
    verts' = verts + lines_vertices p /\ faces <= faces'.
Proof.
  induction fuel as [|fuel IH]; intros p verts faces verts' faces' H; [discriminate|].
  cbn [count_loop] in H. destruct p as [|c p].
  - injection H as <- <-. unfold lines_vertices. cbn. lia.
  - rewrite lines_vertices_step. rewrite skip_line_skip_ws in H.
    destruct (starts_record "v" (skip_ws (String c p))).
    + apply IH in H. lia.
    + destruct (starts_record "f" (skip_ws (String c p))).
      * destruct (count_face_verts fuel _ 0) as [face_verts|]; [|discriminate].
        apply IH in H. destruct (face_verts >=? 3) eqn:E; [|lia].
        apply Z.geb_le in E. lia.
      * apply IH in H. lia.
Qed.

(** *** The index loop and the fan *)

Lemma face_index_loop_inv (fuel : nat) :
  forall p vi fis nv p' fis' nv',
    face_index_loop fuel p vi fis nv = Some (p', fis', nv') ->
    length fis = 16%nat -> 0 <= nv <= 16 ->
    (forall k, 0 <= k < nv -> 0 <= index_at fis k < vi) ->
    suffix_of p' p /\ length fis' = 16%nat /\ nv <= nv' <= 16 /\
    (forall k, 0 <= k < nv' -> 0 <= index_at fis' k < vi).
Proof.
  induction fuel as [|fuel IH]; intros p vi fis nv p' fis' nv' H Hlen Hnv Hidx;
    [discriminate|].
  cbn [face_index_loop] in H.
  destruct (at_eol p || negb (nv <? 16)) eqn:Hexit.
  - injection H as <- <- <-. split; [constructor|]. auto with zarith.
  - apply orb_false_iff in Hexit. destruct Hexit as [_ Hlt].
    apply negb_false_iff, Z.ltb_lt in Hlt.
    pose proof (skip_ws_suffix p) as Hws.
    destruct (negb (at_eol (skip_ws p)) && _).
    + pose proof (parse_face_index_suffix (skip_ws p)) as Hpf.
      destruct (parse_face_index (skip_ws p)) as [idx q]. cbn [snd] in Hpf.
      set (idx' := if idx <? 0 then vi + idx else idx - 1) in *.
      destruct ((idx' >=? 0) && (idx' <? vi)) eqn:Hok.
      * apply andb_true_iff in Hok. destruct Hok as [Hge Hlt'].
        apply Z.geb_le in Hge. apply Z.ltb_lt in Hlt'.
        apply IH in H.
        -- destruct H as (H1 & H2 & H3 & H4).
           split; [exact (suffix_of_trans _ _ _ H1 (suffix_of_trans _ _ _ Hpf Hws))|].
           split; [exact H2|]. split; [lia|exact H4].
        -- now rewrite length_insert.
        -- lia.
        -- intros k Hk. unfold index_at.
           destruct (Z.eq_dec k nv) as [->|Hne].
           ++ rewrite list_lookup_insert_eq by lia. cbn. lia.
           ++ rewrite list_lookup_insert_ne by lia. apply Hidx. lia.
      * apply IH in H; try assumption.
        destruct H as (H1 & H2 & H3 & H4).
        split; [exact (suffix_of_trans _ _ _ H1 (suffix_of_trans _ _ _ Hpf Hws))|]. auto.
    + apply IH in H; try assumption.
      destruct H as (H1 & H2 & H3 & H4).
      split; [exact (suffix_of_trans _ _ _ H1 Hws)|]. auto.
Qed.

Lemma faces_indexed_more (vc vc' : Z) (fs : list face_t) (n : Z) :
  vc <= vc' -> faces_indexed vc fs n -> faces_indexed vc' fs n.
Proof. intros Hle H i k Hi Hk. specialize (H i k Hi Hk). lia. Qed.

Lemma fan_loop_inv (vi : Z) (len : nat) (fis : list Z) (fc : Z) (col : color_t) (n : nat) :
  forall i fs fi,
    length fs = len -> 0 <= fi -> fc < Z.of_nat len -> vi <= 65536 ->
    0 <= index_at fis 0 < vi ->
    (forall j, i <= j <= i + Z.of_nat n -> 0 <= index_at fis j < vi) ->
    faces_indexed vi fs fi ->
    length (fst (fan_loop n i fis fc col fs fi)) = len /\
    fi <= snd (fan_loop n i fis fc col fs fi) <= Z.max fi fc /\
    faces_indexed vi (fst (fan_loop n i fis fc col fs fi))
                  (snd (fan_loop n i fis fc col fs fi)).
Proof.
  induction n as [|n IH]; intros i fs fi Hlen Hfi Hfc Hvi H0 Hj Hidx; cbn [fan_loop].
  - cbn [fst snd]. split; [exact Hlen|]. split; [lia|exact Hidx].
  - destruct (Z.ltb_spec fi fc) as [Hlt|Hge].
    + destruct (IH (i + 1)
                  (face_store fs fi (index_at fis 0) (index_at fis i) (index_at fis (i + 1)) col)
                  (fi + 1)) as (H1 & H2 & H3).
      * now rewrite face_store_length.
      * lia.
      * exact Hfc.
      * exact Hvi.
      * exact H0.
      * intros j Hjr. apply Hj. lia.
      * apply face_store_indexed; try lia; try assumption; apply Hj; lia.
      * split; [exact H1|]. split; [lia|exact H3].
    + cbn [fst snd]. split; [exact Hlen|]. split; [lia|exact Hidx].
Qed.

(** *** The record loop *)

Section LoaderBounds.

Variable strtof : string -> float * string.
Hypothesis strtof_suffix : forall p, suffix_of (snd (strtof p)) p.

Lemma parse_float_suffix (p : string) : suffix_of (snd (parse_float strtof p)) p.
Proof.
  unfold parse_float.
  exact (suffix_of_trans _ _ _ (strtof_suffix (skip_ws p)) (skip_ws_suffix p)).
Qed.

Lemma parse_loop_inv (lv lf : nat) (fc : Z) (col : color_t) (fuel : nat) :
  forall p vs fs vi fi vs' fs' vi' fi',
    parse_loop strtof fuel p fc col vs fs vi fi = Some (vs', fs', vi', fi') ->
    length vs = lv -> length fs = lf ->
    0 <= vi -> vi + lines_vertices p <= 65536 ->
    0 <= fi <= fc -> fc < Z.of_nat lf ->
    faces_indexed vi fs fi ->
    length vs' = lv /\ length fs' = lf /\
    vi <= vi' <= vi + lines_vertices p /\ fi <= fi' <= fc /\
    faces_indexed vi' fs' fi'.
Proof.
  induction fuel as [|fuel IH];
    intros p vs fs vi fi vs' fs' vi' fi' H Hlv Hlf Hvi Hcap Hfi Hfc Hidx; [discriminate|].
  cbn [parse_loop] in H. destruct p as [|c p].
  - injection H as <- <- <- <-. unfold lines_vertices. cbn [String.length vertex_records].
    split; [exact Hlv|]. split; [exact Hlf|]. split; [lia|]. split; [lia|exact Hidx].
  - rewrite lines_vertices_step in *.
    pose proof (skip_ws_suffix (String c p)) as Hws.
    set (p1 := skip_ws (String c p)) in *.
    rewrite <- (skip_line_skip_ws (String c p)) in *. fold p1 in Hcap |- *.
    destruct (starts_record "v" p1).
    + pose proof (advance_suffix 2 p1) as Ha.
      pose proof (parse_float_suffix (advance 2 p1)) as Hx.
      destruct (parse_float strtof (advance 2 p1)) as [x px]. cbn [snd] in Hx.
      pose proof (parse_float_suffix px) as Hy.
      destruct (parse_float strtof px) as [y py]. cbn [snd] in Hy.
      pose proof (parse_float_suffix py) as Hz.
      destruct (parse_float strtof py) as [z pz]. cbn [snd] in Hz.
      assert (Hsuf : suffix_of pz p1)
        by exact (suffix_of_trans _ _ _ Hz
                    (suffix_of_trans _ _ _ Hy (suffix_of_trans _ _ _ Hx Ha))).
      pose proof (lines_vertices_suffix _ _ Hsuf) as Hmono.
      apply IH in H.
      * destruct H as (H1 & H2 & H3 & H4 & H5).
        split; [exact H1|]. split; [exact H2|]. split; [lia|]. split; [exact H4|exact H5].
      * now rewrite length_insert.
      * exact Hlf.
      * lia.
      * lia.
      * exact Hfi.
      * exact Hfc.
      * apply (faces_indexed_more vi); [lia|exact Hidx].
    + destruct (starts_record "f" p1).
      * destruct (face_index_loop fuel (advance 2 p1) vi (replicate 16 0) 0)
          as [[[q fis] nv]|] eqn:Eloop; [|discriminate].
        apply face_index_loop_inv in Eloop;
          [|apply length_replicate|lia|intros k Hk; lia].
        destruct Eloop as (Hq & Hfl & Hnv & Hval).
        assert (Hsuf : suffix_of q p1)
          by exact (suffix_of_trans _ _ _ Hq (advance_suffix 2 p1)).
        pose proof (lines_vertices_suffix _ _ Hsuf) as Hmono.
        pose proof (vertex_records_nonneg (String.length (skip_line p1)) (skip_line p1))
          as Hnn.
        fold (lines_vertices (skip_line p1)) in Hnn.
        destruct (Z.le_gt_cases nv 2) as [Hsmall|Hbig].
        -- (* no triangle: the fan loop does not run *)
           replace (Z.to_nat (nv - 2)) with 0%nat in H by lia. cbn [fan_loop] in H.
           apply IH in H; try assumption; try lia.
           destruct H as (H1 & H2 & H3 & H4 & H5).
           split; [exact H1|]. split; [exact H2|]. split; [lia|]. split; [lia|exact H5].
        -- destruct (fan_loop_inv vi lf fis fc col (Z.to_nat (nv - 2)) 1 fs fi Hlf)
             as (F1 & F2 & F3); try lia; try assumption.
           { apply Hval. lia. }
           { intros j Hj. apply Hval. lia. }
           destruct (fan_loop (Z.to_nat (nv - 2)) 1 fis fc col fs fi) as [fs1 fi1].
           cbn [fst snd] in F1, F2, F3.
           apply IH in H; try assumption; try lia.
           destruct H as (H1 & H2 & H3 & H4 & H5).
           split; [exact H1|]. split; [exact H2|]. split; [lia|]. split; [lia|exact H5].
      * apply IH in H; try assumption; lia.
Qed.

(** X18. A mesh that [obj_load_from_string] returns is well formed, whatever
    the text was: it holds no more vertices and faces than the first pass
    counted and allocated, so at most [MAX_VERTICES] and [MAX_FACES], every
    face it stored indexes a vertex that was parsed before it, and the
    message left for [obj_get_error] reports the two counts of the mesh.
    The one assumption on libc is that [strtof] returns a position in the
    text it was given. *)
Theorem obj_load_from_string_well_formed (fuel : nat) (alloc : bool) (data : string)
    (default_color : color_t) (error_msg : string) (m : mesh_t) (msg : string) :
  obj_load_from_string strtof fuel alloc (Some data) default_color error_msg
    = Some (Some m, msg) ->
  mesh_well_formed m /\
  vertex_count m <= MAX_VERTICES /\ face_count m <= MAX_FACES /\
  obj_get_error msg
  = snprintf_128 ("OK: " ++ string_of_int (vertex_count m) ++ " verts, "
                  ++ string_of_int (face_count m) ++ " faces").
Proof.
  unfold obj_load_from_string, count_elements.
  destruct (count_loop fuel data 0 0) as [[vc fc]|] eqn:Ecount; [|discriminate].
  apply count_loop_verts in Ecount. destruct Ecount as [Hvc Hfc].
  pose proof (vertex_records_nonneg (String.length data) data) as Hn.
  fold (lines_vertices data) in Hn.
  destruct (vc =? 0); [discriminate|].
  destruct ((vc >? MAX_VERTICES) || (fc >? MAX_FACES)) eqn:Ecap; [discriminate|].
  apply orb_false_iff in Ecap. destruct Ecap as [Hv Hf].
  rewrite Z.gtb_ltb in Hv, Hf. apply Z.ltb_ge in Hv, Hf.
  unfold MAX_VERTICES, MAX_FACES in *.
  unfold mesh_create. destruct alloc; [|discriminate].
  cbn [vertices faces normals normal_count position rotation scale].
  rewrite !Z.mod_small by lia.
  destruct (parse_loop strtof fuel data fc default_color _ _ 0 0)
    as [[[[vs fs] vi] fi]|] eqn:Eparse; [|discriminate].
  apply (parse_loop_inv (Z.to_nat (vc + 1)) (Z.to_nat (fc + 1))) in Eparse;
    try apply length_replicate; try lia.
  2:{ intros i k Hi. lia. }
  destruct Eparse as (H1 & H2 & H3 & H4 & H5).
  intros H. injection H as <- <-.
  split; [|unfold mesh_calculate_normals; cbn [vertex_count face_count];
           rewrite !Z.mod_small by lia; repeat split; lia].
  apply mesh_calculate_normals_well_formed;
    cbn [vertices normals faces vertex_count face_count];
    rewrite ?Z.mod_small by lia; rewrite ?length_replicate; try lia.
  exact H5.
Qed.

End LoaderBounds.

Lemma obj_load_from_string_well_formed_witness :
  mesh_well_formed (obj_triangle_mesh white).
Proof.
  exact (proj1 (obj_load_from_string_well_formed strtof_decimal strtof_decimal_suffix
                  10 true obj_triangle_text white "" (obj_triangle_mesh white)
                  "OK: 3 verts, 1 faces" (obj_load_triangle_run white ""))).
Defined.

(** *** Fan triangulation *)

Lemma face_store_lookup (fs : list face_t) (fi a b c : Z) (col : color_t) (j : Z) :
  0 <= fi -> 0 <= j ->
  default face_zero (face_store fs fi a b c col !! Z.to_nat j)
  = if (j =? fi) && (fi <? Z.of_nat (length fs))
    then mk_face [a mod 65536; b mod 65536; c mod 65536]
                 (face_n (default face_zero (fs !! Z.to_nat fi))) col
    else default face_zero (fs !! Z.to_nat j).
Proof.
  intros Hfi Hj. unfold face_store.
  destruct (Z.eqb_spec j fi) as [->|Hne]; cbn [andb].
  - destruct (Z.ltb_spec fi (Z.of_nat (length fs))).
    + now rewrite list_lookup_insert_eq by lia.
    + now rewrite list_insert_ge by lia.
  - now rewrite list_lookup_insert_ne by lia.
Qed.

Lemma fan_loop_faces (fis : list Z) (fc : Z) (col : color_t) (n : nat) :
  forall i fs fi,
    0 <= fi -> fi + Z.of_nat n <= fc -> fc <= Z.of_nat (length fs) ->
    snd (fan_loop n i fis fc col fs fi) = fi + Z.of_nat n /\
    length (fst (fan_loop n i fis fc col fs fi)) = length fs /\
    (forall k, 0 <= k < Z.of_nat n ->
       let f := default face_zero (fst (fan_loop n i fis fc col fs fi) !! Z.to_nat (fi + k)) in
       face_v f = [index_at fis 0 mod 65536; index_at fis (i + k) mod 65536;
                   index_at fis (i + k + 1) mod 65536] /\
       face_color f = col) /\
    (forall j, 0 <= j < fi ->
       default face_zero (fst (fan_loop n i fis fc col fs fi) !! Z.to_nat j)
       = default face_zero (fs !! Z.to_nat j)).
Proof.
  induction n as [|n IH]; intros i fs fi Hfi Hroom Hcap; cbn [fan_loop].
  - cbn [fst snd]. split; [lia|]. split; [reflexivity|]. split; [intros k Hk; lia|auto].
  - destruct (Z.ltb_spec fi fc) as [_|Hge]; [|lia].
    set (fs1 := face_store fs fi (index_at fis 0) (index_at fis i) (index_at fis (i + 1)) col).
    assert (Hl1 : length fs1 = length fs) by apply face_store_length.
    destruct (IH (i + 1) fs1 (fi + 1)) as (H1 & H2 & H3 & H4); [lia|lia|lia|].
    split; [lia|]. split; [congruence|]. split.
    + intros k Hk. destruct (Z.eq_dec k 0) as [->|Hk0].
      * cbv zeta. rewrite Z.add_0_r. rewrite H4 by lia. subst fs1.
        rewrite face_store_lookup by lia. rewrite Z.eqb_refl.
        destruct (Z.ltb_spec fi (Z.of_nat (length fs))); [|lia]. cbn [andb face_v face_color].
        now rewrite Z.add_0_r.
      * specialize (H3 (k - 1) ltac:(lia)). cbv zeta in H3 |- *.
        replace (fi + 1 + (k - 1)) with (fi + k) in H3 by lia.
        replace (i + 1 + (k - 1)) with (i + k) in H3 by lia.
        replace (i + 1 + (k - 1) + 1) with (i + k + 1) in H3 by lia.
        exact H3.
    + intros j Hj. rewrite H4 by lia. subst fs1. rewrite face_store_lookup by lia.
      destruct (Z.eqb_spec j fi); [lia|reflexivity].
Qed.

(** X19. Fan triangulation: for a polygon of which [n + 2] indices were
    kept and with room for [n] more faces, the loop stores exactly [n]
    triangles, the [k]-th made of the first index and the indices [k + 1]
    and [k + 2], each with the default colour; the faces stored before are
    untouched. *)
Theorem fan_triangulation (fis : list Z) (fc : Z) (col : color_t) (n : nat)
    (fs : list face_t) (fi k : Z) :
  0 <= fi -> fi + Z.of_nat n <= fc -> fc <= Z.of_nat (length fs) ->
  let r := fan_loop n 1 fis fc col fs fi in
  snd r = fi + Z.of_nat n /\
  length (fst r) = length fs /\
  (0 <= k < Z.of_nat n ->
     face_v (default face_zero (fst r !! Z.to_nat (fi + k)))
       = [index_at fis 0 mod 65536; index_at fis (k + 1) mod 65536;
          index_at fis (k + 2) mod 65536] /\
     face_color (default face_zero (fst r !! Z.to_nat (fi + k))) = col) /\
  (0 <= k < fi ->
     default face_zero (fst r !! Z.to_nat k) = default face_zero (fs !! Z.to_nat k)).
Proof.
  intros Hfi Hroom Hcap r. subst r.
  destruct (fan_loop_faces fis fc col n 1 fs fi Hfi Hroom Hcap) as (H1 & H2 & H3 & H4).
  split; [exact H1|]. split; [exact H2|]. split; [|apply H4].
  intros Hk. specialize (H3 k Hk). cbv zeta in H3.
  replace (1 + k) with (k + 1) in H3 by lia. replace (k + 1 + 1) with (k + 2) in H3 by lia.
  exact H3.
Qed.

Lemma fan_triangulation_witness :
  let r := fan_loop 2 1 [4; 5; 6; 7] 8 white (replicate 9 face_zero) 0 in
  snd r = 2 /\
  face_v (default face_zero (fst r !! 1%nat)) = [4; 6; 7].
Proof.
  intros r.
  destruct (fan_triangulation [4; 5; 6; 7] 8 white 2 (replicate 9 face_zero) 0 1)
    as (H1 & _ & H3 & _); [lia|lia|cbn; lia|].
  split; [exact H1|]. exact (proj1 (H3 ltac:(lia))).
Defined.

(** *** Face records that the loops cannot get past *)

Lemma skip_ws_at_eol (p : string) : at_eol p = true -> skip_ws p = p.
Proof.
  destruct p as [|c p]; [reflexivity|]. cbn [at_eol skip_ws]. intros H.
  now rewrite H, andb_false_r.
Qed.

Lemma skip_ws_idem (p : string) : skip_ws (skip_ws p) = skip_ws p.
Proof.
  induction p as [|c p IH]; [reflexivity|]. cbn [skip_ws].
  destruct (isspace c && negb (Ascii.eqb c newline)) eqn:E; [exact IH|].
  cbn [skip_ws]. now rewrite E.
Qed.

Lemma count_face_verts_stuck (fuel : nat) :
  forall line n,
    at_eol (skip_ws line) = false ->
    snd (parse_face_index (skip_ws line)) = skip_ws line ->
    count_face_verts fuel line n = None.
Proof.
  induction fuel as [|fuel IH]; intros line n Heol Hstuck; [reflexivity|].
  cbn [count_face_verts].
  destruct (at_eol line) eqn:E.
  - rewrite (skip_ws_at_eol line E) in Heol. congruence.
  - rewrite Heol. cbn [negb]. rewrite Hstuck. apply IH; now rewrite skip_ws_idem.
Qed.

Lemma parse_face_index_unreadable (c : ascii) (rest : string) :
  unreadable c = true -> parse_face_index (String c rest) = (0, String c rest).
Proof.
  destruct c as [[] [] [] [] [] [] [] []]; intros H; try discriminate H; reflexivity.
Qed.

Lemma unreadable_not_eol (c : ascii) (rest : string) :
  unreadable c = true ->
  skip_ws (String c rest) = String c rest /\ at_eol (String c rest) = false.
Proof.
  destruct c as [[] [] [] [] [] [] [] []]; intros H; try discriminate H; split; reflexivity.
Qed.

Lemma skip_line_app (l rest : string) :
  has_newline l = false -> skip_line (l ++ String newline rest) = rest.
Proof.
  induction l as [|c l IH]; cbn [has_newline append skip_line]; intros H.
  - now rewrite Ascii.eqb_refl.
  - apply orb_false_iff in H. destruct H as [Hc Hl]. rewrite Hc. now apply IH.
Qed.

Lemma string_app_assoc (a b c : string) : ((a ++ b) ++ c = a ++ (b ++ c))%string.
Proof. induction a as [|x a IH]; cbn [append]; [reflexivity|now rewrite IH]. Qed.

Lemma count_loop_after_lines (tail : string) :
  (forall fuel verts faces, count_loop fuel tail verts faces = None) ->
  forall ls, Forall (fun l => has_newline l = false) ls ->
    forall fuel verts faces,
      count_loop fuel (unlines ls ++ tail) verts faces = None.
Proof.
  intros Htail ls Hls. induction Hls as [|l ls Hl _ IH]; intros fuel verts faces.
  - apply Htail.
  - destruct fuel as [|fuel]; [reflexivity|].
    cbn [unlines]. rewrite string_app_assoc. cbn [append].
    cbn [count_loop].
    destruct (l ++ String newline (unlines ls ++ tail))%string as [|c0 r0] eqn:E.
    { destruct l; discriminate E. }
    rewrite <- E. rewrite skip_line_skip_ws, (skip_line_app l _ Hl).
    destruct (starts_record "v" _); [apply IH|].
    destruct (starts_record "f" _); [|apply IH].
    destruct (count_face_verts fuel _ 0); [apply IH|reflexivity].
Qed.

(** X20. A face record whose first token starts with a character that is
    neither a digit, a sign, a slash nor white space stops the loader for
    good: the scanning loop makes no progress on it, so for no number of
    loop iterations does [count_elements] or [obj_load_from_string] return,
    whatever whole lines come before the record and whatever follows
    it. *)
Theorem obj_load_stuck_on_unreadable_token (strtof : string -> float * string)
    (fuel : nat) (alloc : bool) (ls : list string) (c : ascii) (rest : string)
    (default_color : color_t) (error_msg : string) :
  Forall (fun l => has_newline l = false) ls ->
  unreadable c = true ->
  let data := (unlines ls ++ String "f" (String " " (String c rest)))%string in
  count_elements fuel data = None /\
  obj_load_from_string strtof fuel alloc (Some data) default_color error_msg = None.
Proof.
  intros Hls Hc data.
  assert (Hcount : count_elements fuel data = None).
  { unfold count_elements. subst data. apply count_loop_after_lines; [|exact Hls].
    intros [|fuel'] verts faces; [reflexivity|].
    cbn [count_loop].
    change (skip_ws (String "f" (String " " (String c rest))))
      with (String "f" (String " " (String c rest))).
    cbn [starts_record advance].
    change (("f" =? "v")%char && (" " =? " ")%char) with false.
    change (("f" =? "f")%char && (" " =? " ")%char) with true.
    cbn iota.
    destruct (unreadable_not_eol c rest Hc) as [Hws Heol].
    rewrite (count_face_verts_stuck fuel' (String c rest) 0); [reflexivity| |].
    - now rewrite Hws.
    - now rewrite Hws, (parse_face_index_unreadable c rest Hc). }
  split; [exact Hcount|]. unfold obj_load_from_string. now rewrite Hcount.
Qed.

Lemma obj_load_stuck_on_unreadable_token_witness :
  count_elements 1000 (unlines ["v 0 0 0"; "v 1 0 0"; "v 0 1 0"] ++ "f a b c")%string = None.
Proof.
  refine (proj1 (obj_load_stuck_on_unreadable_token strtof_decimal 1000 true
                   ["v 0 0 0"; "v 1 0 0"; "v 0 1 0"]%string "a" " b c" white "" _ _)).
  - repeat constructor.
  - reflexivity.
Defined.

(** *** Texts the loader rejects *)

(** X21. What [obj_load_from_string] answers without building a mesh: a
    null pointer gives "Null data pointer"; a text none of whose lines is a
    vertex record, the empty text among them, gives "No vertices found"
    whenever the loader returns; and when [mesh_create] fails the loader
    never returns a mesh. *)
Theorem obj_load_rejections (strtof : string -> float * string) (fuel : nat) (alloc : bool)
    (data : string) (default_color : color_t) (error_msg : string)
    (r : option mesh_t * string) :
  obj_load_from_string strtof fuel alloc None default_color error_msg
    = Some (None, "Null data pointer"%string) /\
  (lines_vertices data = 0 ->
   obj_load_from_string strtof fuel alloc (Some data) default_color error_msg = Some r ->
   r = (None, "No vertices found"%string)) /\
  obj_load_from_string strtof (S fuel) alloc (Some EmptyString) default_color error_msg
    = Some (None, "No vertices found"%string) /\
  (obj_load_from_string strtof fuel false (Some data) default_color error_msg = Some r ->
   fst r = None).
Proof.
  split; [reflexivity|]. split; [|split; [reflexivity|]].
  - intros Hno. unfold obj_load_from_string, count_elements.
    destruct (count_loop fuel data 0 0) as [[vc fc]|] eqn:E; [|discriminate].
    apply count_loop_verts in E. destruct E as [-> _]. rewrite Hno. cbn [Z.add Z.eqb].
    now intros [= <-].
  - unfold obj_load_from_string.
    destruct (count_elements fuel data) as [[vc fc]|]; [|discriminate].
    destruct (vc =? 0); [now intros [= <-]|].
    destruct (_ || _); [now intros [= <-]|].
    cbn [mesh_create]. now intros [= <-].
Qed.

(** *** Normals of vertices no face uses *)

Lemma vec3_normalize_zero : vec3_normalize vec3_zero = vec3_zero.
Proof. vm_compute. reflexivity. Qed.

Lemma normal_at_insert (ns : list vec3_t) (i j : Z) (v : vec3_t) :
  0 <= i -> 0 <= j ->
  normal_at (<[Z.to_nat i := v]> ns) j
  = if (i =? j) && (i <? Z.of_nat (length ns)) then v else normal_at ns j.
Proof.
  intros Hi Hj. unfold normal_at.
  destruct (Z.eqb_spec i j) as [->|Hne]; cbn [andb].
  - destruct (Z.ltb_spec j (Z.of_nat (length ns))).
    + now rewrite list_lookup_insert_eq by lia.
    + now rewrite list_insert_ge by lia.
  - now rewrite list_lookup_insert_ne by lia.
Qed.

(** X22. [mesh_calculate_normals] leaves vertices, faces and both counts as
    they are and sets the normal count to the vertex count; a vertex that no
    face uses gets the zero vector as its normal. *)
Theorem mesh_calculate_normals_unused_vertex (m : mesh_t) (i : Z) :
  vertex_count m <= Z.of_nat (length (normals m)) ->
  faces_indexed (vertex_count m) (faces m) (face_count m) ->
  0 <= i < vertex_count m ->
  (forall j k, 0 <= j < face_count m -> (k < 3)%nat -> fv (face_at m j) k <> i) ->
  let m' := mesh_calculate_normals m in
  normal_at (normals m') i = vec3_zero /\
  vertices m' = vertices m /\ faces m' = faces m /\
  vertex_count m' = vertex_count m /\ face_count m' = face_count m /\
  normal_count m' = vertex_count m /\
  length (normals m') = length (normals m).
Proof.
  intros Hlen Hidx Hi Hfree m'. subst m'.
  split; [|rewrite mesh_calculate_normals_length; repeat split].
  unfold mesh_calculate_normals. cbn [normals].
  (* the zeroing loop *)
  match goal with |- context [for_range ?n 0 ?body (normals m)] =>
    pose proof (for_range_ind
                  (fun j ns => length ns = length (normals m) /\
                               (i < j -> normal_at ns i = vec3_zero))
                  body n 0 (normals m)) as H1;
    set (ns1 := for_range n 0 body (normals m)) in * end.
  cbn beta in H1. destruct H1 as [L1 Z1].
  { split; [reflexivity|lia]. }
  { intros j ns Hj [Hl Hz]. rewrite length_insert. split; [exact Hl|].
    intros Hij. rewrite normal_at_insert by lia.
    destruct (Z.eqb_spec j i) as [->|Hne]; cbn [andb].
    - destruct (Z.ltb_spec i (Z.of_nat (length ns))); [reflexivity|lia].
    - apply Hz. lia. }
  specialize (Z1 ltac:(lia)). clearbody ns1.
  (* the accumulation loop *)
  match goal with |- context [for_range ?n 0 ?body ns1] =>
    pose proof (for_range_ind
                  (fun (_ : Z) ns => length ns = length (normals m) /\
                                     normal_at ns i = vec3_zero)
                  body n 0 ns1) as H2;
    set (ns2 := for_range n 0 body ns1) in * end.
  cbn beta in H2. destruct H2 as [L2 Z2].
  { split; assumption. }
  { intros j ns Hj [Hl Hz]. rewrite !length_insert. split; [exact Hl|].
    assert (Hj' : 0 <= j < face_count m) by lia.
    pose proof (Hidx j 0%nat Hj' ltac:(lia)) as B0.
    pose proof (Hidx j 1%nat Hj' ltac:(lia)) as B1.
    pose proof (Hidx j 2%nat Hj' ltac:(lia)) as B2.
    pose proof (Hfree j 0%nat Hj' ltac:(lia)) as N0.
    pose proof (Hfree j 1%nat Hj' ltac:(lia)) as N1.
    pose proof (Hfree j 2%nat Hj' ltac:(lia)) as N2.
    fold (face_at m j) in B0, B1, B2.
    rewrite !normal_at_insert by lia.
    destruct (Z.eqb_spec (fv (face_at m j) 2) i); [contradiction|].
    destruct (Z.eqb_spec (fv (face_at m j) 1) i); [contradiction|].
    destruct (Z.eqb_spec (fv (face_at m j) 0) i); [contradiction|].
    exact Hz. }
  clearbody ns2.
  (* the normalising loop *)
  match goal with |- context [for_range ?n 0 ?body ns2] =>
    pose proof (for_range_ind
                  (fun (_ : Z) ns => length ns = length (normals m) /\
                                     normal_at ns i = vec3_zero)
                  body n 0 ns2) as H3 end.
  cbn beta in H3. destruct H3 as [_ Z3]; [split; assumption| |exact Z3].
  intros j ns Hj [Hl Hz]. rewrite length_insert. split; [exact Hl|].
  rewrite normal_at_insert by lia.
  destruct (Z.eqb_spec j i) as [->|Hne]; cbn [andb]; [|exact Hz].
  destruct (Z.ltb_spec i (Z.of_nat (length ns))); [|exact Hz].
  rewrite Hz. apply vec3_normalize_zero.
Qed.

Lemma mesh_calculate_normals_unused_vertex_witness :
  let m := unit_mesh [mk_vec3 f0 f0 f0; mk_vec3 f1 f0 f0; mk_vec3 f0 f1 f0; mk_vec3 f1 f1 f1]
                     [mk_face [0; 1; 2] [0; 0; 0] white] in
  normal_at (normals (mesh_calculate_normals m)) 3 = vec3_zero.
Proof.
  intros m.
  refine (proj1 (mesh_calculate_normals_unused_vertex m 3 _ _ _ _)).
  - cbn. lia.
  - apply faces_indexed_b_sound; [cbn; lia|reflexivity].
  - cbn. lia.
  - intros j k Hj Hk. assert (j = 0) as -> by (cbn in Hj; lia).
    destruct k as [|[|[|k]]]; [| | |lia]; now vm_compute.
Defined.

(** *** The vertex order of the rasteriser *)

Ltac flt_saturate :=
  repeat match goal with
         | H1 : flt ?a ?b = true, H2 : flt ?b ?c = true |- _ =>
             lazymatch goal with
             | _ : flt a c = true |- _ => fail
             | _ => pose proof (flt_trans a b c H1 H2)
             end
         end;
  repeat match goal with
         | H : flt ?a ?b = true |- _ =>
             lazymatch goal with
             | _ : flt b a = false |- _ => fail
             | _ => pose proof (flt_asym a b H)
             end
         end.

Ltac flt_order :=
  match goal with
  | |- flt ?x ?y = false =>
      destruct (flt x y) eqn:?; [exfalso; flt_saturate; congruence | reflexivity]
  end.

Ltac perm_step := (apply perm_swap) + (apply perm_skip; apply perm_swap).

Ltac perm3 :=
  first [ reflexivity
        | solve [perm_step]
        | solve [etransitivity; [perm_step | perm_step]]
        | solve [etransitivity; [perm_step | etransitivity; [perm_step | perm_step]]] ].

(** X23. The three conditional swaps at the head of [draw_triangle_flat]
    sort the vertices by [y]: the result is a rearrangement of the three
    vertices in which no vertex has a smaller [y] than one before it. *)
Theorem sort_by_y_sorted (p0 p1 p2 : vec3_t) :
  exists q0 q1 q2,
    sort_by_y p0 p1 p2 = (q0, q1, q2) /\
    [q0; q1; q2] ≡ₚ [p0; p1; p2] /\
    (vy q1 <? vy q0)%f32 = false /\
    (vy q2 <? vy q1)%f32 = false /\
    (vy q2 <? vy q0)%f32 = false.
Proof.
  unfold sort_by_y.
  change (vy p0 >? vy p1)%f32 with (flt (vy p1) (vy p0)).
  destruct (flt (vy p1) (vy p0)) eqn:E1.
  - change (vy p1 >? vy p2)%f32 with (flt (vy p2) (vy p1)).
    destruct (flt (vy p2) (vy p1)) eqn:E2.
    + change (vy p0 >? vy p1)%f32 with (flt (vy p1) (vy p0)). rewrite E1.
      exists p2, p1, p0. split; [reflexivity|].
      split; [perm3|repeat split; flt_order].
    + change (vy p0 >? vy p2)%f32 with (flt (vy p2) (vy p0)).
      destruct (flt (vy p2) (vy p0)) eqn:E3.
      * exists p1, p2, p0. split; [reflexivity|].
        split; [perm3|repeat split; flt_order].
      * exists p1, p0, p2. split; [reflexivity|].
        split; [perm3|repeat split; flt_order].
  - change (vy p0 >? vy p2)%f32 with (flt (vy p2) (vy p0)).
    destruct (flt (vy p2) (vy p0)) eqn:E2.
    + change (vy p1 >? vy p0)%f32 with (flt (vy p0) (vy p1)).
      destruct (flt (vy p0) (vy p1)) eqn:E3.
      * exists p2, p0, p1. split; [reflexivity|].
        split; [perm3|repeat split; flt_order].
      * exists p2, p1, p0. split; [reflexivity|].
        split; [perm3|repeat split; flt_order].
    + change (vy p1 >? vy p2)%f32 with (flt (vy p2) (vy p1)).
      destruct (flt (vy p2) (vy p1)) eqn:E3.
      * exists p0, p2, p1. split; [reflexivity|].
        split; [perm3|repeat split; flt_order].
      * exists p0, p1, p2. split; [reflexivity|].
        split; [perm3|repeat split; flt_order].
Qed.

(** *** The index groups of a face record *)

Lemma read_digits_app (ds rest : string) :
  all_digits ds = true -> ends_number rest = true ->
  forall acc count,
    exists v, read_digits (ds ++ rest) acc count
              = (v, (count + String.length ds)%nat, rest) /\
              v = fst (fst (read_digits ds acc count)).
Proof.
  intros Hds Hrest. induction ds as [|c ds IH]; [discriminate|].
  intros acc count. cbn [append read_digits String.length].
  destruct ds as [|c' ds'].
  - cbn [all_digits] in Hds. rewrite Hds. cbn [append read_digits].
    destruct rest as [|r0 rest']; cbn [read_digits].
    + exists (10 * acc + digit_value c). split; [|reflexivity].
      cbn [String.length]. now rewrite Nat.add_succ_r, Nat.add_0_r.
    + cbn [ends_number] in Hrest. apply negb_true_iff in Hrest. rewrite Hrest.
      exists (10 * acc + digit_value c). split; [|reflexivity].
      cbn [String.length]. now rewrite Nat.add_succ_r, Nat.add_0_r.
  - assert (Hc : isdigit c = true /\ all_digits (String c' ds') = true).
    { cbn [all_digits] in Hds. apply andb_true_iff in Hds. exact Hds. }
    destruct Hc as [Hc Hds']. rewrite Hc.
    destruct (IH Hds' (10 * acc + digit_value c) (S count)) as (v & Hv & Hval).
    exists v. split; [|exact Hval]. rewrite Hv. now rewrite Nat.add_succ_r.
Qed.

Lemma all_digits_head (ds : string) :
  all_digits ds = true -> exists c r, ds = String c r /\ isdigit c = true.
Proof.
  destruct ds as [|c r]; [discriminate|]. intros H. exists c, r. split; [reflexivity|].
  destruct r; cbn [all_digits] in H; [exact H|]. now apply andb_true_iff in H.
Qed.

Lemma digit_not_space_or_sign (c : ascii) :
  isdigit c = true ->
  isspace c = false /\ (forall r, read_sign (String c r) = (false, String c r)).
Proof.
  destruct c as [[] [] [] [] [] [] [] []]; intros H; try discriminate H;
    split; reflexivity.
Qed.

Lemma strtol_app (ds rest : string) :
  all_digits ds = true -> ends_number rest = true ->
  strtol (ds ++ rest) = (fst (strtol ds), rest).
Proof.
  intros Hds Hrest.
  destruct (all_digits_head ds Hds) as (c & r & -> & Hc).
  destruct (digit_not_space_or_sign c Hc) as [Hsp Hsg].
  unfold strtol. cbn [append skip_space]. rewrite Hsp, !Hsg.
  destruct (read_digits_app (String c r) rest Hds Hrest 0 0%nat) as (v & Hv & Hval).
  cbn [append] in Hv. rewrite Hv.
  destruct (read_digits_app (String c r) EmptyString Hds eq_refl 0 0%nat)
    as (v' & Hv' & Hval').
  assert (E : (String c r ++ "")%string = String c r).
  { clear. induction (String c r) as [|x s IH]; cbn [append]; [reflexivity|now rewrite IH]. }
  rewrite E in Hv'. rewrite Hv'.
  cbn [String.length Nat.add fst]. now rewrite Hval, Hval'.
Qed.

Lemma skip_ws_digit (ds rest : string) :
  all_digits ds = true -> skip_ws (ds ++ rest) = (ds ++ rest)%string.
Proof.
  intros Hds. destruct (all_digits_head ds Hds) as (c & r & -> & Hc).
  cbn [append skip_ws]. now rewrite (proj1 (digit_not_space_or_sign c Hc)).
Qed.

Lemma ends_group_number (rest : string) : ends_group rest = true -> ends_number rest = true.
Proof.
  destruct rest as [|c r]; [reflexivity|]. cbn [ends_group ends_number].
  intros H. now apply andb_true_iff in H.
Qed.

Lemma ends_group_no_slash (rest : string) :
  ends_group rest = true ->
  match rest with String "/"%char _ => False | _ => True end.
Proof.
  destruct rest as [|c r]; [trivial|]. cbn [ends_group]. intros H.
  apply andb_true_iff in H. destruct H as [_ H].
  destruct c as [[] [] [] [] [] [] [] []]; try exact I. discriminate H.
Qed.

Ltac no_slash H :=
  let Hn := fresh in
  pose proof (ends_group_no_slash _ H) as Hn;
  match type of H with
  | ends_group ?rest = true =>
      destruct rest as [|[[] [] [] [] [] [] [] []] ?]; first [reflexivity | contradiction]
  end.

(** X24. [parse_face_index] reads all four forms of an index group, [v],
    [v/vt], [v/vt/vn] and [v//vn]: it returns the number [v] stands for and
    leaves the text right after the group, so the texture and normal
    indices are skipped. *)
Theorem parse_face_index_forms (v vt vn rest : string) :
  all_digits v = true -> all_digits vt = true -> all_digits vn = true ->
  ends_group rest = true ->
  let idx := fst (strtol v) in
  parse_face_index (v ++ rest) = (idx, rest) /\
  parse_face_index (v ++ "/" ++ vt ++ rest) = (idx, rest) /\
  parse_face_index (v ++ "/" ++ vt ++ "/" ++ vn ++ rest) = (idx, rest) /\
  parse_face_index (v ++ "//" ++ vn ++ rest) = (idx, rest).
Proof.
  intros Hv Hvt Hvn Hrest idx. subst idx.
  pose proof (ends_group_number rest Hrest) as Hnum.
  unfold parse_face_index, parse_int.
  rewrite !skip_ws_digit by exact Hv.
  split; [|split; [|split]].
  - rewrite strtol_app by assumption. f_equal. clear Hnum. no_slash Hrest.
  - rewrite strtol_app by (try assumption; reflexivity). cbn [append].
    assert (E : match (vt ++ rest)%string with
                | String "/"%char _ => (vt ++ rest)%string
                | _ => snd (strtol (vt ++ rest))
                end = rest).
    { rewrite strtol_app by assumption. cbn [snd].
      destruct (all_digits_head vt Hvt) as (c & r & -> & Hc). cbn [append].
      destruct c as [[] [] [] [] [] [] [] []]; try discriminate Hc; reflexivity. }
    rewrite E. f_equal. clear Hnum E. no_slash Hrest.
  - rewrite strtol_app by (try assumption; reflexivity). cbn [append].
    assert (E : match (vt ++ String "/" (vn ++ rest))%string with
                | String "/"%char _ => (vt ++ String "/" (vn ++ rest))%string
                | _ => snd (strtol (vt ++ String "/" (vn ++ rest)))
                end = String "/" (vn ++ rest)).
    { rewrite strtol_app by (try assumption; reflexivity). cbn [snd].
      destruct (all_digits_head vt Hvt) as (c & r & -> & Hc). cbn [append].
      destruct c as [[] [] [] [] [] [] [] []]; try discriminate Hc; reflexivity. }
    rewrite E. now rewrite strtol_app by assumption.
  - rewrite strtol_app by (try assumption; reflexivity). cbn [append].
    now rewrite strtol_app by assumption.
Qed.

Lemma parse_face_index_forms_witness :
  parse_face_index "12/7/3 5" = (12, " 5"%string) /\
  parse_face_index "12//3 5" = (12, " 5"%string).
Proof.
  destruct (parse_face_index_forms "12" "7" "3" " 5") as (_ & _ & H3 & H4);
    try reflexivity.
  split; [exact H3|exact H4].
Defined.

(** *** What the first pass counts, and texts on which the loader returns *)

(** X25. The vertex count of [count_elements] is the number of lines that
    start, after blanks, with a [v] and a space, and its face count is never
    negative. *)
Theorem count_elements_vertex_lines (fuel : nat) (data : string) (verts faces : Z) :
  count_elements fuel data = Some (verts, faces) ->
  verts = lines_vertices data /\ 0 <= verts /\ 0 <= faces.
Proof.
  unfold count_elements. intros H. apply count_loop_verts in H.
  pose proof (vertex_records_nonneg (String.length data) data) as Hn.
  fold (lines_vertices data) in Hn. lia.
Qed.

Lemma count_elements_vertex_lines_witness :
  3 = lines_vertices obj_triangle_text.
Proof.
  refine (proj1 (count_elements_vertex_lines 10 obj_triangle_text 3 1 _)).
  reflexivity.
Defined.

Lemma has_face_record_enough (n : nat) :
  forall m p, (String.length p <= n)%nat -> (String.length p <= m)%nat ->
    has_face_record n p = has_face_record m p.
Proof.
  induction n as [|n IH]; intros m p Hn Hm.
  - destruct p; [|cbn [String.length] in Hn; lia]. now destruct m.
  - destruct p as [|c p]; [now destruct m|].
    destruct m as [|m]; [cbn [String.length] in Hm; lia|].
    cbn [has_face_record]. f_equal.
    pose proof (skip_line_shorter c p). cbn [String.length] in Hn, Hm.
    apply IH; lia.
Qed.

Lemma no_face_record_step (c : ascii) (p : string) :
  no_face_record (String c p) ->
  starts_record "f" (skip_ws (String c p)) = false /\
  no_face_record (skip_line (String c p)).
Proof.
  unfold no_face_record. cbn [String.length has_face_record]. intros H.
  apply orb_false_iff in H. destruct H as [H1 H2]. split; [exact H1|].
  rewrite <- H2. pose proof (skip_line_shorter c p). apply has_face_record_enough; lia.
Qed.

Lemma no_face_record_skip_line (p : string) :
  no_face_record p -> no_face_record (skip_line p).
Proof.
  destruct p as [|c p]; [auto|]. intros H. now apply no_face_record_step in H.
Qed.

Lemma no_face_record_suffix (q p : string) :
  suffix_of q p -> no_face_record (skip_line p) -> no_face_record (skip_line q).
Proof.
  induction 1 as [|c p Hs IH]; [auto|]. cbn [skip_line].
  destruct (Ascii.eqb c newline); [|exact IH].
  intros H. apply IH. now apply no_face_record_skip_line.
Qed.

Lemma count_loop_returns (fuel : nat) :
  forall p verts faces,
    (String.length p < fuel)%nat -> no_face_record p ->
    count_loop fuel p verts faces = Some (verts + lines_vertices p, faces).
Proof.
  induction fuel as [|fuel IH]; intros p verts faces Hlen Hno; [lia|].
  cbn [count_loop]. destruct p as [|c p].
  - unfold lines_vertices. cbn [String.length vertex_records]. now rewrite Z.add_0_r.
  - rewrite lines_vertices_step, skip_line_skip_ws.
    destruct (no_face_record_step c p Hno) as [Hf Hrest].
    pose proof (skip_line_shorter c p) as Hs. cbn [String.length] in Hlen.
    destruct (starts_record "v" (skip_ws (String c p))).
    + rewrite IH by (assumption || lia). f_equal. f_equal. lia.
    + rewrite Hf. rewrite IH by (assumption || lia). f_equal.
Qed.

Section LoaderReturns.

Variable strtof : string -> float * string.
Hypothesis strtof_suffix : forall p, suffix_of (snd (strtof p)) p.

Lemma parse_loop_returns (fc : Z) (col : color_t) (fuel : nat) :
  forall p vs fs vi fi,
    (String.length p < fuel)%nat -> no_face_record p ->
    exists vs' vi', parse_loop strtof fuel p fc col vs fs vi fi = Some (vs', fs, vi', fi).
Proof.
  induction fuel as [|fuel IH]; intros p vs fs vi fi Hlen Hno; [lia|].
  cbn [parse_loop]. destruct p as [|c p]; [eauto|].
  destruct (no_face_record_step c p Hno) as [Hf Hrest].
  pose proof (skip_ws_suffix (String c p)) as Hws.
  set (p1 := skip_ws (String c p)) in *.
  cbn [String.length] in Hlen.
  destruct (starts_record "v" p1).
  - pose proof (advance_suffix 2 p1) as Ha.
    pose proof (parse_float_suffix strtof strtof_suffix (advance 2 p1)) as Hx.
    destruct (parse_float strtof (advance 2 p1)) as [x px]. cbn [snd] in Hx.
    pose proof (parse_float_suffix strtof strtof_suffix px) as Hy.
    destruct (parse_float strtof px) as [y py]. cbn [snd] in Hy.
    pose proof (parse_float_suffix strtof strtof_suffix py) as Hz.
    destruct (parse_float strtof py) as [z pz]. cbn [snd] in Hz.
    assert (Hsuf : suffix_of pz (String c p))
      by exact (suffix_of_trans _ _ _ Hz
                  (suffix_of_trans _ _ _ Hy
                     (suffix_of_trans _ _ _ Hx (suffix_of_trans _ _ _ Ha Hws)))).
    apply IH.
    + destruct pz as [|c' pz']; [cbn; lia|].
      pose proof (skip_line_shorter c' pz'). apply suffix_of_length in Hsuf.
      cbn [String.length] in Hsuf. lia.
    + exact (no_face_record_suffix _ _ Hsuf Hrest).
  - rewrite Hf. unfold p1. rewrite skip_line_skip_ws. apply IH; [|exact Hrest].
    pose proof (skip_line_shorter c p). lia.
Qed.

(** X26. On a text without face records the loader always returns: within
    one loop iteration per character and one more, [obj_load_from_string]
    answers with a mesh or with an error message. *)
Theorem obj_load_returns_without_faces (alloc : bool) (data : string)
    (default_color : color_t) (error_msg : string) :
  no_face_record data ->
  exists r,
    obj_load_from_string strtof (S (String.length data)) alloc (Some data)
      default_color error_msg = Some r.
Proof.
  intros Hno. unfold obj_load_from_string, count_elements.
  rewrite (count_loop_returns (S (String.length data)) data 0 0 ltac:(lia) Hno).
  destruct (_ =? 0); [eauto|]. destruct (_ || _); [eauto|].
  destruct (mesh_create alloc _ _) as [mesh|]; [|eauto].
  destruct (parse_loop_returns 0 default_color (S (String.length data)) data
              (vertices mesh) (faces mesh) 0 0 ltac:(lia) Hno) as (vs' & vi' & ->).
  eauto.
Qed.

End LoaderReturns.

Lemma obj_load_returns_without_faces_witness :
  exists r,
    obj_load_from_string strtof_decimal (S (String.length (vertex_lines 3))) true
      (Some (vertex_lines 3)) white "" = Some r.
Proof.
  apply (obj_load_returns_without_faces strtof_decimal strtof_decimal_suffix).
  reflexivity.
Defined.

(** ** The OBJ loader: capacity limits and the status string *)





